(** * Legal RAG retrieval-context pipeline: a shallow embedding

    The development follows the Python sources of the repository:

    - [legal_rag/core/chunker.py]            (module [Chunker])
    - [src/document_processor/chunker.py]    (module [DocChunker])
    - [legal_rag/core/llmlingua_compressor.py] (modules [CitationGuard],
      [Lingua], [Fallback])
    - [legal_rag/core/legal_rag.py]          (module [Engine])

    Modelling conventions.

    - A Python [str] is a list of characters.  Characters are the 256 code
      points of [ascii] (Latin-1); on this range [str.isspace], [\s], [\d],
      [str.lower] are written out exactly.  A pattern literal outside the
      range (the two Thai characters that stand in the USC/CFR patterns of
      the source file) is kept as its code point and matches no character.
    - Python integers are [Z] (lengths, sizes, token counts) or [nat]
      (loop counters that start at 0 and are only incremented).
    - Python floats are exact rationals [Q]: products, quotients and
      comparisons are taken without rounding; [int(x)] truncates toward 0.
    - Exceptions are values of [res]; objects whose fields are assigned
      (the compressor's [target_ratio], lazily created clients) are threaded
      as explicit state. *)

From Stdlib Require Import Ascii String ZArith QArith Qround Lia Bool Arith.
From Stdlib Require Import DecimalString DecimalNat Decimal.
From Stdlib Require Import Sorting.Sorted Sorting.Permutation.
From Stdlib Require Import List.
Import ListNotations.

Local Close Scope Q_scope.
Local Open Scope list_scope.

(* ================================================================== *)
(** ** Python strings *)
(* ================================================================== *)

Module Py.

Definition text := list ascii.

(** String literals. *)
Definition T (s : string) : text := list_ascii_of_string s.

(** The one-character string ["\n"]. *)
Definition NL : text := [ascii_of_nat 10].

Definition len (s : text) : Z := Z.of_nat (length s).

Definition char_eqb (a b : ascii) : bool := Ascii.eqb a b.

Fixpoint text_eqb (s t : text) : bool :=
  match s, t with
  | [], [] => true
  | a :: s', b :: t' => char_eqb a b && text_eqb s' t'
  | _, _ => false
  end.

(** [str.isspace] on one Latin-1 character: TAB..CR, FS..US, SPACE, NEL,
    NBSP. *)
Definition is_space (a : ascii) : bool :=
  let n := nat_of_ascii a in
  ((9 <=? n) && (n <=? 13)) || ((28 <=? n) && (n <=? 32))
  || (n =? 133) || (n =? 160).

Definition is_digit (a : ascii) : bool :=
  let n := nat_of_ascii a in (48 <=? n) && (n <=? 57).

Definition is_upper (a : ascii) : bool :=
  let n := nat_of_ascii a in (65 <=? n) && (n <=? 90).

Definition is_lower (a : ascii) : bool :=
  let n := nat_of_ascii a in (97 <=? n) && (n <=? 122).

(** [str.lower] on one Latin-1 character. *)
Definition lower_char (a : ascii) : ascii :=
  let n := nat_of_ascii a in
  if ((65 <=? n) && (n <=? 90))
     || ((192 <=? n) && (n <=? 222) && negb (n =? 215))
  then ascii_of_nat (n + 32) else a.

Definition lower (s : text) : text := map lower_char s.

Fixpoint drop_while (p : ascii -> bool) (s : text) : text :=
  match s with
  | [] => []
  | a :: s' => if p a then drop_while p s' else s
  end.

Definition lstrip (s : text) : text := drop_while is_space s.
Definition rstrip (s : text) : text := rev (drop_while is_space (rev s)).
Definition strip (s : text) : text := lstrip (rstrip s).

(** [s.startswith(p)] *)
Fixpoint startswith (p s : text) : bool :=
  match p, s with
  | [], _ => true
  | a :: p', b :: s' => char_eqb a b && startswith p' s'
  | _ :: _, [] => false
  end.

(** [p in s] *)
Fixpoint contains (p s : text) : bool :=
  startswith p s
  || match s with
     | [] => false
     | _ :: s' => contains p s'
     end.

(** [s.replace(old, new, 1)]: the first occurrence only.  With an empty
    [old] the first occurrence is at position 0. *)
Fixpoint replace_first (old new s : text) : text :=
  if startswith old s then new ++ skipn (length old) s
  else match s with
       | [] => []
       | a :: s' => a :: replace_first old new s'
       end.

(** [s.replace(old, new)] for a non-empty [old]: occurrences are found left
    to right and do not overlap; [skip] counts the characters of the
    occurrence just replaced that are still to be passed over. *)
Fixpoint replace_scan (old new : text) (skip : nat) (s : text) : text :=
  match s with
  | [] => []
  | a :: s' =>
      match skip with
      | S k => replace_scan old new k s'
      | O => if startswith old s
             then new ++ replace_scan old new (length old - 1) s'
             else a :: replace_scan old new 0 s'
      end
  end.

(** [s.replace(old, new)]; an empty [old] puts [new] before every character
    and at the end. *)
Definition replace_all (old new s : text) : text :=
  match old with
  | [] => flat_map (fun a => new ++ [a]) s ++ new
  | _ :: _ => replace_scan old new 0 s
  end.

(** [sep.join(l)] *)
Fixpoint join (sep : text) (l : list text) : text :=
  match l with
  | [] => []
  | [x] => x
  | x :: l' => x ++ sep ++ join sep l'
  end.

(** [s.split(sep)] for a non-empty [sep]; [acc] is the current piece,
    reversed. *)
Fixpoint split_scan (sep : text) (skip : nat) (acc : text) (s : text)
  : list text :=
  match s with
  | [] => [rev acc]
  | a :: s' =>
      match skip with
      | S k => split_scan sep k acc s'
      | O => if startswith sep s
             then rev acc :: split_scan sep (length sep - 1) [] s'
             else split_scan sep 0 (a :: acc) s'
      end
  end.

Definition split (sep s : text) : list text := split_scan sep 0 [] s.

(** [s.split()]: maximal runs of non-space characters. *)
Fixpoint split_ws_scan (acc : text) (s : text) : list text :=
  match s with
  | [] => match acc with [] => [] | _ => [rev acc] end
  | a :: s' =>
      if is_space a
      then match acc with
           | [] => split_ws_scan [] s'
           | _ => rev acc :: split_ws_scan [] s'
           end
      else split_ws_scan (a :: acc) s'
  end.

Definition split_ws (s : text) : list text := split_ws_scan [] s.

(** [s[-k:]] for [k > 0]: the last [k] characters (all of [s] when it is
    shorter). *)
Definition last_chars (k : nat) (s : text) : text :=
  skipn (length s - k) s.

(** [str(n)] for a non-negative integer. *)
Definition str_nat (n : nat) : text :=
  list_ascii_of_string (NilEmpty.string_of_uint (Nat.to_uint n)).

(** Truthiness of a string. *)
Definition truthy (s : text) : bool :=
  match s with [] => false | _ => true end.

(** [enumerate(l, start)] *)
Fixpoint enumerate_from {A} (start : nat) (l : list A) : list (nat * A) :=
  match l with
  | [] => []
  | x :: l' => (start, x) :: enumerate_from (S start) l'
  end.

Definition enumerate {A} (l : list A) : list (nat * A) := enumerate_from 0 l.

(** [x in l] for a list or set of strings. *)
Definition mem (x : text) (l : list text) : bool := existsb (text_eqb x) l.

(** A [dict] with string keys, in insertion order. *)
Definition dict := list (text * text).

(** [d[k] = v] *)
Fixpoint dict_set (k v : text) (d : dict) : dict :=
  match d with
  | [] => [(k, v)]
  | (k', v') :: d' =>
      if text_eqb k k' then (k', v) :: d' else (k', v') :: dict_set k v d'
  end.

(** [d.get(k)] *)
Fixpoint dict_get (k : text) (d : dict) : option text :=
  match d with
  | [] => None
  | (k', v) :: d' => if text_eqb k k' then Some v else dict_get k d'
  end.

(** [int(x)] on a float: truncation toward zero. *)
Definition int_of_float (x : Q) : Z := Z.quot (Qnum x) (Zpos (Qden x)).

End Py.

Import Py.

(* ================================================================== *)
(** ** The fragment of [re] the sources use *)
(* ================================================================== *)

Module Re.

(** Character classes: [\d], [\s], [[A-Z]], [[a-z]], a literal character
    (by code point), a bracket set of literals. *)
Inductive cls :=
| Digit
| Space
| Upper
| Lower
| Lit (n : nat)
| OneOf (l : list nat).

Definition cls_ok (c : cls) (a : ascii) : bool :=
  match c with
  | Digit => is_digit a
  | Space => is_space a
  | Upper => is_upper a
  | Lower => is_lower a
  | Lit n => nat_of_ascii a =? n
  | OneOf l => existsb (Nat.eqb (nat_of_ascii a)) l
  end.

(** Greedy quantifiers: exactly one, [?], [*], [+]. *)
Inductive quant := One | Opt | Star | Plus.

Record item := It { it_cls : cls; it_quant : quant }.

(** A pattern: an optional one-character lookbehind [(?<=[..])], a sequence
    of quantified classes, an optional one-character lookahead [(?=[..])]. *)
Record regex := Regex {
  lookbehind : option cls;
  body : list item;
  lookahead : option cls
}.

Definition plain (its : list item) : regex := Regex None its None.

(** Code point of a one-character literal. *)
Definition ch (s : string) : nat :=
  match s with
  | String a _ => nat_of_ascii a
  | EmptyString => 0
  end.

Definition lit (s : string) : item := It (Lit (ch s)) One.

(** Greedy repetition of a class, longest first, backtracking into the
    continuation [k]. *)
Fixpoint star (c : cls) (k : text -> option text) (s : text) : option text :=
  match s with
  | a :: s' =>
      if cls_ok c a
      then match star c k s' with
           | Some r => Some r
           | None => k s
           end
      else k s
  | [] => k s
  end.

(** [m_items its k s]: match [its] at the head of [s], then [k] on what
    follows; the result is the text after the whole match, for the first
    success in backtracking order. *)
Fixpoint m_items (its : list item) (k : text -> option text) (s : text)
  : option text :=
  match its with
  | [] => k s
  | It c q :: its' =>
      match q with
      | One =>
          match s with
          | a :: s' => if cls_ok c a then m_items its' k s' else None
          | [] => None
          end
      | Opt =>
          match s with
          | a :: s' =>
              if cls_ok c a
              then match m_items its' k s' with
                   | Some r => Some r
                   | None => m_items its' k s
                   end
              else m_items its' k s
          | [] => m_items its' k s
          end
      | Star => star c (m_items its' k) s
      | Plus =>
          match s with
          | a :: s' => if cls_ok c a then star c (m_items its' k) s' else None
          | [] => None
          end
      end
  end.

Definition check_ahead (la : option cls) (s : text) : option text :=
  match la with
  | None => Some s
  | Some c =>
      match s with
      | a :: _ => if cls_ok c a then Some s else None
      | [] => None
      end
  end.

Definition check_behind (lb : option cls) (prev : option ascii) : bool :=
  match lb with
  | None => true
  | Some c =>
      match prev with
      | Some a => cls_ok c a
      | None => false
      end
  end.

(** The match starting exactly at the head of [s] ([prev] is the character
    before it): the matched text, if any. *)
Definition match_at (r : regex) (prev : option ascii) (s : text)
  : option text :=
  if check_behind (lookbehind r) prev
  then match m_items (body r) (check_ahead (lookahead r)) s with
       | Some rest => Some (firstn (length s - length rest) s)
       | None => None
       end
  else None.

(** [re.finditer]: the matched strings, left to right, not overlapping.
    Every pattern of the program consumes at least one character; an empty
    match is reported and the scan moves on by one character. *)
Fixpoint finditer_scan (r : regex) (prev : option ascii) (skip : nat)
  (s : text) : list text :=
  match s with
  | [] =>
      match skip, match_at r prev [] with
      | O, Some m => [m]
      | _, _ => []
      end
  | a :: s' =>
      match skip with
      | S k => finditer_scan r (Some a) k s'
      | O =>
          match match_at r prev s with
          | Some m => m :: finditer_scan r (Some a) (length m - 1) s'
          | None => finditer_scan r (Some a) 0 s'
          end
      end
  end.

Definition finditer (r : regex) (s : text) : list text :=
  finditer_scan r None 0 s.

(** [re.findall] for a pattern without groups. *)
Definition findall (r : regex) (s : text) : list text := finditer r s.

(** [re.search(...)] used as a condition. *)
Definition search (r : regex) (s : text) : bool :=
  match finditer r s with [] => false | _ => true end.

(** [re.split] for a pattern without groups whose matches are non-empty;
    [acc] is the current piece, reversed. *)
Fixpoint split_scan (r : regex) (prev : option ascii) (skip : nat)
  (acc : text) (s : text) : list text :=
  match s with
  | [] => [rev acc]
  | a :: s' =>
      match skip with
      | S k => split_scan r (Some a) k acc s'
      | O =>
          match match_at r prev s with
          | Some (_ :: m) => rev acc :: split_scan r (Some a) (length m) [] s'
          | _ => split_scan r (Some a) 0 (a :: acc) s'
          end
      end
  end.

Definition split (r : regex) (s : text) : list text :=
  split_scan r None 0 [] s.

(** Every character of the match is accepted by a class of the pattern. *)
Definition chars_ok (its : list item) (m : text) : Prop :=
  Forall (fun a => existsb (fun it => cls_ok (it_cls it) a) its = true) m.

End Re.

(* ================================================================== *)
(** ** CitationGuard: [_protect_citations] / [_restore_citations] *)
(* ================================================================== *)

Module CitationGuard.

Import Re.

Definition d_plus := It Digit Plus.
Definition s_plus := It Space Plus.
Definition s_star := It Space Star.

(** The section sign of the two statutory patterns is stored in the source
    file as the two characters U+0E22 U+0E07. *)
Definition section_sign : list item := [It (Lit 3618) One; It (Lit 3591) One].

(** [LLMLinguaCompressor.CITATION_PATTERNS] *)
Definition CITATION_PATTERNS : list regex :=
  [ (* \d+\s+U\.S\.\s+\d+ *)
    plain [d_plus; s_plus; lit "U"; lit "."; lit "S"; lit "."; s_plus; d_plus];
    (* \d+\s+S\.\s*Ct\.\s+\d+ *)
    plain [d_plus; s_plus; lit "S"; lit "."; s_star; lit "C"; lit "t";
           lit "."; s_plus; d_plus];
    (* \d+\s+F\.\d+d\s+\d+ *)
    plain [d_plus; s_plus; lit "F"; lit "."; d_plus; lit "d"; s_plus; d_plus];
    (* \d+\s+F\.\s*Supp\.\s*\d*d?\s+\d+ *)
    plain [d_plus; s_plus; lit "F"; lit "."; s_star; lit "S"; lit "u";
           lit "p"; lit "p"; lit "."; s_star; It Digit Star;
           It (Lit (ch "d")) Opt; s_plus; d_plus];
    (* [A-Z][a-z]+\s+v\.\s+[A-Z][a-z]+ *)
    plain [It Upper One; It Lower Plus; s_plus; lit "v"; lit "."; s_plus;
           It Upper One; It Lower Plus];
    (* \d+\s+U\.S\.C\.\s+<section sign>\s*\d+ *)
    plain ([d_plus; s_plus; lit "U"; lit "."; lit "S"; lit "."; lit "C";
            lit "."; s_plus] ++ section_sign ++ [s_star; d_plus]);
    (* \d+\s+C\.F\.R\.\s+<section sign>\s*\d+ *)
    plain ([d_plus; s_plus; lit "C"; lit "."; lit "F"; lit "."; lit "R";
            lit "."; s_plus] ++ section_sign ++ [s_star; d_plus]) ].

(** The fixed head of a placeholder. *)
Definition prefix11 : text := T "__CITATION_".

(** [f"__CITATION_{i}_{j}__"] *)
Definition placeholder (i j : nat) : text :=
  T "__CITATION_" ++ str_nat i ++ T "_" ++ str_nat j ++ T "__".

(** Body of the inner loop of [_protect_citations]. *)
Definition protect_match (i : nat) (st : text * dict) (jm : nat * text)
  : text * dict :=
  let '(protected_text, citation_map) := st in
  let '(j, group) := jm in
  let ph := placeholder i j in
  (replace_first group ph protected_text, dict_set ph group citation_map).

(** Body of the outer loop: the matches are those of the text as it is when
    the pattern's scan starts. *)
Definition protect_pattern (st : text * dict) (ip : nat * regex)
  : text * dict :=
  let '(i, pattern) := ip in
  fold_left (protect_match i) (enumerate (finditer pattern (fst st))) st.

Definition _protect_citations (t : text) : text * dict :=
  fold_left protect_pattern (enumerate CITATION_PATTERNS) (t, []).

Definition _restore_citations (t : text) (citation_map : dict) : text :=
  fold_left (fun restored pc => replace_all (fst pc) (snd pc) restored)
            citation_map t.

(** [list(set(citations))]: the distinct matches (a set has no defined
    order; the first occurrences are kept here). *)
Fixpoint dedup (l : list text) : list text :=
  match l with
  | [] => []
  | x :: l' => if mem x l' then dedup l' else x :: dedup l'
  end.

Definition _extract_citations (t : text) : list text :=
  dedup (flat_map (fun p => findall p t) CITATION_PATTERNS).

(** *** A structured view of protected text

    A protected text is read as a sequence of tokens: plain characters and
    placeholders.  The functions below are used to state the invariant of
    [_protect_citations]; the program itself only sees [flat]. *)

Inductive tok :=
| Chr (a : ascii)
| Ph (i j : nat).

Definition render (t : tok) : text :=
  match t with
  | Chr a => [a]
  | Ph i j => placeholder i j
  end.

Definition flat (ts : list tok) : text := flat_map render ts.

(** Replace the placeholder [(i, j)] by the characters of [c]. *)
Definition subst (i j : nat) (c : text) (ts : list tok) : list tok :=
  flat_map (fun t =>
              match t with
              | Chr _ => [t]
              | Ph i' j' =>
                  if ((i =? i') && (j =? j'))%bool then map Chr c else [t]
              end) ts.

Definition keys_of (ts : list tok) : list (nat * nat) :=
  flat_map (fun t => match t with Chr _ => [] | Ph i j => [(i, j)] end) ts.

(** No underscore. *)
Definition clean (s : text) : Prop :=
  Forall (fun a => char_eqb a "_" = false) s.

Definition toks_clean (ts : list tok) : Prop :=
  Forall (fun t => match t with
                   | Chr a => char_eqb a "_" = false
                   | Ph _ _ => True
                   end) ts.

Definition has_space (s : text) : bool := existsb is_space s.

(** A citation as the patterns match it: no underscore, some whitespace. *)
Definition citation_like (s : text) : Prop :=
  clean s /\ has_space s = true.

(** One entry of the placeholder map, by key. *)
Definition entry : Type := (nat * nat) * text.

Definition entry_pair (e : entry) : text * text :=
  (placeholder (fst (fst e)) (snd (fst e)), snd e).

Definition subst_all (es : list entry) (ts : list tok) : list tok :=
  fold_left (fun ts e => subst (fst (fst e)) (snd (fst e)) (snd e) ts) es ts.

(** The pattern has a mandatory [\s], and no class of it accepts [_]. *)
Definition mandatory_space (its : list Re.item) : bool :=
  existsb (fun it =>
             match it with
             | Re.It Re.Space Re.One | Re.It Re.Space Re.Plus => true
             | _ => false
             end) its.

Definition rejects_underscore (its : list Re.item) : bool :=
  forallb (fun it => negb (Re.cls_ok (Re.it_cls it) "_")) its.

(** The key [k] was issued before the loops reached pattern [i], match
    [j]. *)
Definition key_before (i j : nat) (k : nat * nat) : Prop :=
  fst k < i \/ (fst k = i /\ snd k < j).

(** Invariant of the loops of [_protect_citations] on an underscore-free
    input [t0]: the protected text is a clean token list, the map holds one
    entry per issued key, and putting the citations back gives [t0]. *)
Definition protect_inv (t0 : text) (i j : nat) (st : text * dict) : Prop :=
  exists (ts : list tok) (es : list entry),
    fst st = flat ts
    /\ toks_clean ts
    /\ snd st = map entry_pair es
    /\ Forall (key_before i j) (map fst es)
    /\ Forall (fun e => clean (snd e)) es
    /\ incl (keys_of ts) (map fst es)
    /\ subst_all es ts = map Chr t0.

End CitationGuard.

(* ================================================================== *)
(** ** [legal_rag/core/chunker.py] *)
(* ================================================================== *)

Module Chunker.

Import Re.

(** [(?<=[.!?])\s+] *)
Definition sentence_boundary : regex :=
  Regex (Some (OneOf [ch "."; ch "!"; ch "?"])) [It Space Plus] None.

Record DocumentChunk := {
  content : text;
  chunk_id : text;
  document_id : text;
  section : text;
  page_estimate : Z;
  metadata : list (text * text)
}.

Record LegalChunker := {
  chunk_size : Z;
  chunk_overlap : Z;
  respect_sections : bool
}.

(** A section is a dict read with [.get("name", "CONTENT")] and
    [.get("text", "")]: [None] is an absent key. *)
Record Section := {
  sec_name : option text;
  sec_text : option text
}.

(** [None] is an absent attribute ([getattr] with a default). *)
Record DocumentMetadata := {
  filename : option text;
  case_name : option text;
  court : option text
}.

Record Document := {
  doc_content : text;
  doc_sections : list Section;
  doc_metadata : option DocumentMetadata
}.

Definition getattr (m : option DocumentMetadata)
  (f : DocumentMetadata -> option text) (default : text) : text :=
  match m with
  | Some md => match f md with Some v => v | None => default end
  | None => default
  end.

Definition _split_sentences (t : text) : list text :=
  map strip (filter (fun s => truthy (strip s)) (split sentence_boundary t)).

(** The loop of [_get_overlap] over [reversed(chunks)], with its [break]. *)
Fixpoint overlap_loop (chunk_overlap : Z) (rev_chunks : list text)
  (overlap_text : text) : text :=
  match rev_chunks with
  | [] => overlap_text
  | chunk :: rest =>
      if (len overlap_text + len chunk <=? chunk_overlap)%Z
      then overlap_loop chunk_overlap rest (chunk ++ T " " ++ overlap_text)
      else
        let remaining := (chunk_overlap - len overlap_text)%Z in
        if (remaining >? 0)%Z
        then last_chars (Z.to_nat remaining) chunk ++ T " " ++ overlap_text
        else overlap_text
  end.

Definition _get_overlap (self : LegalChunker) (chunks : list text) : text :=
  match chunks with
  | [] => []
  | _ :: _ =>
      if (chunk_overlap self <=? 0)%Z then []
      else strip (overlap_loop (chunk_overlap self) (rev chunks) [])
  end.

Definition _create_chunk (t : text) (document : Document)
  (section_name : text) (index : nat) : DocumentChunk :=
  let doc_id := getattr (doc_metadata document) filename (T "unknown") in
  {| content := t;
     chunk_id := doc_id ++ T "_" ++ section_name ++ T "_" ++ str_nat index;
     document_id := doc_id;
     section := section_name;
     page_estimate := 0;
     metadata :=
       [ (T "case_name", getattr (doc_metadata document) case_name []);
         (T "court", getattr (doc_metadata document) court []);
         (T "filename", doc_id) ] |}.

(** The local variables of [chunk_document]. *)
Record state := {
  chunks : list DocumentChunk;
  chunk_index : nat;
  current_chunk : list text;
  current_size : Z
}.

Definition nonempty {A} (l : list A) : bool :=
  match l with [] => false | _ => true end.

(** Body of [for sentence in sentences]. *)
Definition add_sentence (self : LegalChunker) (document : Document)
  (section_name : text) (st : state) (sentence : text) : state :=
  if ((current_size st + len sentence >? chunk_size self)%Z
      && nonempty (current_chunk st))%bool
  then
    let chunk_text := join (T " ") (current_chunk st) in
    let overlap_text := _get_overlap self (current_chunk st) in
    let current_chunk' :=
      if truthy overlap_text then [overlap_text; sentence] else [sentence] in
    {| chunks := chunks st ++
                 [_create_chunk chunk_text document section_name
                                (chunk_index st)];
       chunk_index := S (chunk_index st);
       current_chunk := current_chunk';
       current_size :=
         match current_chunk' with
         | first :: _ => (len first + len sentence)%Z
         | [] => len sentence
         end |}
  else
    {| chunks := chunks st;
       chunk_index := chunk_index st;
       current_chunk := current_chunk st ++ [sentence];
       current_size := (current_size st + len sentence)%Z |}.

(** Body of [for paragraph in paragraphs]. *)
Definition add_paragraph (self : LegalChunker) (document : Document)
  (section_name : text) (st : state) (raw : text) : state :=
  let paragraph := strip raw in
  if negb (truthy paragraph) then st
  else if (len paragraph >? chunk_size self)%Z
  then fold_left (add_sentence self document section_name)
                 (_split_sentences paragraph) st
  else if ((current_size st + len paragraph >? chunk_size self)%Z
           && nonempty (current_chunk st))%bool
  then
    let chunk_text := join (NL ++ NL) (current_chunk st) in
    let overlap_text := _get_overlap self (current_chunk st) in
    {| chunks := chunks st ++
                 [_create_chunk chunk_text document section_name
                                (chunk_index st)];
       chunk_index := S (chunk_index st);
       current_chunk :=
         if truthy overlap_text then [overlap_text; paragraph]
         else [paragraph];
       current_size :=
         if truthy overlap_text then (len overlap_text + len paragraph)%Z
         else len paragraph |}
  else
    {| chunks := chunks st;
       chunk_index := chunk_index st;
       current_chunk := current_chunk st ++ [paragraph];
       current_size := (current_size st + len paragraph)%Z |}.

(** [section.get("name", "CONTENT")] *)
Definition name_of (sec : Section) : text :=
  match sec_name sec with Some n => n | None => T "CONTENT" end.

(** Body of [for section in sections]: the buffer is reset, the chunk list
    and [chunk_index] are carried over. *)
Definition add_section (self : LegalChunker) (document : Document)
  (acc : list DocumentChunk * nat) (sec : Section)
  : list DocumentChunk * nat :=
  let section_name := name_of sec in
  let t := match sec_text sec with Some t => t | None => [] end in
  if negb (truthy (strip t)) then acc
  else
    let paragraphs := Py.split (NL ++ NL) t in
    let st := fold_left (add_paragraph self document section_name) paragraphs
                {| chunks := fst acc; chunk_index := snd acc;
                   current_chunk := []; current_size := 0 |} in
    if nonempty (current_chunk st)
    then (chunks st ++
          [_create_chunk (join (NL ++ NL) (current_chunk st)) document
                         section_name (chunk_index st)],
          S (chunk_index st))
    else (chunks st, chunk_index st).

Definition sections_of (document : Document) : list Section :=
  match doc_sections document with
  | [] => [ {| sec_name := Some (T "CONTENT");
               sec_text := Some (doc_content document) |} ]
  | l => l
  end.

Definition chunk_document (self : LegalChunker) (document : Document)
  : list DocumentChunk :=
  fst (fold_left (add_section self document) (sections_of document) ([], 0)).

(** The trailing number of a chunk id: the digits after its last [_]. *)
Definition last_field (s : text) : text :=
  rev ((fix take (l : text) : text :=
          match l with
          | [] => []
          | a :: l' => if char_eqb a "_" then [] else a :: take l'
          end) (rev s)).

Definition parse_nat (s : text) : option nat :=
  option_map Nat.of_uint (NilEmpty.uint_of_string (string_of_list_ascii s)).

Definition ordinal (chunk_id : text) : option nat :=
  parse_nat (last_field chunk_id).

(** Ordinals of the chunks of one document+section pair, in output order. *)
Definition section_ordinals (doc_id section_name : text)
  (l : list DocumentChunk) : list (option nat) :=
  map (fun c => ordinal (chunk_id c))
      (filter (fun c => text_eqb (document_id c) doc_id
                        && text_eqb (section c) section_name) l).

(** Total length of the units joined into a chunk, separators excluded. *)
Fixpoint sum_len (units : list text) : Z :=
  match units with
  | [] => 0%Z
  | u :: rest => (len u + sum_len rest)%Z
  end.

(** The chunk holds a unit that alone exceeds [chunk_size]. *)
Definition oversized (self : LegalChunker) (units : list text) : Prop :=
  exists u, In u units /\ (chunk_size self < len u)%Z.

Definition size_budget (self : LegalChunker) : Z :=
  (chunk_size self + Z.max 0 (chunk_overlap self))%Z.

(** The accumulated overlap is empty or ends with the space that follows
    its last unit, and is at most one character over the budget. *)
Definition overlap_ok (ov : Z) (acc : text) : Prop :=
  acc = [] \/ exists body, acc = body ++ T " " /\ (len acc <= ov + 1)%Z.

(** The units of a chunk respect the size budget, or one of them is
    oversized. *)
Definition within (self : LegalChunker) (units : list text) : Prop :=
  oversized self units \/ (sum_len units <= size_budget self)%Z.

(** A chunk is a join of units that respect the budget. *)
Definition chunk_ok (self : LegalChunker) (c : DocumentChunk) : Prop :=
  exists units,
    units <> []
    /\ (content c = join (T " ") units \/ content c = join (NL ++ NL) units)
    /\ within self units.

(** The chunks emitted so far carry the ordinals [0..next-1], in order. *)
Definition numbered (cs : list DocumentChunk) (next : nat) : Prop :=
  map (fun c => ordinal (chunk_id c)) cs = map Some (seq 0 next).

(** Invariant of the paragraph and sentence loops. *)
Definition state_ok (self : LegalChunker) (st : state) : Prop :=
  Forall (chunk_ok self) (chunks st)
  /\ numbered (chunks st) (chunk_index st)
  /\ (sum_len (current_chunk st) <= current_size st)%Z
  /\ (current_chunk st = [] \/ within self (current_chunk st)).

(** What [add_section] carries from one section to the next. *)
Definition output_ok (self : LegalChunker) (acc : list DocumentChunk * nat) : Prop :=
  Forall (chunk_ok self) (fst acc) /\ numbered (fst acc) (snd acc).

(** The chunk list only grows, by chunks of the section at hand. *)
Definition grows (name : text) (before after : list DocumentChunk) : Prop :=
  exists g, after = before ++ g /\ Forall (fun c => section c = name) g.

End Chunker.

(* ================================================================== *)
(** ** [src/document_processor/chunker.py] *)
(* ================================================================== *)

Module DocChunker.

Import Re.

Record DocumentMetadata := {
  filename : text;
  file_type : text;
  page_count : Z;
  case_name : option text;
  court : option text;
  date : option text;
  citation : option text;
  parties : list text;
  judges : list text
}.

(** A section dict as [_extract_sections] builds it. *)
Record Section := {
  title : text;
  sec_content : text;
  start_pos : Z
}.

Record ProcessedDocument := {
  doc_content : text;
  doc_metadata : DocumentMetadata;
  doc_sections : list Section
}.

Record DocumentChunk := {
  content : text;
  chunk_id : text;
  document_id : text;
  section : option text;
  page_estimate : option Z;
  metadata : list (text * option text)
}.

Record LegalChunker := {
  chunk_size : Z;
  chunk_overlap : Z;
  respect_sections : bool
}.

(** [LegalChunker.CITATION_PATTERNS] of this module. *)
Definition CITATION_PATTERNS : list regex :=
  [ (* \d+\s+U\.S\. *)
    plain [It Digit Plus; It Space Plus; lit "U"; lit "."; lit "S"; lit "."];
    (* \d+\s+F\.\d+d *)
    plain [It Digit Plus; It Space Plus; lit "F"; lit "."; It Digit Plus;
           lit "d"];
    (* \d+\s+S\.Ct\. *)
    plain [It Digit Plus; It Space Plus; lit "S"; lit "."; lit "C"; lit "t";
           lit "."];
    (* Id\. *)
    plain [lit "I"; lit "d"; lit "."];
    (* See\s+ *)
    plain [lit "S"; lit "e"; lit "e"; It Space Plus];
    (* Cf\. *)
    plain [lit "C"; lit "f"; lit "."] ].

(** [(?<=[.!?])\s+(?=[A-Z])] *)
Definition sentence_boundary : regex :=
  Regex (Some (OneOf [ch "."; ch "!"; ch "?"])) [It Space Plus] (Some Upper).

(** [\n\s*\n] *)
Definition paragraph_boundary : regex :=
  plain [It (Lit 10) One; It Space Star; It (Lit 10) One].

Definition protected_placeholder (i n : nat) : text :=
  T "__PROTECTED_" ++ str_nat i ++ T "_" ++ str_nat n ++ T "__".

(** Inner loop of the protection pass: [protections] grows by one pair per
    match. *)
Definition protect_match (i : nat) (st : text * list (text * text))
  (group : text) : text * list (text * text) :=
  let '(protected_text, protections) := st in
  let ph := protected_placeholder i (length protections) in
  (replace_first group ph protected_text, protections ++ [(ph, group)]).

Definition protect_pattern (st : text * list (text * text))
  (ip : nat * regex) : text * list (text * text) :=
  let '(i, pattern) := ip in
  fold_left (protect_match i) (finditer pattern (fst st)) st.

Definition _split_into_sentences (t : text) : list text :=
  let '(protected_text, protections) :=
    fold_left protect_pattern (enumerate CITATION_PATTERNS) (t, []) in
  let sentences := split sentence_boundary protected_text in
  flat_map
    (fun sentence =>
       let restored :=
         fold_left (fun s po => replace_all (fst po) (snd po) s)
                   protections sentence in
       if truthy (strip restored) then [strip restored] else [])
    sentences.

Definition _split_into_paragraphs (self : LegalChunker) (t : text)
  : list text :=
  flat_map
    (fun raw =>
       let para := strip raw in
       if negb (truthy para) then []
       else if (len para >? chunk_size self)%Z
       then _split_into_sentences para
       else [para])
    (split paragraph_boundary t).

(** [section or 'main'] *)
Definition section_label (section : option text) : text :=
  match section with
  | Some (a :: s) => a :: s
  | _ => T "main"
  end.

Definition make_chunk (current_chunk doc_id : text) (section : option text)
  (chunk_idx : nat) : DocumentChunk :=
  {| content := strip current_chunk;
     chunk_id := doc_id ++ T "_" ++ section_label section ++ T "_"
                 ++ str_nat chunk_idx;
     document_id := doc_id;
     section := section;
     page_estimate := None;
     metadata := [] |}.

(** The local variables of [_chunk_text]. *)
Record state := {
  chunks : list DocumentChunk;
  current_chunk : text;
  chunk_idx : nat
}.

(** Body of [for para in paragraphs]. *)
Definition add_para (self : LegalChunker) (doc_id : text)
  (section : option text) (st : state) (para : text) : state :=
  if (len (current_chunk st) + len para >? chunk_size self)%Z
  then
    let flushed := truthy (strip (current_chunk st)) in
    {| chunks :=
         if flushed
         then chunks st ++
              [make_chunk (current_chunk st) doc_id section (chunk_idx st)]
         else chunks st;
       chunk_idx := if flushed then S (chunk_idx st) else chunk_idx st;
       current_chunk :=
         if ((chunk_overlap self >? 0)%Z && truthy (current_chunk st))%bool
         then last_chars (Z.to_nat (chunk_overlap self)) (current_chunk st)
              ++ NL ++ NL ++ para
         else para |}
  else
    {| chunks := chunks st;
       chunk_idx := chunk_idx st;
       current_chunk :=
         if truthy (current_chunk st)
         then current_chunk st ++ NL ++ NL ++ para
         else current_chunk st ++ para |}.

Definition _chunk_text (self : LegalChunker) (t doc_id : text)
  (section : option text) : list DocumentChunk :=
  let st := fold_left (add_para self doc_id section)
              (_split_into_paragraphs self t)
              {| chunks := []; current_chunk := []; chunk_idx := 0 |} in
  if truthy (strip (current_chunk st))
  then chunks st ++
       [make_chunk (current_chunk st) doc_id section (chunk_idx st)]
  else chunks st.

(** [chunk.metadata.update({...})] on the empty dict of a fresh chunk. *)
Definition with_document_metadata (md : DocumentMetadata) (c : DocumentChunk)
  : DocumentChunk :=
  {| content := content c;
     chunk_id := chunk_id c;
     document_id := document_id c;
     section := section c;
     page_estimate := page_estimate c;
     metadata :=
       [ (T "case_name", case_name md);
         (T "court", court md);
         (T "date", date md);
         (T "citation", citation md);
         (T "filename", Some (filename md)) ] |}.

Definition chunk_document (self : LegalChunker) (document : ProcessedDocument)
  : list DocumentChunk :=
  let doc_id := filename (doc_metadata document) in
  let chunks :=
    if (respect_sections self && Chunker.nonempty (doc_sections document))%bool
    then flat_map
           (fun s => _chunk_text self (sec_content s) doc_id (Some (title s)))
           (doc_sections document)
    else _chunk_text self (doc_content document) doc_id None in
  map (with_document_metadata (doc_metadata document)) chunks.

Definition ordinals (l : list DocumentChunk) : list (option nat) :=
  map (fun c => Chunker.ordinal (chunk_id c)) l.

(** The chunks emitted so far carry the ordinals [0..next-1], in order. *)
Definition numbered' (cs : list DocumentChunk) (next : nat) : Prop :=
  ordinals cs = map Some (seq 0 next).

End DocChunker.

(* ================================================================== *)
(** ** Exceptions and state *)
(* ================================================================== *)

Inductive exn :=
| ImportError (msg : string)
| ValueError (msg : string)
| TypeError (msg : string)
| AttributeError (msg : string)
| ServiceError (msg : string).   (* raised inside an external service *)

Inductive res (A : Type) :=
| Ret (a : A)
| Raise (e : exn).

Arguments Ret {A} a.
Arguments Raise {A} e.

(** A computation on a state [S] that may raise; assignments made before an
    exception stay in the state, as they do on a Python object. *)
Definition M (S A : Type) : Type := S -> res A * S.

Definition ret {S A} (a : A) : M S A := fun s => (Ret a, s).

Definition raise {S A} (e : exn) : M S A := fun s => (Raise e, s).

Definition bind {S A B} (m : M S A) (f : A -> M S B) : M S B :=
  fun s =>
    match m s with
    | (Ret a, s') => f a s'
    | (Raise e, s') => (Raise e, s')
    end.

Definition get_state {S} : M S S := fun s => (Ret s, s).

Notation "x <- m ;; k" := (bind m (fun x => k))
  (at level 61, m at next level, right associativity).
Notation "m ;;; k" := (bind m (fun _ => k))
  (at level 61, right associativity).

(* ================================================================== *)
(** ** [legal_rag/core/llmlingua_compressor.py] *)
(* ================================================================== *)

Record CompressionResult := {
  compressed_text : text;
  original_tokens : Z;
  compressed_tokens : Z;
  compression_ratio : Q;
  preserved_citations : list text
}.

(** A retrieved chunk: the dict built by the store's [search]
    ([metadata = None] is an absent key). *)
Record RetrievedMatch := {
  rm_content : text;
  rm_metadata : option dict;
  rm_id : option text;
  rm_similarity : option Q
}.

Module Lingua.

Import CitationGuard.

(** The keyword arguments of [PromptCompressor.compress_prompt]. *)
Record PromptRequest := {
  context : list text;
  question : option text;     (* [None]: the keyword is not passed *)
  rate : Q;
  req_force_tokens : list text;
  drop_consecutive : bool
}.

(** The external [llmlingua.PromptCompressor] object: its reply is a dict. *)
Record PromptCompressor := {
  compress_prompt : PromptRequest -> res dict
}.

(** What the process can import: [None] when [llmlingua] is missing,
    otherwise the constructor [PromptCompressor(model_name, device_map)]. *)
Record Env := {
  llmlingua : option (text -> text -> res PromptCompressor)
}.

Record LLMLinguaCompressor := {
  model_name : text;
  target_ratio : Q;
  force_tokens : list text;
  use_gpu : bool;
  _compressor : option PromptCompressor;
  _initialized : bool
}.

(** The object together with the log of the requests it has sent to the
    external model. *)
Record cstate := {
  self : LLMLinguaCompressor;
  sent : list PromptRequest
}.

(** [len(text) // 4] *)
Definition _estimate_tokens (t : text) : Z := (len t / 4)%Z.

Definition LEGAL_PRESERVE_TERMS : list text :=
  map T [ "holding"; "held"; "affirmed"; "reversed"; "remanded";
          "plaintiff"; "defendant"; "appellant"; "appellee";
          "judgment"; "order"; "motion"; "petition"; "writ";
          "statute"; "regulation"; "constitutional"; "amendment";
          "precedent"; "stare decisis"; "ratio decidendi";
          "obiter dictum"; "prima facie"; "de facto"; "de jure" ]%string.

(** [__init__] *)
Definition init (model_name : text) (target_ratio : Q)
  (force_tokens : list text) (use_gpu : bool) : LLMLinguaCompressor :=
  {| model_name := model_name;
     target_ratio := target_ratio;
     force_tokens := force_tokens;
     use_gpu := use_gpu;
     _compressor := None;
     _initialized := false |}.

Definition set_target_ratio (r : Q) : M cstate unit :=
  fun st =>
    (Ret tt,
     {| self := {| model_name := model_name (self st);
                   target_ratio := r;
                   force_tokens := force_tokens (self st);
                   use_gpu := use_gpu (self st);
                   _compressor := _compressor (self st);
                   _initialized := _initialized (self st) |};
        sent := sent st |}).

Definition _ensure_initialized (env : Env) : M cstate unit :=
  fun st =>
    if _initialized (self st) then (Ret tt, st)
    else
      match llmlingua env with
      | None =>
          (Raise (ImportError
                    "llmlingua is required. Install with: pip install llmlingua"),
           st)
      | Some PromptCompressor_new =>
          let device := if use_gpu (self st) then T "cuda" else T "cpu" in
          match PromptCompressor_new (model_name (self st)) device with
          | Raise e => (Raise e, st)
          | Ret pc =>
              (Ret tt,
               {| self := {| model_name := model_name (self st);
                             target_ratio := target_ratio (self st);
                             force_tokens := force_tokens (self st);
                             use_gpu := use_gpu (self st);
                             _compressor := Some pc;
                             _initialized := true |};
                  sent := sent st |})
          end
      end.

(** [self._compressor.compress_prompt(...)]; the request is logged. *)
Definition call_compress_prompt (req : PromptRequest) : M cstate dict :=
  fun st =>
    let st' := {| self := self st; sent := sent st ++ [req] |} in
    match _compressor (self st) with
    | None =>
        (Raise (AttributeError
                  "'NoneType' object has no attribute 'compress_prompt'"),
         st)
    | Some pc =>
        match compress_prompt pc req with
        | Ret d => (Ret d, st')
        | Raise e => (Raise e, st')
        end
    end.

(** The request [compress] sends for a text and a query. *)
Definition request_of (st : cstate) (t : text) (query : option text)
  : PromptRequest :=
  {| context := [fst (CitationGuard._protect_citations t)];
     question := match query with
                 | Some (a :: q') => Some (a :: q')
                 | _ => None
                 end;
     rate := target_ratio (self st);
     req_force_tokens := force_tokens (self st) ++ LEGAL_PRESERVE_TERMS;
     drop_consecutive := true |}.

Definition compress (env : Env) (t : text) (query : option text)
  (preserve_citations : bool) : M cstate CompressionResult :=
  _ensure_initialized env ;;;
  let preserved := if preserve_citations then _extract_citations t else [] in
  st <- get_state ;;
  let force := force_tokens (self st) ++ LEGAL_PRESERVE_TERMS in
  let '(protected_text, citation_map) := _protect_citations t in
  let original_tokens := _estimate_tokens t in
  let q := match query with
           | Some (a :: q') => Some (a :: q')   (* [if query:] *)
           | _ => None
           end in
  result <- call_compress_prompt
              {| context := [protected_text];
                 question := q;
                 rate := target_ratio (self st);
                 req_force_tokens := force;
                 drop_consecutive := true |} ;;
  let compressed :=
    match dict_get (T "compressed_prompt") result with
    | Some c => c
    | None => protected_text
    end in
  let compressed := _restore_citations compressed citation_map in
  let compressed_tokens := _estimate_tokens compressed in
  ret {| compressed_text := compressed;
         original_tokens := original_tokens;
         compressed_tokens := compressed_tokens;
         compression_ratio :=
           if (original_tokens >? 0)%Z
           then (inject_Z compressed_tokens / inject_Z original_tokens)%Q
           else 1%Q;
         preserved_citations := preserved |}.

(** [c.get('metadata', {}).get('filename', 'Unknown')] *)
Definition source_name (c : RetrievedMatch) : text :=
  match rm_metadata c with
  | Some md =>
      match dict_get (T "filename") md with
      | Some f => f
      | None => T "Unknown"
      end
  | None => T "Unknown"
  end.

Definition SEPARATOR : text := NL ++ NL ++ T "---" ++ NL ++ NL.

Definition combine (chunks : list RetrievedMatch) : text :=
  join SEPARATOR
       (map (fun c => T "[Source: " ++ source_name c ++ T "]" ++ NL
                      ++ rm_content c) chunks).

Definition Qltb (x y : Q) : bool := negb (Qle_bool y x).

Definition Qmin (x y : Q) : Q := if Qle_bool y x then y else x.

(** [min(max_output_tokens / current_tokens, 1.0) if current_tokens > 0
    else 1.0] *)
Definition required_ratio (max_output_tokens current_tokens : Z) : Q :=
  if (current_tokens >? 0)%Z
  then Qmin (inject_Z max_output_tokens / inject_Z current_tokens)%Q 1%Q
  else 1%Q.

Definition compress_chunks (env : Env) (chunks : list RetrievedMatch)
  (query : text) (max_output_tokens : Z) : M cstate text :=
  _ensure_initialized env ;;;
  let combined_text := combine chunks in
  let current_tokens := _estimate_tokens combined_text in
  let required := required_ratio max_output_tokens current_tokens in
  st <- get_state ;;
  let original_ratio := target_ratio (self st) in
  (if Qltb required (target_ratio (self st))
   then set_target_ratio (required * (9 # 10))%Q
   else ret tt) ;;;
  result <- compress env combined_text (Some query) true ;;
  set_target_ratio original_ratio ;;;
  ret (compressed_text result).

End Lingua.

Module Fallback.

Import Re.

Record SimpleFallbackCompressor := {
  target_ratio : Q
}.

(** [(?<=[.!?])\s+] *)
Definition sentence_boundary : regex := Chunker.sentence_boundary.

Definition _split_sentences (t : text) : list text :=
  map strip (filter (fun s => truthy (strip s)) (split sentence_boundary t)).

Definition legal_terms : list text :=
  map T [ "court"; "held"; "holding"; "plaintiff"; "defendant";
          "judgment"; "ruling"; "statute"; "precedent"; "affirm" ]%string.

(** [\d+\s+[A-Z][a-z]*\.\s*\d*d?\s+\d+] *)
Definition citation_like : regex :=
  plain [It Digit Plus; It Space Plus; It Upper One; It Lower Star; lit ".";
         It Space Star; It Digit Star; It (Lit (ch "d")) Opt; It Space Plus;
         It Digit Plus].

Definition _score_sentence (sentence : text) (query : option text) : Q :=
  let score := 0%Q in
  let score :=
    fold_left (fun score term =>
                 if contains (lower term) (lower sentence)
                 then (score + 1)%Q else score)
              legal_terms score in
  let score :=
    if search citation_like sentence then (score + 2)%Q else score in
  match query with
  | Some (a :: q) =>
      fold_left (fun score term =>
                   if contains term (lower sentence)
                   then (score + (1 # 2))%Q else score)
                (split_ws (lower (a :: q))) score
  | _ => score
  end.

(** [l.sort(key=lambda x: x[1], reverse=True)]: a stable sort, highest key
    first; elements with equal keys keep their relative order. *)
Fixpoint insert_desc (x : text * Q) (l : list (text * Q)) : list (text * Q) :=
  match l with
  | [] => [x]
  | y :: l' =>
      if Qle_bool (snd y) (snd x) then x :: y :: l'
      else y :: insert_desc x l'
  end.

Definition sort_desc (l : list (text * Q)) : list (text * Q) :=
  fold_right insert_desc [] l.



Definition scored (sentences : list text) (query : option text)
  : list (text * Q) :=
  map (fun sent => (sent, _score_sentence sent query)) sentences.

(** [max(1, int(len(sentences) * self.target_ratio))].  The product is
    taken in the rationals, where Python rounds it to the nearest double
    before [int] truncates: the two agree where the product is itself a
    double. *)
Definition target_count (self : SimpleFallbackCompressor) (n : nat) : Z :=
  Z.max 1 (int_of_float (inject_Z (Z.of_nat n) * target_ratio self)%Q).

(** [scored_sentences[:target_count]] after the sort. *)
Definition selected (self : SimpleFallbackCompressor) (t : text)
  (query : option text) : list (text * Q) :=
  let sentences := _split_sentences t in
  firstn (Z.to_nat (target_count self (length sentences)))
         (sort_desc (scored sentences query)).

(** [[s for s in sentences if s in selected_set]] *)
Definition emitted (self : SimpleFallbackCompressor) (t : text)
  (query : option text) : list text :=
  let selected_set := map fst (selected self t query) in
  filter (fun s => mem s selected_set) (_split_sentences t).

Definition compress (self : SimpleFallbackCompressor) (t : text)
  (query : option text) : CompressionResult :=
  let compressed := join (T " ") (emitted self t query) in
  {| compressed_text := compressed;
     original_tokens := (len t / 4)%Z;
     compressed_tokens := (len compressed / 4)%Z;
     compression_ratio :=
       if truthy t then (inject_Z (len compressed) / inject_Z (len t))%Q
       else 1%Q;
     preserved_citations := [] |}.

End Fallback.

(* ================================================================== *)
(** ** [legal_rag/core/legal_rag.py] *)
(* ================================================================== *)

Module Engine.

(** A value of the [token_stats] dict. *)
Inductive number :=
| Int (z : Z)
| Float (q : Q).

Record RAGResponse := {
  answer : text;
  sources : list RetrievedMatch;
  compressed_context : text;
  token_stats : list (string * number);
  query_ : text;
  metadata : dict
}.

(** The external store: [search(query, top_k, filter_metadata)]. *)
Record VectorStore := {
  search : text -> Z -> option dict -> res (list RetrievedMatch)
}.

(** [client.chat.completions.create(...)] *)
Record ChatRequest := {
  model : text;
  system_message : text;
  user_message : text;
  temperature : Q;
  max_tokens : Z
}.

Record OpenAIClient := {
  chat_create : ChatRequest -> res text
}.

(** What the process can import and read from its environment. *)
Record Env := {
  lingua_env : Lingua.Env;
  openai : option (text -> OpenAIClient);   (* [None]: not importable *)
  OPENAI_API_KEY : option text
}.

(** The two compressor classes an engine is constructed with. *)
Inductive Compressor :=
| LLMLingua (c : Lingua.cstate)
| SimpleFallback (c : Fallback.SimpleFallbackCompressor).

(** Parameters of the two [compress] methods, after [self]. *)
Definition compress_params (c : Compressor) : list string :=
  match c with
  | LLMLingua _ => ["text"; "query"; "preserve_citations"]%string
  | SimpleFallback _ => ["text"; "query"]%string
  end.

Record LegalRAGEngine := {
  vector_store : option VectorStore;
  compressor : option Compressor;
  openai_model : text;
  top_k : Z;
  compression_enabled : bool;
  max_context_tokens : Z;
  _openai_client : option OpenAIClient
}.

Definition set_compressor (c : Compressor) : M LegalRAGEngine unit :=
  fun e =>
    (Ret tt,
     {| vector_store := vector_store e;
        compressor := Some c;
        openai_model := openai_model e;
        top_k := top_k e;
        compression_enabled := compression_enabled e;
        max_context_tokens := max_context_tokens e;
        _openai_client := _openai_client e |}).

Definition set_client (c : OpenAIClient) : M LegalRAGEngine unit :=
  fun e =>
    (Ret tt,
     {| vector_store := vector_store e;
        compressor := compressor e;
        openai_model := openai_model e;
        top_k := top_k e;
        compression_enabled := compression_enabled e;
        max_context_tokens := max_context_tokens e;
        _openai_client := Some c |}).

Definition SYSTEM_PROMPT : text :=
  T "You are an expert legal analyst assistant. Your role is to provide accurate, well-reasoned analysis of legal documents, case law, and statutes."
  ++ NL ++ NL ++ T "Guidelines:" ++ NL
  ++ T "1. Base your answers ONLY on the provided context" ++ NL
  ++ T "2. Cite specific cases, statutes, or document sections when possible" ++ NL
  ++ T "3. Acknowledge when information is incomplete or unclear" ++ NL
  ++ T "4. Use precise legal terminology" ++ NL
  ++ T "5. Structure complex answers with clear headings" ++ NL
  ++ T "6. Distinguish between holdings, dicta, and your analysis" ++ NL ++ NL
  ++ T "If the context doesn't contain sufficient information to answer the question, clearly state that and explain what additional information would be needed.".

Definition _get_openai_client (env : Env) : M LegalRAGEngine OpenAIClient :=
  e <- get_state ;;
  match _openai_client e with
  | Some c => ret c
  | None =>
      match openai env with
      | None =>
          raise (ImportError "openai is required. Install with: pip install openai")
      | Some OpenAI_new =>
          match OPENAI_API_KEY env with
          | Some (a :: k) =>
              set_client (OpenAI_new (a :: k)) ;;;
              ret (OpenAI_new (a :: k))
          | _ =>
              raise (ValueError "OPENAI_API_KEY environment variable is required")
          end
      end
  end.

Definition lift {S A} (r : res A) : M S A := fun s => (r, s).

Definition _generate_response (env : Env) (question context : text)
  : M LegalRAGEngine text :=
  client <- _get_openai_client env ;;
  e <- get_state ;;
  let user :=
    T "Based on the following legal documents and context, please answer this question:"
    ++ NL ++ NL ++ T "QUESTION: " ++ question ++ NL ++ NL
    ++ T "CONTEXT:" ++ NL ++ context ++ NL ++ NL
    ++ T "Please provide a comprehensive answer based on the context above. Cite specific sources when possible." in
  lift (chat_create client
          {| model := openai_model e;
             system_message := SYSTEM_PROMPT;
             user_message := user;
             temperature := 1 # 10;
             max_tokens := 2000 |}).

(** [metadata.get(k)] used as a condition and then read. *)
Definition field (label k : string) (md : dict) : list text :=
  match dict_get (T k) md with
  | Some (a :: v) => [T label ++ a :: v]
  | _ => []
  end.

Definition _format_context (chunks : list RetrievedMatch) : text :=
  join Lingua.SEPARATOR
    (map (fun ic : nat * RetrievedMatch =>
            let '(i, chunk) := ic in
            let md := match rm_metadata chunk with
                      | Some d => d
                      | None => []
                      end in
            let source_info :=
              field "Case: " "case_name" md ++ field "Court: " "court" md
              ++ field "Section: " "section" md
              ++ field "File: " "filename" md in
            let header := T "[Document " ++ str_nat i ++ T "]" in
            let header :=
              match source_info with
              | [] => header
              | _ => header ++ T " (" ++ join (T "; ") source_info ++ T ")"
              end in
            header ++ NL ++ rm_content chunk)
         (enumerate_from 1 chunks)).

(** The call [self.compressor.compress(text=.., query=..,
    preserve_citations=True)]: keywords are bound against the parameters of
    the method of the object's class. *)
Definition call_compress (env : Env) (c : Compressor) (t : text)
  (query : option text) (preserve_citations : bool)
  : M LegalRAGEngine CompressionResult :=
  match find (fun k => negb (existsb (String.eqb k) (compress_params c)))
             ["text"; "query"; "preserve_citations"]%string with
  | Some k =>
      raise (TypeError ("compress() got an unexpected keyword argument '"
                        ++ k ++ "'"))
  | None =>
      match c with
      | LLMLingua st =>
          match Lingua.compress (lingua_env env) t query preserve_citations st
          with
          | (r, st') => set_compressor (LLMLingua st') ;;; lift r
          end
      | SimpleFallback fc => ret (Fallback.compress fc t query)
      end
  end.

Definition savings_percent (original_tokens compressed_tokens : Z) : number :=
  if (original_tokens >? 0)%Z
  then Float (inject_Z (original_tokens - compressed_tokens)
              / inject_Z original_tokens * 100)%Q
  else Int 0.

Definition query (env : Env) (question : text) (filter_metadata : option dict)
  (include_sources : bool) : M LegalRAGEngine RAGResponse :=
  self <- get_state ;;
  match vector_store self with
  | None => raise (ValueError "Vector store not initialized")
  | Some store =>
      chunks <- lift (search store question (top_k self) filter_metadata) ;;
      match chunks with
      | [] =>
          ret {| answer := T "No relevant documents found for your query.";
                 sources := [];
                 compressed_context := [];
                 token_stats := [ ("original", Int 0); ("compressed", Int 0);
                                  ("savings", Int 0) ]%string;
                 query_ := question;
                 metadata := [] |}
      | _ :: _ =>
          let original_context := _format_context chunks in
          let original_tokens := (len original_context / 4)%Z in
          cc <- match compression_enabled self, compressor self with
                | true, Some c =>
                    r <- call_compress env c original_context (Some question)
                                       true ;;
                    ret (compressed_text r, compressed_tokens r)
                | _, _ => ret (original_context, original_tokens)
                end ;;
          let '(context, compressed_tokens) := cc in
          answer <- _generate_response env question context ;;
          ret {| answer := answer;
                 sources := if include_sources then chunks else [];
                 compressed_context := context;
                 token_stats :=
                   [ ("original", Int original_tokens);
                     ("compressed", Int compressed_tokens);
                     ("savings", Int (original_tokens - compressed_tokens));
                     ("savings_percent",
                      savings_percent original_tokens compressed_tokens)
                   ]%string;
                 query_ := question;
                 metadata := [] |}
      end
  end.

(** [token_stats[k]] *)
Fixpoint stat (k : string) (d : list (string * number)) : option number :=
  match d with
  | [] => None
  | (k', v) :: d' => if String.eqb k k' then Some v else stat k d'
  end.

End Engine.

(* ================================================================== *)
(** ** Concrete inputs used by the examples *)
(* ================================================================== *)

Module Samples.

(** A model that returns its context unchanged. *)
Definition echo_model : Lingua.PromptCompressor :=
  {| Lingua.compress_prompt :=
       fun req => Ret [(T "compressed_prompt", hd [] (Lingua.context req))] |}.

(** A model that returns a fixed text. *)
Definition const_model (out : text) : Lingua.PromptCompressor :=
  {| Lingua.compress_prompt := fun _ => Ret [(T "compressed_prompt", out)] |}.

(** A model whose call raises. *)
Definition failing_model : Lingua.PromptCompressor :=
  {| Lingua.compress_prompt := fun _ => Raise (ServiceError "model failure") |}.

Definition lingua_env (pc : Lingua.PromptCompressor) : Lingua.Env :=
  {| Lingua.llmlingua := Some (fun _ _ => Ret pc) |}.

Definition fresh (ratio : Q) : Lingua.cstate :=
  {| Lingua.self := Lingua.init (T "model") ratio [] false;
     Lingua.sent := [] |}.

Definition plain_match (content : text) : RetrievedMatch :=
  {| rm_content := content;
     rm_metadata := Some [];
     rm_id := None;
     rm_similarity := None |}.

Definition letters (n : nat) : text := repeat "a"%char n.

Definition client : Engine.OpenAIClient :=
  {| Engine.chat_create := fun _ => Ret (T "An answer.") |}.

Definition env (pc : Lingua.PromptCompressor) : Engine.Env :=
  {| Engine.lingua_env := lingua_env pc;
     Engine.openai := Some (fun _ => client);
     Engine.OPENAI_API_KEY := Some (T "sk-test") |}.

Definition store (result : list RetrievedMatch) : Engine.VectorStore :=
  {| Engine.search := fun _ _ _ => Ret result |}.

Definition engine (result : list RetrievedMatch)
  (c : option Engine.Compressor) : Engine.LegalRAGEngine :=
  {| Engine.vector_store := Some (store result);
     Engine.compressor := c;
     Engine.openai_model := T "gpt-4-turbo-preview";
     Engine.top_k := 10;
     Engine.compression_enabled := true;
     Engine.max_context_tokens := 8000;
     Engine._openai_client := None |}.

End Samples.

(** Concrete runs of the engine. *)
Module Runs.
Import Engine.

Definition chunks : list RetrievedMatch :=
  [Samples.plain_match (Samples.letters 387)].

Definition env : Env := Samples.env (Samples.const_model (Samples.letters 120)).

Definition with_model : LegalRAGEngine :=
  Samples.engine chunks (Some (LLMLingua (Samples.fresh (1 # 2)))).

Definition with_fallback : LegalRAGEngine :=
  Samples.engine chunks
    (Some (SimpleFallback {| Fallback.target_ratio := 1 # 2 |})).

Definition empty_store : LegalRAGEngine := Samples.engine [] None.

Definition question : text := T "What did the court hold?".

Definition response_of (r : res RAGResponse * LegalRAGEngine) : RAGResponse :=
  match fst r with
  | Ret resp => resp
  | Raise _ =>
      {| answer := []; sources := []; compressed_context := [];
         token_stats := []; query_ := []; metadata := [] |}
  end.
End Runs.


(** Concrete runs of [compress_chunks]. *)
Module Budget.
Import Lingua.

Definition env : Env := Samples.lingua_env Samples.echo_model.

Definition question : text := T "What did the court hold?".

(** 18 characters of source header and 3982 of content: 1000 tokens. *)
Definition chunks_1000 : list RetrievedMatch :=
  [Samples.plain_match (Samples.letters 3982)].

(** 400 characters: 100 tokens. *)
Definition chunks_100 : list RetrievedMatch :=
  [Samples.plain_match (Samples.letters 382)].

(** The run of [compress_chunks] against a model that raises. *)
Definition failing_run : res text * cstate :=
  compress_chunks (Samples.lingua_env Samples.failing_model) chunks_1000
                  question 300 (Samples.fresh (1 # 2)).

End Budget.

(** Texts for the extractive-fallback compressor. *)
Module Texts.


Definition five : text :=
  T "The court held that X. See 12 F.3d 45. Nothing here. The plaintiff won! Filler text.".

(** A text with three citations and no underscore. *)
Definition brown : text :=
  T "See Brown v. Board, 347 U.S. 483 (1954), and 12 F.3d 45.".

(** A text that already contains the token the guard is about to issue. *)
Definition with_placeholder : text := T "__CITATION_0_0__ 347 U.S. 483".

(** A text without any double underscore: a placeholder is formed by the
    end of one issued token, the text in between and the start of the
    next. *)
Definition single_underscores : text :=
  T "1 U.S. 2 3 U.S. 4_CITATION_0_0_5 U.S. 6".

End Texts.

(** Documents for the segmenters. *)
Module Docs.

Definition chunker : Chunker.LegalChunker :=
  {| Chunker.chunk_size := 10;
     Chunker.chunk_overlap := 5;
     Chunker.respect_sections := true |}.

Definition file : option Chunker.DocumentMetadata :=
  Some {| Chunker.filename := Some (T "f.txt");
          Chunker.case_name := None;
          Chunker.court := None |}.

(** One unnamed section of two ten-character paragraphs. *)
Definition two_paragraphs : Chunker.Document :=
  {| Chunker.doc_content := T "Aa. Bb. C." ++ NL ++ NL ++ T "Dd. Ee. F.";
     Chunker.doc_sections := [];
     Chunker.doc_metadata := file |}.

(** The second chunk of [two_paragraphs]: the overlap tail of the first
    paragraph, a blank line, the second paragraph. *)
Definition second_chunk : Chunker.DocumentChunk :=
  Chunker._create_chunk (T "b. C." ++ NL ++ NL ++ T "Dd. Ee. F.")
                        two_paragraphs (T "CONTENT") 1.

(** Two named sections of one short paragraph each. *)
Definition two_sections : Chunker.Document :=
  {| Chunker.doc_content := [];
     Chunker.doc_sections :=
       [ {| Chunker.sec_name := Some (T "A");
            Chunker.sec_text := Some (T "First.") |};
         {| Chunker.sec_name := Some (T "B");
            Chunker.sec_text := Some (T "Second.") |} ];
     Chunker.doc_metadata := file |}.

End Docs.

(* ================================================================== *)
(** * The rest of the pipeline

    The modules below follow the code around the functions above:

    - [src/document_processor/legal_document_processor.py],
      [_extract_sections]                       (module [Processor])
    - [legal_rag/core/chroma_store.py]          (module [Store])
    - [legal_rag/core/legal_rag.py], [analyze_case], [compare_cases],
      [find_precedents]                         (module [EngineCases])

    together with the predicates in which the invariants of the loops are
    stated ([Shape], [ChunkerInv], [DocChunkerInv], [GuardInv],
    [FallbackInv], [ProcessorInv], [Cover]).

    Further conventions.

    - [str.upper] can leave the Latin-1 range and can lengthen a string;
      its result is a list of code points.
    - The store raises [IndexError] besides the exceptions of [exn]; its
      results are values of [Store.outcome].
    - [hashlib.md5], [Path.mkdir] and the Chroma objects are fields of the
      environment or function-valued records, like the other services. *)
(* ================================================================== *)

(* ================================================================== *)
(** ** Shapes of texts used to state the properties *)
(* ================================================================== *)

Module Shape.

(** Some character of [s] is not whitespace: [s.strip()] is truthy. *)
Definition has_ink (s : text) : bool :=
  existsb (fun a => negb (is_space a)) s.

(** [s] starts with a character that is not whitespace. *)
Definition edge (s : text) : Prop :=
  match s with
  | [] => False
  | a :: _ => is_space a = false
  end.

(** [s] is not empty and has no whitespace at either end. *)
Definition trimmed (s : text) : Prop := edge s /\ edge (rev s).

End Shape.

(* ================================================================== *)
(** ** Invariants of [legal_rag/core/chunker.py] beyond the size budget *)
(* ================================================================== *)

Module ChunkerInv.

Import Chunker Shape.

(** [section.get("text", "")] *)
Definition text_of (sec : Section) : text :=
  match sec_text sec with Some t => t | None => [] end.

(** The buffer and the chunks emitted so far hold trimmed texts only. *)
Definition tidy (st : state) : Prop :=
  Forall trimmed (current_chunk st)
  /\ Forall (fun c => trimmed (content c)) (chunks st).

End ChunkerInv.

(* ================================================================== *)
(** ** Invariants of [src/document_processor/chunker.py] *)
(* ================================================================== *)

Module DocChunkerInv.

Import DocChunker Shape.

(** [f"{doc_id}_{section or 'main'}_{chunk_idx}"] *)
Definition id_of (doc_id : text) (section : option text) (k : nat) : text :=
  doc_id ++ T "_" ++ section_label section ++ T "_" ++ str_nat k.

(** The chunks emitted so far are trimmed and carry the ids of the ordinals
    [0..chunk_idx-1]. *)
Definition labelled (doc_id : text) (section : option text) (st : state)
  : Prop :=
  Forall (fun c => trimmed (content c)) (chunks st)
  /\ map chunk_id (chunks st) = map (id_of doc_id section) (seq 0 (chunk_idx st)).

(** Neither the buffer nor an emitted chunk is longer than [bound]. *)
Definition sized (bound : Z) (st : state) : Prop :=
  Forall (fun c => (len (content c) <= bound)%Z) (chunks st)
  /\ (current_chunk st = [] \/ (len (current_chunk st) <= bound)%Z).

(** The label under which the chunks of a section are filed. *)
Definition label_of (s : Section) : text := section_label (Some (title s)).

End DocChunkerInv.

(** Inputs for the segmenter of [src/document_processor]. *)
Module DocSamples.

Definition chunker : DocChunker.LegalChunker :=
  {| DocChunker.chunk_size := 10;
     DocChunker.chunk_overlap := 5;
     DocChunker.respect_sections := true |}.

(** Two paragraphs of ten characters. *)
Definition two_paragraphs : text :=
  T "Aa. Bb. C." ++ NL ++ NL ++ T "Dd. Ee. F.".

Definition file : DocChunker.DocumentMetadata :=
  {| DocChunker.filename := T "f.txt";
     DocChunker.file_type := T "txt";
     DocChunker.page_count := 1;
     DocChunker.case_name := None;
     DocChunker.court := None;
     DocChunker.date := None;
     DocChunker.citation := None;
     DocChunker.parties := [];
     DocChunker.judges := [] |}.

(** Two sections with different titles. *)
Definition two_sections : DocChunker.ProcessedDocument :=
  {| DocChunker.doc_content := T "First." ++ NL ++ T "Second.";
     DocChunker.doc_metadata := file;
     DocChunker.doc_sections :=
       [ {| DocChunker.title := T "FACTS";
            DocChunker.sec_content := T "First.";
            DocChunker.start_pos := 0 |};
         {| DocChunker.title := T "ORDER";
            DocChunker.sec_content := T "Second.";
            DocChunker.start_pos := 7 |} ] |}.

(** Two sections with the same title. *)
Definition same_title : DocChunker.ProcessedDocument :=
  {| DocChunker.doc_content := T "First." ++ NL ++ T "Second.";
     DocChunker.doc_metadata := file;
     DocChunker.doc_sections :=
       [ {| DocChunker.title := T "ORDER";
            DocChunker.sec_content := T "First.";
            DocChunker.start_pos := 0 |};
         {| DocChunker.title := T "ORDER";
            DocChunker.sec_content := T "Second.";
            DocChunker.start_pos := 7 |} ] |}.

End DocSamples.

(* ================================================================== *)
(** ** The placeholder map of [_protect_citations], on any input *)
(* ================================================================== *)

Module GuardInv.

Import CitationGuard.

(** The map holds one entry per issued key; the keys are distinct and were
    issued before pattern [i], match [j]; the values are matches. *)
Definition map_inv (i j : nat) (d : dict) : Prop :=
  exists es : list entry,
    d = map entry_pair es
    /\ Forall (key_before i j) (map fst es)
    /\ NoDup (map fst es)
    /\ Forall (fun e => citation_like (snd e)) es.

(** A key of the map: a placeholder of one of the patterns. *)
Definition issued_key (k : text) : Prop :=
  exists i j, i < length CITATION_PATTERNS /\ k = placeholder i j.

End GuardInv.

(** Runs of the compressor used by the examples. *)
Module LinguaRuns.
Import Lingua.

(** A model whose reply has no [compressed_prompt] entry. *)
Definition silent_model : PromptCompressor :=
  {| compress_prompt := fun _ => Ret [] |}.

(** A compressor object after its lazy start with model [pc]. *)
Definition started (pc : PromptCompressor) (ratio : Q) : cstate :=
  snd (_ensure_initialized (Samples.lingua_env pc) (Samples.fresh ratio)).

(** An environment without the [llmlingua] package. *)
Definition no_llmlingua : Env := {| llmlingua := None |}.

(** The result of a run that returned. *)
Definition result_of (r : res CompressionResult * cstate)
  : CompressionResult :=
  match fst r with
  | Ret cr => cr
  | Raise _ =>
      {| compressed_text := []; original_tokens := 0; compressed_tokens := 0;
         compression_ratio := 1; preserved_citations := [] |}
  end.

End LinguaRuns.

(* ================================================================== *)
(** ** [legal_rag/core/legal_rag.py]: the question templates *)
(* ================================================================== *)

Module EngineCases.

Import Engine.

Definition analyze_question (case_name : text) : text :=
  T "Provide a comprehensive analysis of " ++ case_name ++ T " including:"
  ++ NL ++ T "1. Key facts of the case"
  ++ NL ++ T "2. Legal issues presented"
  ++ NL ++ T "3. Court's holding and reasoning"
  ++ NL ++ T "4. Significance and precedential value"
  ++ NL ++ T "5. Any notable dissents or concurrences".

(** [{"case_name": case_name} if case_name else None] *)
Definition case_filter (case_name : text) : option dict :=
  match case_name with
  | [] => None
  | _ :: _ => Some [(T "case_name", case_name)]
  end.

Definition analyze_case (env : Env) (case_name : text)
  : M LegalRAGEngine RAGResponse :=
  query env (analyze_question case_name) (case_filter case_name) true.

Definition compare_question (case1 case2 : text) : text :=
  T "Compare and contrast " ++ case1 ++ T " and " ++ case2 ++ T ":"
  ++ NL ++ T "1. How do the facts differ?"
  ++ NL ++ T "2. What legal principles does each case establish?"
  ++ NL ++ T "3. How do the holdings relate to each other?"
  ++ NL ++ T "4. Are there any conflicts or tensions between the cases?"
  ++ NL ++ T "5. Which case would be more applicable in different scenarios?".

Definition compare_cases (env : Env) (case1 case2 : text)
  : M LegalRAGEngine RAGResponse :=
  query env (compare_question case1 case2) None true.

Definition precedents_question (legal_issue : text) : text :=
  T "Find and analyze relevant case law precedents for the following legal issue:"
  ++ NL ++ NL ++ legal_issue ++ NL ++ NL
  ++ T "For each relevant precedent:"
  ++ NL ++ T "1. Cite the case name and citation"
  ++ NL ++ T "2. Explain how it relates to this issue"
  ++ NL ++ T "3. Note the holding and key reasoning"
  ++ NL ++ T "4. Assess its current validity and strength as precedent".

Definition find_precedents (env : Env) (legal_issue : text)
  : M LegalRAGEngine RAGResponse :=
  query env (precedents_question legal_issue) None true.

End EngineCases.

(** Environments and engines used by the examples. *)
Module EngineRuns.
Import Engine.

(** No [llmlingua] package. *)
Definition no_llmlingua : Env :=
  {| lingua_env := LinguaRuns.no_llmlingua;
     openai := Some (fun _ => Samples.client);
     OPENAI_API_KEY := Some (T "sk-test") |}.

(** No [OPENAI_API_KEY] in the environment. *)
Definition no_key : Env :=
  {| lingua_env := Samples.lingua_env Samples.echo_model;
     openai := Some (fun _ => Samples.client);
     OPENAI_API_KEY := None |}.

(** No [openai] package. *)
Definition no_openai : Env :=
  {| lingua_env := Samples.lingua_env Samples.echo_model;
     openai := None;
     OPENAI_API_KEY := Some (T "sk-test") |}.

(** An engine without a compressor. *)
Definition uncompressed : LegalRAGEngine := Samples.engine Runs.chunks None.

(** A store that knows one case only. *)
Definition brown_only : VectorStore :=
  {| search := fun _ _ filter_metadata =>
       match filter_metadata with
       | Some [(k, v)] =>
           if (text_eqb k (T "case_name") && text_eqb v (T "Brown v. Board"))%bool
           then Ret Runs.chunks else Ret []
       | _ => Ret Runs.chunks
       end |}.

Definition brown_engine : LegalRAGEngine :=
  {| vector_store := Some brown_only;
     compressor := None;
     openai_model := T "gpt-4-turbo-preview";
     top_k := 10;
     compression_enabled := true;
     max_context_tokens := 8000;
     _openai_client := None |}.

End EngineRuns.

(* ================================================================== *)
(** ** Measures used for [SimpleFallbackCompressor] *)
(* ================================================================== *)

Module FallbackInv.

(** Total length of the pieces, with one separator character counted after
    each piece. *)
Fixpoint spaced_len (l : list text) : Z :=
  match l with
  | [] => 0%Z
  | x :: l' => (len x + 1 + spaced_len l')%Z
  end.

(** [query.lower().split()] when [query] is truthy, no term otherwise. *)
Definition query_terms (query : option text) : list text :=
  match query with
  | Some (a :: q) => split_ws (lower (a :: q))
  | _ => []
  end.

End FallbackInv.

(* ================================================================== *)
(** ** Where the rational product is the float product *)
(* ================================================================== *)

Module Doubles.



End Doubles.

(* ================================================================== *)
(** ** [src/document_processor/legal_document_processor.py]:
       [_extract_sections] *)
(* ================================================================== *)

Module Processor.

Import DocChunker.

(** [LegalDocumentProcessor.SECTION_HEADERS] *)
Definition SECTION_HEADERS : list text :=
  map T [ "OPINION"; "BACKGROUND"; "FACTS"; "ANALYSIS"; "DISCUSSION";
          "CONCLUSION"; "HOLDING"; "JUDGMENT"; "ORDER"; "DISSENT";
          "CONCURRENCE"; "PROCEDURAL HISTORY"; "STANDARD OF REVIEW";
          "LEGAL STANDARD"; "INTRODUCTION"; "SUMMARY" ]%string.

(** [str.upper] on one Latin-1 character, as code points: the result can
    leave the Latin-1 range (y with diaeresis, the micro sign) or have two
    characters (sharp s). *)
Definition upper_char (a : ascii) : list nat :=
  let n := nat_of_ascii a in
  if (97 <=? n) && (n <=? 122) then [n - 32]
  else if n =? 181 then [924]
  else if n =? 223 then [83; 83]
  else if (224 <=? n) && (n <=? 254) && negb (n =? 247) then [n - 32]
  else if n =? 255 then [376]
  else [n].

Definition upper (s : text) : list nat := flat_map upper_char s.

Definition code_points (s : text) : list nat := map nat_of_ascii s.

(** [startswith] on code points. *)
Fixpoint starts_with (p s : list nat) : bool :=
  match p, s with
  | [], _ => true
  | a :: p', b :: s' => (a =? b) && starts_with p' s'
  | _ :: _, [] => false
  end.

(** [line_upper.startswith(header) and len(line_upper) < len(header) + 20] *)
Definition is_header (line_upper : list nat) (header : text) : bool :=
  starts_with (code_points header) line_upper
  && (Z.of_nat (length line_upper) <? len header + 20)%Z.

(** The loop over [SECTION_HEADERS], with its [break]. *)
Definition found_header (line : text) : option text :=
  find (is_header (upper (strip line))) SECTION_HEADERS.

(** The local variables of [_extract_sections]. *)
Record state := {
  sections : list Section;
  current_section : Section;
  current_pos : Z
}.

(** [if current_section["content"].strip(): sections.append(...)] *)
Definition save (st : state) : list Section :=
  if truthy (strip (sec_content (current_section st)))
  then sections st ++ [current_section st]
  else sections st.

(** Body of [for line in lines]. *)
Definition add_line (st : state) (line : text) : state :=
  match found_header line with
  | Some (a :: h) =>            (* [if found_header:] *)
      {| sections := save st;
         current_section :=
           {| title := a :: h; sec_content := [];
              start_pos := current_pos st |};
         current_pos := (current_pos st + (len line + 1))%Z |}
  | _ =>
      {| sections := sections st;
         current_section :=
           {| title := title (current_section st);
              sec_content := sec_content (current_section st) ++ line ++ NL;
              start_pos := start_pos (current_section st) |};
         current_pos := (current_pos st + (len line + 1))%Z |}
  end.

Definition initial : state :=
  {| sections := [];
     current_section :=
       {| title := T "PREAMBLE"; sec_content := []; start_pos := 0 |};
     current_pos := 0 |}.

Definition _extract_sections (t : text) : list Section :=
  save (fold_left add_line (Py.split NL t) initial).

(** A section as the loop can hold it: the preamble at offset 0, or a
    section opened by a header line [line] that starts at [start_pos] in
    the text. *)
Definition opened_in (t : text) (s : Section) : Prop :=
  (title s = T "PREAMBLE" /\ start_pos s = 0%Z)
  \/ exists pre line post,
       t = pre ++ line ++ post
       /\ start_pos s = len pre
       /\ In line (Py.split NL t)
       /\ found_header line = Some (title s)
       /\ In (title s) SECTION_HEADERS.

(** The lines read so far are [done]; [current_pos] is their total length,
    newlines included. *)
Definition reading (t : text) (done : list text) (st : state) : Prop :=
  current_pos st = len (flat_map (fun l => l ++ NL) done)
  /\ Forall (fun s => opened_in t s /\ truthy (strip (sec_content s)) = true)
            (sections st)
  /\ opened_in t (current_section st).

End Processor.

(** Texts for [_extract_sections]. *)
Module ProcessorSamples.

Definition opinion : text :=
  T "Smith v. Jones" ++ NL ++ T "FACTS" ++ NL ++ T "The parties agree."
  ++ NL ++ T "Order of the court" ++ NL ++ T "The motion is denied.".

Definition letter : text := T "Dear counsel," ++ NL ++ T "please find enclosed.".

End ProcessorSamples.

Module ProcessorInv.

Import DocChunker Processor.

(** The sections saved so far start at increasing offsets, all before the
    section being filled, which starts before the reading position as soon
    as it has content. *)
Definition ordered (st : state) : Prop :=
  StronglySorted Z.lt (map start_pos (sections st))
  /\ Forall (fun s => (start_pos s < start_pos (current_section st))%Z)
            (sections st)
  /\ (start_pos (current_section st) <= current_pos st)%Z
  /\ (sec_content (current_section st) <> [] ->
      (start_pos (current_section st) < current_pos st)%Z).

(** No header line so far: the preamble holds every line read. *)
Definition plain_so_far (done : list text) (st : state) : Prop :=
  sections st = []
  /\ current_section st
     = {| title := T "PREAMBLE";
          sec_content := flat_map (fun l => l ++ NL) done;
          start_pos := 0 |}.

End ProcessorInv.

(* ================================================================== *)
(** ** Where the text of a document ends up *)
(* ================================================================== *)

Module Cover.

(** [u] occurs in [s]. *)
Definition sub (u s : text) : Prop := exists pre post, s = pre ++ u ++ post.

(** The units that the paragraph loop of [legal_rag/core/chunker.py] adds
    for one raw paragraph: nothing for a blank one, its sentences when it
    is longer than [chunk_size], the stripped paragraph otherwise. *)
Definition units_of (self : Chunker.LegalChunker) (raw : text) : list text :=
  let paragraph := strip raw in
  if negb (truthy paragraph) then []
  else if (len paragraph >? Chunker.chunk_size self)%Z
  then Chunker._split_sentences paragraph
  else [paragraph].

(** [u] is in the buffer, or inside a chunk already emitted for the section
    [name]. *)
Definition held (name u : text) (st : Chunker.state) : Prop :=
  In u (Chunker.current_chunk st)
  \/ exists c, In c (Chunker.chunks st)
               /\ Chunker.section c = name
               /\ contains u (Chunker.content c) = true.

(** The same for [_chunk_text] of [src/document_processor], whose buffer is
    one string. *)
Definition kept (u : text) (st : DocChunker.state) : Prop :=
  sub u (DocChunker.current_chunk st)
  \/ exists c, In c (DocChunker.chunks st)
               /\ contains u (DocChunker.content c) = true.

End Cover.

(* ================================================================== *)
(** ** The buffers that [chunk_document] joins *)
(* ================================================================== *)

Module Flushes.

Import Chunker.

(** One [chunks.append(self._create_chunk(sep.join(current_chunk), ...))]
    of [chunk_document]: the separator and the buffer [current_chunk] at
    that line. *)
Definition flush : Type := (text * list text)%type.

Definition joined (b : flush) : text := join (fst b) (snd b).

(** The flushes of a loop, in order: [out s x] is what the body flushes on
    the item [x] in the state [s], [step s x] the state it leaves. *)
Fixpoint along {S A} (step : S -> A -> S) (out : S -> A -> list flush)
  (l : list A) (s : S) : list flush :=
  match l with
  | [] => []
  | x :: l' => out s x ++ along step out l' (step s x)
  end.

(** Body of [for sentence in sentences]: the buffer is joined by one space
    when the sentence does not fit and the buffer is not empty. *)
Definition of_sentence (self : LegalChunker) (st : state) (sentence : text)
  : list flush :=
  if ((current_size st + len sentence >? chunk_size self)%Z
      && nonempty (current_chunk st))%bool
  then [(T " ", current_chunk st)]
  else [].

(** Body of [for paragraph in paragraphs]: the flushes of the sentence loop
    for a paragraph longer than [chunk_size]; otherwise the buffer is
    joined by a blank line when the paragraph does not fit. *)
Definition of_paragraph (self : LegalChunker) (document : Document)
  (section_name : text) (st : state) (raw : text) : list flush :=
  let paragraph := strip raw in
  if negb (truthy paragraph) then []
  else if (len paragraph >? chunk_size self)%Z
  then along (add_sentence self document section_name) (of_sentence self)
             (_split_sentences paragraph) st
  else if ((current_size st + len paragraph >? chunk_size self)%Z
           && nonempty (current_chunk st))%bool
  then [(NL ++ NL, current_chunk st)]
  else [].

(** Body of [for section in sections]: the flushes of the paragraph loop,
    then what is left in the buffer, joined by a blank line. *)
Definition of_section (self : LegalChunker) (document : Document)
  (acc : list DocumentChunk * nat) (sec : Section) : list flush :=
  let section_name := name_of sec in
  let t := match sec_text sec with Some t => t | None => [] end in
  if negb (truthy (strip t)) then []
  else
    let paragraphs := Py.split (NL ++ NL) t in
    let st0 := {| chunks := fst acc; chunk_index := snd acc;
                  current_chunk := []; current_size := 0 |} in
    let st := fold_left (add_paragraph self document section_name)
                        paragraphs st0 in
    along (add_paragraph self document section_name)
          (of_paragraph self document section_name) paragraphs st0
    ++ (if nonempty (current_chunk st)
        then [(NL ++ NL, current_chunk st)]
        else []).

(** All the buffers that [chunk_document] joins, in the order of the
    chunks. *)
Definition flushed (self : LegalChunker) (document : Document)
  : list flush :=
  along (add_section self document) (of_section self document)
        (sections_of document) ([], 0).

(** Where a unit of a buffer comes from: it is a non-empty overlap text
    returned by [_get_overlap], or one of the units that the paragraph loop
    adds for a paragraph of a section of the document. *)
Definition unit_of (self : LegalChunker) (document : Document) (u : text)
  : Prop :=
  (exists buffer, u = _get_overlap self buffer /\ truthy u = true)
  \/ (exists sec raw,
        In sec (sections_of document)
        /\ In raw (Py.split (NL ++ NL) (ChunkerInv.text_of sec))
        /\ In u (Cover.units_of self raw)).

(** A flushed buffer is not empty, is joined by a space or a blank line,
    holds units of the document and respects the budget. *)
Definition sound (self : LegalChunker) (document : Document) (b : flush)
  : Prop :=
  snd b <> []
  /\ (fst b = T " " \/ fst b = NL ++ NL)
  /\ Forall (unit_of self document) (snd b)
  /\ within self (snd b).

(** Invariant of the loops: the buffer holds units of the document. *)
Definition ready (self : LegalChunker) (document : Document) (st : state)
  : Prop :=
  state_ok self st /\ Forall (unit_of self document) (current_chunk st).

End Flushes.

(* ================================================================== *)
(** ** [legal_rag/core/chroma_store.py] *)
(* ================================================================== *)

Module Store.

(** Exceptions of the store: those of [exn], and [IndexError] from list
    indexing. *)
Inductive failure :=
| Exn (e : exn)
| IndexError (msg : string).

Inductive outcome (A : Type) :=
| Done (a : A)
| Failed (f : failure).

Arguments Done {A} a.
Arguments Failed {A} f.

(** The external [OpenAIEmbeddingFunction] object. *)
Record EmbeddingFunction := {
  ef_api_key : text;
  ef_model_name : text
}.

(** The dict returned by [collection.query]: one row per query text;
    [None] is the value of an entry that was not asked for. *)
Record QueryResult := {
  qr_ids : option (list (list text));
  qr_documents : option (list (list text));
  qr_metadatas : option (list (list dict));
  qr_distances : option (list (list Q))
}.

(** The keyword arguments of one [collection.add] call. *)
Record AddCall := {
  add_ids : list text;
  add_documents : list text;
  add_metadatas : list dict
}.

(** The external collection: [add(ids, documents, metadatas)] and
    [query(query_texts=[q], n_results, where, include)], the last argument
    telling whether distances are included. *)
Record Collection := {
  coll_add : AddCall -> res unit;
  coll_query : text -> Z -> option dict -> bool -> res QueryResult
}.

Record Client := {
  get_or_create_collection : text -> EmbeddingFunction -> res Collection
}.

(** What the process can import, do and read: [chromadb.PersistentClient],
    [Path.mkdir], [OpenAIEmbeddingFunction], [os.getenv("OPENAI_API_KEY")],
    [hashlib.md5(..).hexdigest()]. *)
Record Env := {
  chromadb : option (text -> res Client);
  mkdir : text -> res unit;
  embedding_functions : option (text -> text -> res EmbeddingFunction);
  OPENAI_API_KEY : option text;
  md5_hexdigest : text -> text
}.

Record ChromaVectorStore := {
  persist_directory : text;
  collection_name : text;
  embedding_model : text;
  _client : option Client;
  _collection : option Collection;
  _embedding_function : option EmbeddingFunction
}.

(** The object together with the log of the [collection.add] calls made. *)
Record sstate := {
  self : ChromaVectorStore;
  calls : list AddCall
}.

(** [__init__] *)
Definition init (persist_directory collection_name embedding_model : text)
  : ChromaVectorStore :=
  {| persist_directory := persist_directory;
     collection_name := collection_name;
     embedding_model := embedding_model;
     _client := None;
     _collection := None;
     _embedding_function := None |}.

Definition set_client (c : Client) (st : sstate) : sstate :=
  {| self := {| persist_directory := persist_directory (self st);
                collection_name := collection_name (self st);
                embedding_model := embedding_model (self st);
                _client := Some c;
                _collection := _collection (self st);
                _embedding_function := _embedding_function (self st) |};
     calls := calls st |}.

Definition set_embedding_function (ef : EmbeddingFunction) (st : sstate)
  : sstate :=
  {| self := {| persist_directory := persist_directory (self st);
                collection_name := collection_name (self st);
                embedding_model := embedding_model (self st);
                _client := _client (self st);
                _collection := _collection (self st);
                _embedding_function := Some ef |};
     calls := calls st |}.

Definition set_collection (c : Collection) (st : sstate) : sstate :=
  {| self := {| persist_directory := persist_directory (self st);
                collection_name := collection_name (self st);
                embedding_model := embedding_model (self st);
                _client := _client (self st);
                _collection := Some c;
                _embedding_function := _embedding_function (self st) |};
     calls := calls st |}.

Definition _create_embedding_function (env : Env) (s : ChromaVectorStore)
  : res EmbeddingFunction :=
  match embedding_functions env with
  | None =>
      Raise (ImportError "OpenAI embedding function requires chromadb>=0.4.0")
  | Some OpenAIEmbeddingFunction =>
      match OPENAI_API_KEY env with
      | Some (a :: k) => OpenAIEmbeddingFunction (a :: k) (embedding_model s)
      | _ =>
          Raise (ValueError "OPENAI_API_KEY environment variable is required")
      end
  end.

(** The three fields are assigned one after the other: an exception leaves
    the assignments made before it. *)
Definition _ensure_initialized (env : Env) (st : sstate)
  : outcome unit * sstate :=
  match _client (self st) with
  | Some _ => (Done tt, st)
  | None =>
      match chromadb env with
      | None =>
          (Failed (Exn (ImportError
             "chromadb is required. Install with: pip install chromadb")),
           st)
      | Some PersistentClient =>
          match mkdir env (persist_directory (self st)) with
          | Raise e => (Failed (Exn e), st)
          | Ret _ =>
              match PersistentClient (persist_directory (self st)) with
              | Raise e => (Failed (Exn e), st)
              | Ret client =>
                  let st1 := set_client client st in
                  match _create_embedding_function env (self st1) with
                  | Raise e => (Failed (Exn e), st1)
                  | Ret ef =>
                      let st2 := set_embedding_function ef st1 in
                      match get_or_create_collection client
                              (collection_name (self st2)) ef with
                      | Raise e => (Failed (Exn e), st2)
                      | Ret coll => (Done tt, set_collection coll st2)
                      end
                  end
              end
          end
      end
  end.

(** [row[i]] *)
Definition item {A} (row : list A) (i : nat) : outcome A :=
  match nth_error row i with
  | Some v => Done v
  | None => Failed (IndexError "list index out of range")
  end.

(** The dict built for the [i]-th document. *)
Definition format_result (include_distances : bool) (results : QueryResult)
  (i : nat) (doc : text) : outcome RetrievedMatch :=
  match (match qr_metadatas results with
         | Some (row :: _) => item row i
         | _ => Done []
         end) with
  | Failed f => Failed f
  | Done md =>
      match (match qr_ids results with
             | Some (row :: _) =>
                 match item row i with
                 | Done v => Done (Some v)
                 | Failed f => Failed f
                 end
             | _ => Done None
             end) with
      | Failed f => Failed f
      | Done id =>
          match (if include_distances
                 then match qr_distances results with
                      | Some (row :: _) =>
                          match item row i with
                          | Done d => Done (Some (1 - d)%Q)
                          | Failed f => Failed f
                          end
                      | _ => Done None
                      end
                 else Done None) with
          | Failed f => Failed f
          | Done sim =>
              Done {| rm_content := doc;
                      rm_metadata := Some md;
                      rm_id := id;
                      rm_similarity := sim |}
          end
      end
  end.

(** The loop over [enumerate(results["documents"][0])]. *)
Fixpoint format_loop (include_distances : bool) (results : QueryResult)
  (docs : list (nat * text)) (formatted : list RetrievedMatch)
  : outcome (list RetrievedMatch) :=
  match docs with
  | [] => Done formatted
  | (i, doc) :: rest =>
      match format_result include_distances results i doc with
      | Failed f => Failed f
      | Done r => format_loop include_distances results rest (formatted ++ [r])
      end
  end.

Definition format_results (include_distances : bool) (results : QueryResult)
  : outcome (list RetrievedMatch) :=
  match qr_documents results with
  | Some ((d :: ds) :: _) =>
      format_loop include_distances results (enumerate (d :: ds)) []
  | _ => Done []
  end.

Definition search (env : Env) (query : text) (top_k : Z)
  (filter_metadata : option dict) (include_distances : bool) (st : sstate)
  : outcome (list RetrievedMatch) * sstate :=
  match _ensure_initialized env st with
  | (Failed f, st1) => (Failed f, st1)
  | (Done _, st1) =>
      let where_filter :=
        match filter_metadata with
        | Some (kv :: d) => Some (kv :: d)     (* [if filter_metadata:] *)
        | _ => None
        end in
      match _collection (self st1) with
      | None =>
          (Failed (Exn (AttributeError
             "'NoneType' object has no attribute 'query'")), st1)
      | Some coll =>
          match coll_query coll query top_k where_filter include_distances
          with
          | Raise e => (Failed (Exn e), st1)
          | Ret results => (format_results include_distances results, st1)
          end
      end
  end.

Definition search_by_section (env : Env) (query section : text) (top_k : Z)
  (st : sstate) : outcome (list RetrievedMatch) * sstate :=
  search env query top_k (Some [(T "section", section)]) true st.

Definition search_by_case (env : Env) (query case_name : text) (top_k : Z)
  (st : sstate) : outcome (list RetrievedMatch) * sstate :=
  search env query top_k (Some [(T "case_name", case_name)]) true st.

(** [range(0, n, step)] *)
Definition range0 (n : nat) (step : Z) : res (list nat) :=
  if (step =? 0)%Z then Raise (ValueError "range() arg 3 must not be zero")
  else if (step <? 0)%Z then Ret []
  else let k := Z.to_nat step in
       Ret (map (fun j => j * k) (seq 0 ((n + k - 1) / k))).

(** [chunks[i:i + batch_size]] for a positive [batch_size]. *)
Definition slice {A} (l : list A) (i : nat) (batch_size : Z) : list A :=
  firstn (Z.to_nat batch_size) (skipn i l).

(** The id, document and metadata prepared for one chunk. *)
Definition entry_id (env : Env) (chunk : DocChunker.DocumentChunk) : text :=
  DocChunker.chunk_id chunk ++ T "_"
  ++ firstn 12 (md5_hexdigest env (DocChunker.content chunk)).

Definition entry_metadata (chunk : DocChunker.DocumentChunk) : dict :=
  fold_left
    (fun metadata kv =>
       match snd kv with
       | Some value => dict_set (fst kv) value metadata
       | None => metadata
       end)
    (DocChunker.metadata chunk)
    [ (T "document_id", DocChunker.document_id chunk);
      (T "section", match DocChunker.section chunk with
                    | Some (a :: s) => a :: s
                    | _ => []
                    end);
      (T "chunk_id", DocChunker.chunk_id chunk) ].

Definition call_of (env : Env) (batch : list DocChunker.DocumentChunk)
  : AddCall :=
  {| add_ids := map (entry_id env) batch;
     add_documents := map DocChunker.content batch;
     add_metadatas := map entry_metadata batch |}.

(** Body of the loop over the batches: [try: collection.add(...);
    added_count += len(batch)  except Exception: ...]. *)
Definition add_batch (env : Env) (acc : Z * sstate)
  (batch : list DocChunker.DocumentChunk) : Z * sstate :=
  let '(added_count, st) := acc in
  match _collection (self st) with
  | None => (added_count, st)        (* AttributeError, caught *)
  | Some coll =>
      let st' := {| self := self st;
                    calls := calls st ++ [call_of env batch] |} in
      match coll_add coll (call_of env batch) with
      | Ret _ => ((added_count + Z.of_nat (length batch))%Z, st')
      | Raise _ => (added_count, st')
      end
  end.

Definition add_chunks (env : Env) (chunks : list DocChunker.DocumentChunk)
  (batch_size : Z) (st : sstate) : outcome Z * sstate :=
  match _ensure_initialized env st with
  | (Failed f, st1) => (Failed f, st1)
  | (Done _, st1) =>
      match range0 (length chunks) batch_size with
      | Raise e => (Failed (Exn e), st1)
      | Ret starts =>
          let '(added_count, st2) :=
            fold_left (add_batch env)
                      (map (fun i => slice chunks i batch_size) starts)
                      (0%Z, st1) in
          (Done added_count, st2)
      end
  end.

(** Number of documents in the calls that the collection accepts. *)
Fixpoint accepted (coll : Collection) (l : list AddCall) : Z :=
  match l with
  | [] => 0%Z
  | c :: l' =>
      match coll_add coll c with
      | Ret _ => (Z.of_nat (length (add_documents c)) + accepted coll l')%Z
      | Raise _ => accepted coll l'
      end
  end.

End Store.

(** Stores and environments used by the examples. *)
Module StoreRuns.
Import Store.

(** A collection that takes everything and finds nothing. *)
Definition collection : Collection :=
  {| coll_add := fun _ => Ret tt;
     coll_query := fun _ _ _ _ =>
       Ret {| qr_ids := Some [[]]; qr_documents := Some [[]];
              qr_metadatas := Some [[]]; qr_distances := Some [[]] |} |}.

Definition client : Client :=
  {| get_or_create_collection := fun _ _ => Ret collection |}.

(** An environment with the variable [OPENAI_API_KEY] set to [key]. *)
Definition env (key : option text) : Env :=
  {| chromadb := Some (fun _ => Ret client);
     mkdir := fun _ => Ret tt;
     embedding_functions :=
       Some (fun k m => Ret {| ef_api_key := k; ef_model_name := m |});
     OPENAI_API_KEY := key;
     md5_hexdigest := fun _ => T "d41d8cd98f00b204e9800998ecf8427e" |}.

Definition fresh : sstate :=
  {| self := init (T "./data/chromadb") (T "legal_documents")
                  (T "text-embedding-3-small");
     calls := [] |}.

(** The store after its lazy start. *)
Definition started : sstate :=
  snd (_ensure_initialized (env (Some (T "sk-test"))) fresh).

Definition chunk (n : nat) : DocChunker.DocumentChunk :=
  DocChunker.make_chunk (T "text " ++ str_nat n) (T "f.txt") None n.

(** Five chunks. *)
Definition five : list DocChunker.DocumentChunk := map chunk (seq 0 5).

End StoreRuns.

(* ================================================================== *)
(** * Properties *)
(* ================================================================== *)

(** ** The query engine *)

Section EngineFacts.

Import Engine.

Variable env : Env.

(** C7.  Empty retrieval: when the store's search returns no match, [query]
    returns, without raising and without touching the engine, the canned
    response: its answer contains "No relevant documents found", its sources
    are empty and every entry of its token statistics is zero. *)
Theorem query_empty_retrieval :
  forall (self : LegalRAGEngine) (store : VectorStore) (question : text)
         (filter_metadata : option dict) (include_sources : bool),
    vector_store self = Some store ->
    search store question (top_k self) filter_metadata = Ret [] ->
    exists resp : RAGResponse,
      query env question filter_metadata include_sources self
        = (Ret resp, self)
      /\ contains (T "No relevant documents found") (answer resp) = true
      /\ sources resp = []
      /\ stat "original" (token_stats resp) = Some (Int 0)
      /\ Forall (fun kv => snd kv = Int 0) (token_stats resp).
Proof.
  intros self store question fm inc Hstore Hsearch.
  eexists. split.
  - unfold query, bind, get_state, lift. rewrite Hstore. cbn. rewrite Hsearch.
    reflexivity.
  - cbn. repeat split; repeat constructor.
Qed.

Lemma lingua_compress_tokens :
  forall lenv t q p st cr st',
    Lingua.compress lenv t q p st = (Ret cr, st') ->
    compressed_tokens cr = (len (compressed_text cr) / 4)%Z.
Proof.
  intros lenv t q p st cr st'. unfold Lingua.compress, bind, get_state, ret.
  destruct (Lingua._ensure_initialized lenv st) as [[[]|e] st1]; [|discriminate].
  destruct (CitationGuard._protect_citations t) as [pt cm].
  unfold get_state.
  match goal with
  | |- context [Lingua.call_compress_prompt ?r ?s] =>
      destruct (Lingua.call_compress_prompt r s) as [[d|e] st2]; [|discriminate]
  end.
  intros H. inversion H; subst. reflexivity.
Qed.

Lemma call_compress_lingua :
  forall st t q p,
    call_compress env (LLMLingua st) t q p =
    match Lingua.compress (lingua_env env) t q p st with
    | (r, st') => set_compressor (LLMLingua st') ;;; lift r
    end.
Proof. reflexivity. Qed.

Lemma call_compress_fallback :
  forall fc t q p,
    call_compress env (SimpleFallback fc) t q p =
    raise (TypeError
             "compress() got an unexpected keyword argument 'preserve_citations'").
Proof. reflexivity. Qed.

Ltac case_generate :=
  match goal with
  | |- context [_generate_response ?e ?q ?c ?s] =>
      destruct (_generate_response e q c s) as [[ans|ex] e2];
      [|discriminate]
  end.

(** C8.  Token statistics: whenever [query] returns a response for a
    non-empty retrieval, [original] is the length of the assembled context
    divided by 4, [compressed] is the length of the context handed to the
    generator divided by 4, [savings] is their difference and
    [savings_percent] is [savings / original * 100], or 0 when
    [original] is 0. *)
Theorem query_token_stats :
  forall (self self' : LegalRAGEngine) (store : VectorStore) (question : text)
         (filter_metadata : option dict) (include_sources : bool)
         (chunks : list RetrievedMatch) (resp : RAGResponse),
    vector_store self = Some store ->
    search store question (top_k self) filter_metadata = Ret chunks ->
    chunks <> [] ->
    query env question filter_metadata include_sources self
      = (Ret resp, self') ->
    let original := (len (_format_context chunks) / 4)%Z in
    let compressed := (len (compressed_context resp) / 4)%Z in
    token_stats resp =
      [ ("original", Int original);
        ("compressed", Int compressed);
        ("savings", Int (original - compressed));
        ("savings_percent",
         if (original >? 0)%Z
         then Float (inject_Z (original - compressed) / inject_Z original
                     * 100)%Q
         else Int 0) ]%string.
Proof.
  intros self self' store question fm inc chunks resp Hstore Hsearch Hne.
  unfold query. unfold bind at 1. unfold get_state at 1. rewrite Hstore.
  unfold bind at 1, lift at 1. rewrite Hsearch.
  destruct chunks as [|c chunks]; [congruence|].
  set (ctx := _format_context (c :: chunks)).
  unfold bind at 1.
  destruct (compression_enabled self) eqn:Hen;
    [destruct (compressor self) as [[st|fc]|] eqn:Hc|].
  - (* model-delegating compressor *)
    unfold bind at 1. rewrite call_compress_lingua.
    destruct (Lingua.compress (lingua_env env) ctx (Some question) true st)
      as [[cr|e] st'] eqn:Hcomp.
    + pose proof (lingua_compress_tokens _ _ _ _ _ _ _ Hcomp) as Htok.
      unfold bind at 1, set_compressor, lift, ret.
      unfold bind at 1.
      cbn beta iota. case_generate.
      intros H. inversion H; subst resp self'; clear H. cbn.
      rewrite Htok. reflexivity.
    + unfold bind at 1, set_compressor, lift. discriminate.
  - unfold bind at 1. rewrite call_compress_fallback. discriminate.
  - unfold ret at 1. unfold bind at 1.
    cbn beta iota. case_generate.
    intros H. inversion H; subst resp self'; clear H. cbn. reflexivity.
  - unfold ret at 1. unfold bind at 1.
    cbn beta iota. case_generate.
    intros H. inversion H; subst resp self'; clear H. cbn. reflexivity.
Qed.

(** C5.  The two strategies do not meet one contract: the orchestrator
    calls [compress] with the keyword [preserve_citations], which the
    extractive-fallback [compress(self, text, query=None)] does not accept.
    With that compressor configured and enabled, every query with a
    non-empty retrieval raises [TypeError] at the COMPRESS step. *)
Theorem query_fallback_raises :
  forall (self : LegalRAGEngine) (store : VectorStore) (question : text)
         (filter_metadata : option dict) (include_sources : bool)
         (chunks : list RetrievedMatch)
         (fc : Fallback.SimpleFallbackCompressor),
    vector_store self = Some store ->
    search store question (top_k self) filter_metadata = Ret chunks ->
    chunks <> [] ->
    compression_enabled self = true ->
    compressor self = Some (SimpleFallback fc) ->
    query env question filter_metadata include_sources self
      = (Raise (TypeError
                  "compress() got an unexpected keyword argument 'preserve_citations'"),
         self).
Proof.
  intros self store question fm inc chunks fc Hstore Hsearch Hne Hen Hc.
  unfold query. unfold bind at 1. unfold get_state at 1. rewrite Hstore.
  unfold bind at 1, lift at 1. rewrite Hsearch.
  destruct chunks as [|c chunks]; [congruence|].
  unfold bind at 1. rewrite Hen, Hc.
  unfold bind at 1. rewrite call_compress_fallback. reflexivity.
Qed.

End EngineFacts.


(** The scenario of the specification: a context of 400 characters
    compressed to 120 characters. *)
Lemma query_token_stats_witness :
  len (Engine._format_context Runs.chunks) = 400%Z
  /\ len (Engine.compressed_context
            (Runs.response_of
               (Engine.query Runs.env Runs.question None true Runs.with_model)))
     = 120%Z
  /\ Engine.token_stats
       (Runs.response_of
          (Engine.query Runs.env Runs.question None true Runs.with_model))
     = [ ("original", Engine.Int 100); ("compressed", Engine.Int 30);
         ("savings", Engine.Int 70);
         ("savings_percent",
          Engine.Float (inject_Z 70 / inject_Z 100 * 100)%Q) ]%string
  /\ (inject_Z 70 / inject_Z 100 * 100 == 70)%Q.
Proof.
  split; [vm_compute; reflexivity|].
  split; [vm_compute; reflexivity|].
  split; [|reflexivity].
  pose proof
    (query_token_stats Runs.env Runs.with_model
       (snd (Engine.query Runs.env Runs.question None true Runs.with_model))
       (Samples.store Runs.chunks) Runs.question None true Runs.chunks
       (Runs.response_of
          (Engine.query Runs.env Runs.question None true Runs.with_model)))
    as H.
  assert (H1 : Engine.vector_store Runs.with_model
               = Some (Samples.store Runs.chunks)) by reflexivity.
  assert (H2 : Engine.search (Samples.store Runs.chunks) Runs.question
                 (Engine.top_k Runs.with_model) None = Ret Runs.chunks)
    by reflexivity.
  assert (H3 : Runs.chunks <> []) by discriminate.
  assert (H4 : Engine.query Runs.env Runs.question None true Runs.with_model
               = (Ret (Runs.response_of
                         (Engine.query Runs.env Runs.question None true
                                       Runs.with_model)),
                  snd (Engine.query Runs.env Runs.question None true
                                    Runs.with_model)))
    by (vm_compute; reflexivity).
  specialize (H H1 H2 H3 H4).
  vm_compute in H. vm_compute. exact H.
Defined.

(** The failing run: one retrieved chunk, the fallback compressor. *)
Lemma query_fallback_raises_witness :
  Engine.query Runs.env Runs.question None true Runs.with_fallback
  = (Raise (TypeError
              "compress() got an unexpected keyword argument 'preserve_citations'"),
     Runs.with_fallback).
Proof.
  apply (query_fallback_raises Runs.env Runs.with_fallback
           (Samples.store Runs.chunks) Runs.question None true Runs.chunks
           {| Fallback.target_ratio := 1 # 2 |});
    try reflexivity.
  discriminate.
Defined.

(** The scenario of the specification: the store finds nothing for the
    question "irrelevant". *)
Lemma query_empty_retrieval_witness :
  exists resp : Engine.RAGResponse,
    Engine.query Runs.env (T "irrelevant") None true Runs.empty_store
      = (Ret resp, Runs.empty_store)
    /\ contains (T "No relevant documents found") (Engine.answer resp) = true
    /\ Engine.sources resp = []
    /\ Engine.stat "original" (Engine.token_stats resp) = Some (Engine.Int 0)
    /\ Forall (fun kv => snd kv = Engine.Int 0) (Engine.token_stats resp).
Proof.
  apply (query_empty_retrieval Runs.env Runs.empty_store (Samples.store [])
           (T "irrelevant") None true);
    reflexivity.
Defined.

Section EngineTotal.
Import Engine.
Variable env : Env.

(** With a client at hand that answers, and no compression step, a query
    over a non-empty retrieval returns. *)
Lemma query_returns_uncompressed :
  forall (self : LegalRAGEngine) (store : VectorStore) (client : OpenAIClient)
         (question : text) (filter_metadata : option dict)
         (include_sources : bool) (chunks : list RetrievedMatch),
    vector_store self = Some store ->
    search store question (top_k self) filter_metadata = Ret chunks ->
    chunks <> [] ->
    compression_enabled self = false \/ compressor self = None ->
    _openai_client self = Some client ->
    (forall req, exists a, chat_create client req = Ret a) ->
    exists resp,
      query env question filter_metadata include_sources self
      = (Ret resp, self)
      /\ compressed_context resp = _format_context chunks.
Proof.
  intros self store client question fm inc chunks Hstore Hsearch Hne Hoff
         Hclient Hanswers.
  unfold query. unfold bind at 1. unfold get_state at 1. rewrite Hstore.
  unfold bind at 1. unfold lift at 1. rewrite Hsearch.
  destruct chunks as [|c chunks]; [congruence|].
  set (ctx := _format_context (c :: chunks)).
  assert (Hcc : (match compression_enabled self, compressor self with
                 | true, Some c0 =>
                     r <- call_compress env c0 ctx (Some question) true ;;
                     ret (compressed_text r, compressed_tokens r)
                 | _, _ => ret (ctx, (len ctx / 4)%Z)
                 end) self = (Ret (ctx, (len ctx / 4)%Z), self)).
  { destruct Hoff as [-> | ->]; [reflexivity|].
    destruct (compression_enabled self); reflexivity. }
  unfold bind at 1. rewrite Hcc. cbn beta iota.
  unfold bind at 1. unfold _generate_response.
  unfold bind at 1. unfold _get_openai_client.
  unfold bind at 1. unfold get_state at 1. rewrite Hclient.
  unfold ret at 1. unfold bind at 1. unfold get_state at 1.
  match goal with
  | |- context [chat_create client ?r] =>
      destruct (Hanswers r) as [a Ha]; unfold lift; rewrite Ha
  end.
  eexists. split; reflexivity.
Qed.

End EngineTotal.

(** ** Adaptive budget fitting *)

Section BudgetFacts.

Import Lingua.

Variable env : Env.

Lemma ensure_initialized_again :
  forall st, _initialized (self st) = true ->
             _ensure_initialized env st = (Ret tt, st).
Proof. intros st H. unfold _ensure_initialized. rewrite H. reflexivity. Qed.

Lemma ensure_initialized_ok :
  forall st st1,
    _ensure_initialized env st = (Ret tt, st1) ->
    _initialized (self st1) = true
    /\ target_ratio (self st1) = target_ratio (self st)
    /\ sent st1 = sent st.
Proof.
  intros st st1. unfold _ensure_initialized.
  destruct (_initialized (self st)) eqn:Hi.
  - intros H. inversion H; subst. auto.
  - destruct (llmlingua env) as [ctor|]; [|discriminate].
    destruct (ctor _ _) as [pc|e]; [|discriminate].
    intros H. inversion H; subst. cbn. auto.
Qed.

Lemma compress_returns :
  forall st t query p pc d,
    _initialized (self st) = true ->
    _compressor (self st) = Some pc ->
    compress_prompt pc (request_of st t query) = Ret d ->
    exists cr,
      compress env t query p st
      = (Ret cr, {| self := self st;
                    sent := sent st ++ [request_of st t query] |}).
Proof.
  intros st t query p pc d Hi Hc Hd.
  unfold compress. unfold bind at 1. rewrite (ensure_initialized_again _ Hi).
  unfold bind at 1, get_state at 1.
  unfold request_of in Hd.
  destruct (CitationGuard._protect_citations t) as [pt cm] eqn:Hp.
  cbn [fst] in Hd.
  unfold bind at 1, call_compress_prompt. rewrite Hc.
  match goal with
  | |- context [compress_prompt pc ?r] =>
      replace (compress_prompt pc r) with (@Ret dict d)
        by (symmetry; exact Hd)
  end.
  unfold ret, request_of. rewrite Hp. eexists. reflexivity.
Qed.

Lemma Qmin_le_l : forall x y, (Qmin x y <= x)%Q.
Proof.
  intros x y. unfold Qmin. destruct (Qle_bool y x) eqn:H.
  - apply Qle_bool_iff. exact H.
  - apply Qle_refl.
Qed.

Lemma Qltb_true : forall x y, (x < y)%Q -> Qltb x y = true.
Proof.
  intros x y H. unfold Qltb. destruct (Qle_bool y x) eqn:E; [|reflexivity].
  apply Qle_bool_iff in E. exfalso. apply (Qlt_not_le _ _ H E).
Qed.

Lemma required_below :
  forall max_output_tokens current_tokens ratio,
    (0 < current_tokens)%Z ->
    (inject_Z max_output_tokens < inject_Z current_tokens * ratio)%Q ->
    (required_ratio max_output_tokens current_tokens < ratio)%Q.
Proof.
  intros m c r Hc H. unfold required_ratio.
  replace (c >? 0)%Z with true by (symmetry; apply Z.gtb_lt; lia).
  eapply Qle_lt_trans; [apply Qmin_le_l|].
  apply Qlt_shift_div_r.
  - change 0%Q with (inject_Z 0). rewrite <- Zlt_Qlt. exact Hc.
  - rewrite Qmult_comm. exact H.
Qed.

(** The tightening branch of [compress_chunks], for any configured ratio:
    the one request carries the rate
    [min(max_output_tokens / current_tokens, 1.0) * 0.9], and the
    configured [target_ratio] is the original one again afterwards. *)
Lemma compress_chunks_tightened :
  forall (st st1 : cstate) (pc : PromptCompressor)
         (chunks : list RetrievedMatch) (query : text)
         (max_output_tokens : Z),
    _ensure_initialized env st = (Ret tt, st1) ->
    _compressor (self st1) = Some pc ->
    (forall req, exists d, compress_prompt pc req = Ret d) ->
    let current_tokens := _estimate_tokens (combine chunks) in
    (0 < current_tokens)%Z ->
    (inject_Z max_output_tokens
     < inject_Z current_tokens * target_ratio (self st))%Q ->
    exists (out : text) (st' : cstate) (req : PromptRequest),
      compress_chunks env chunks query max_output_tokens st = (Ret out, st')
      /\ sent st' = sent st ++ [req]
      /\ rate req
         = (Qmin (inject_Z max_output_tokens / inject_Z current_tokens) 1
            * (9 # 10))%Q
      /\ target_ratio (self st') = target_ratio (self st).
Proof.
  intros st st1 pc chunks query m Hinit Hpc Hsvc cur Hcur Hexceed.
  destruct (ensure_initialized_ok _ _ Hinit) as (Hi & Hr & Hs).
  pose proof (required_below m cur _ Hcur Hexceed) as Hlt.
  rewrite <- Hr in Hlt. apply Qltb_true in Hlt.
  unfold compress_chunks. unfold bind at 1. rewrite Hinit.
  unfold bind at 1, get_state at 1.
  fold cur. rewrite Hlt.
  unfold bind at 1, set_target_ratio at 1.
  set (st2 := {| self := _; sent := sent st1 |}).
  destruct (Hsvc (request_of st2 (combine chunks) (Some query))) as [d Hd].
  destruct (compress_returns st2 (combine chunks) (Some query) true pc d
              Hi Hpc Hd) as [cr Hcr].
  unfold bind at 1. rewrite Hcr.
  unfold bind at 1, set_target_ratio, ret.
  eexists; eexists; eexists. split; [reflexivity|].
  cbn. rewrite Hs. repeat split.
  - unfold request_of, st2. cbn [rate self target_ratio].
    unfold required_ratio.
    replace (cur >? 0)%Z with true by (symmetry; apply Z.gtb_lt; lia).
    reflexivity.
  - exact Hr.
Qed.

Lemma below_one :
  forall max_output_tokens current_tokens ratio,
    (0 < current_tokens)%Z ->
    (inject_Z max_output_tokens < inject_Z current_tokens * ratio)%Q ->
    (ratio <= 1)%Q ->
    Qmin (inject_Z max_output_tokens / inject_Z current_tokens) 1
    = (inject_Z max_output_tokens / inject_Z current_tokens)%Q.
Proof.
  intros m c r Hc H Hr. unfold Qmin.
  destruct (Qle_bool 1 (inject_Z m / inject_Z c)) eqn:E; [|reflexivity].
  exfalso. apply Qle_bool_iff in E.
  assert (Hlt : (inject_Z m / inject_Z c < r)%Q).
  { apply Qlt_shift_div_r.
    - change 0%Q with (inject_Z 0). rewrite <- Zlt_Qlt. exact Hc.
    - rewrite Qmult_comm. exact H. }
  apply (Qlt_not_le _ _ Hlt). apply (Qle_trans _ 1); assumption.
Qed.

(** C6.  Adaptive budget fitting: for a configured [target_ratio] of at
    most 1, when the combined context has [current_tokens > 0] and
    [current_tokens * target_ratio] exceeds [max_output_tokens], and the
    model answers, [compress_chunks] returns; the one request it sends
    carries the rate [(max_output_tokens / current_tokens) * 0.9], and the
    configured [target_ratio] is the original one again afterwards. *)
Theorem compress_chunks_budget :
  forall (st st1 : cstate) (pc : PromptCompressor)
         (chunks : list RetrievedMatch) (query : text)
         (max_output_tokens : Z),
    _ensure_initialized env st = (Ret tt, st1) ->
    _compressor (self st1) = Some pc ->
    (forall req, exists d, compress_prompt pc req = Ret d) ->
    (target_ratio (self st) <= 1)%Q ->
    let current_tokens := _estimate_tokens (combine chunks) in
    (0 < current_tokens)%Z ->
    (inject_Z max_output_tokens
     < inject_Z current_tokens * target_ratio (self st))%Q ->
    exists (out : text) (st' : cstate) (req : PromptRequest),
      compress_chunks env chunks query max_output_tokens st = (Ret out, st')
      /\ sent st' = sent st ++ [req]
      /\ rate req
         = (inject_Z max_output_tokens / inject_Z current_tokens
            * (9 # 10))%Q
      /\ target_ratio (self st') = target_ratio (self st).
Proof.
  intros st st1 pc chunks query m Hinit Hpc Hsvc Hone cur Hcur Hexceed.
  destruct (compress_chunks_tightened st st1 pc chunks query m
              Hinit Hpc Hsvc Hcur Hexceed)
    as (out & st' & req & Hrun & Hsent & Hrate & Hratio).
  exists out, st', req. split; [exact Hrun|]. split; [exact Hsent|].
  split; [|exact Hratio].
  rewrite Hrate. fold cur.
  rewrite (below_one m cur _ Hcur Hexceed Hone). reflexivity.
Qed.

End BudgetFacts.

(** The scenario of the specification: 1000 tokens, a budget of 300 and a
    configured ratio of 0.5 give the rate 0.27, and 0.5 afterwards. *)
Lemma compress_chunks_budget_witness :
  Lingua._estimate_tokens (Lingua.combine Budget.chunks_1000) = 1000%Z
  /\ exists (out : text) (st' : Lingua.cstate) (req : Lingua.PromptRequest),
       Lingua.compress_chunks Budget.env Budget.chunks_1000 Budget.question
                              300 (Samples.fresh (1 # 2))
       = (Ret out, st')
       /\ Lingua.sent st' = [req]
       /\ (Lingua.rate req == 27 # 100)%Q
       /\ Lingua.target_ratio (Lingua.self st') = (1 # 2)%Q.
Proof.
  split; [vm_compute; reflexivity|].
  destruct (compress_chunks_budget Budget.env (Samples.fresh (1 # 2))
              (snd (Lingua._ensure_initialized Budget.env
                      (Samples.fresh (1 # 2))))
              Samples.echo_model Budget.chunks_1000 Budget.question 300)
    as (out & st' & req & Hrun & Hsent & Hrate & Hratio).
  - reflexivity.
  - reflexivity.
  - intros req. eexists. reflexivity.
  - vm_compute. discriminate.
  - vm_compute. reflexivity.
  - vm_compute. reflexivity.
  - exists out, st', req. repeat split.
    + exact Hrun.
    + exact Hsent.
    + rewrite Hrate. vm_compute. reflexivity.
    + exact Hratio.
Defined.

(** Outside that range, with a configured ratio above 1 (an expansion,
    not a compression), the cap [min(.., 1.0)] decides: 100 tokens at
    ratio 2 exceed a budget of 150, and the rate sent is 0.9, not
    [150 / 100 * 0.9]. *)
Lemma compress_chunks_ratio_above_one :
  Lingua._estimate_tokens (Lingua.combine Budget.chunks_100) = 100%Z
  /\ (inject_Z 150 < inject_Z 100 * 2)%Q
  /\ exists (out : text) (st' : Lingua.cstate) (req : Lingua.PromptRequest),
       Lingua.compress_chunks Budget.env Budget.chunks_100 Budget.question
                              150 (Samples.fresh 2)
       = (Ret out, st')
       /\ Lingua.sent st' = [req]
       /\ (Lingua.rate req == 9 # 10)%Q
       /\ ~ (Lingua.rate req == inject_Z 150 / inject_Z 100 * (9 # 10))%Q.
Proof.
  split; [vm_compute; reflexivity|].
  split; [vm_compute; reflexivity|].
  eexists; eexists; eexists.
  split; [vm_compute; reflexivity|].
  split; [reflexivity|].
  split; [vm_compute; reflexivity|].
  vm_compute. discriminate.
Qed.

(** When the model raises, [compress_chunks] propagates the exception
    before the line that restores the ratio: the tightened ratio stays. *)
Lemma compress_chunks_override_kept_on_error :
  fst Budget.failing_run = Raise (ServiceError "model failure")
  /\ (Lingua.target_ratio (Lingua.self (snd Budget.failing_run))
      == 27 # 100)%Q.
Proof. split; vm_compute; reflexivity. Qed.

(** ** Python string facts *)

Section TextFacts.

Lemma char_eqb_refl : forall a, char_eqb a a = true.
Proof. intros a. apply Ascii.eqb_refl. Qed.

Lemma char_eqb_eq : forall a b, char_eqb a b = true <-> a = b.
Proof. intros a b. apply Ascii.eqb_eq. Qed.

Lemma text_eqb_refl : forall s, text_eqb s s = true.
Proof.
  induction s as [|a s IH]; cbn; [reflexivity|].
  rewrite char_eqb_refl, IH. reflexivity.
Qed.

Lemma text_eqb_eq : forall s t, text_eqb s t = true <-> s = t.
Proof.
  induction s as [|a s IH]; intros [|b t]; cbn; split; intros H;
    try reflexivity; try discriminate.
  - apply andb_true_iff in H. destruct H as [H1 H2].
    apply char_eqb_eq in H1. apply IH in H2. congruence.
  - inversion H; subst. rewrite char_eqb_refl. apply text_eqb_refl.
Qed.

Lemma mem_In : forall x l, mem x l = true <-> In x l.
Proof.
  intros x l. unfold mem. rewrite existsb_exists. split.
  - intros (y & Hy & E). apply text_eqb_eq in E. subst. exact Hy.
  - intros H. exists x. split; [exact H|apply text_eqb_refl].
Qed.

Lemma join_nonempty :
  forall sep x l, x <> [] -> join sep (x :: l) <> [].
Proof.
  intros sep x l Hx. destruct x as [|a x]; [congruence|].
  destruct l; cbn; discriminate.
Qed.

End TextFacts.

(** ** The extractive-fallback compressor *)

Section FallbackFacts.

Import Fallback.

Lemma insert_desc_perm :
  forall x l, Permutation (insert_desc x l) (x :: l).
Proof.
  intros x l. induction l as [|y l IH]; cbn; [reflexivity|].
  destruct (Qle_bool (snd y) (snd x)); [reflexivity|].
  rewrite IH. apply perm_swap.
Qed.

Lemma sort_desc_perm : forall l, Permutation (sort_desc l) l.
Proof.
  induction l as [|x l IH]; cbn; [reflexivity|].
  rewrite insert_desc_perm. constructor. exact IH.
Qed.







Lemma int_of_float_mono :
  forall x y, (x <= y)%Q -> (int_of_float x <= int_of_float y)%Z.
Proof.
  intros [a b] [c d] H. unfold Qle in H. cbn in H.
  unfold int_of_float. cbn.
  rewrite <- (Z.quot_mul_cancel_r a (Zpos b) (Zpos d)) by lia.
  rewrite <- (Z.quot_mul_cancel_r c (Zpos d) (Zpos b)) by lia.
  rewrite (Z.mul_comm (Zpos d) (Zpos b)).
  apply Z.quot_le_mono; lia.
Qed.

Lemma target_count_mono :
  forall r1 r2 n,
    (r1 <= r2)%Q ->
    (target_count {| target_ratio := r1 |} n
     <= target_count {| target_ratio := r2 |} n)%Z.
Proof.
  intros r1 r2 n H. unfold target_count. cbn [target_ratio].
  apply Z.max_le_compat_l. apply int_of_float_mono.
  rewrite !(Qmult_comm (inject_Z (Z.of_nat n))).
  apply Qmult_le_compat_r; [exact H|].
  change 0%Q with (inject_Z 0). rewrite <- Zle_Qle. lia.
Qed.

Lemma target_count_pos : forall self n, (1 <= target_count self n)%Z.
Proof. intros. unfold target_count. lia. Qed.

Lemma firstn_incl_le :
  forall {A} (l : list A) j k, j <= k -> incl (firstn j l) (firstn k l).
Proof.
  intros A l. induction l as [|x l IH]; intros j k Hjk.
  - rewrite !firstn_nil. apply incl_refl.
  - destruct j as [|j]; [intros y []|].
    destruct k as [|k]; [lia|]. cbn.
    intros y [<-|Hy]; [left; reflexivity|right].
    apply (IH j k); [lia|exact Hy].
Qed.

Lemma firstn_in :
  forall {A} (l : list A) k x, In x (firstn k l) -> In x l.
Proof.
  intros A l. induction l as [|y l IH]; intros k x H.
  - rewrite firstn_nil in H. exact H.
  - destruct k as [|k]; [destruct H|].
    destruct H as [<-|H]; [left; reflexivity|right; eapply IH; exact H].
Qed.

Lemma filter_length_le :
  forall {A} (p q : A -> bool) l,
    (forall x, p x = true -> q x = true) ->
    length (filter p l) <= length (filter q l).
Proof.
  intros A p q l H. induction l as [|x l IH]; cbn; [lia|].
  destruct (p x) eqn:Hp.
  - rewrite (H x Hp). cbn. lia.
  - destruct (q x); cbn; lia.
Qed.

(** C9.  Ratio monotonicity of the extractive-fallback compressor: for the
    same text and query, a smaller [target_ratio] never emits more
    sentences into [compressed_text] than a larger one. *)
Theorem fallback_ratio_monotone :
  forall (t : text) (query : option text) (r1 r2 : Q),
    (r1 <= r2)%Q ->
    length (emitted {| target_ratio := r1 |} t query)
    <= length (emitted {| target_ratio := r2 |} t query).
Proof.
  intros t query r1 r2 H. unfold emitted.
  apply filter_length_le. intros s Hs.
  apply mem_In in Hs. apply mem_In.
  apply in_map_iff in Hs. destruct Hs as (p & Hp & Hin).
  apply in_map_iff. exists p. split; [exact Hp|].
  unfold selected in *.
  eapply firstn_incl_le; [|exact Hin].
  apply Z2Nat.inj_le.
  - pose proof (target_count_pos {| target_ratio := r1 |}
                  (length (_split_sentences t))). lia.
  - pose proof (target_count_pos {| target_ratio := r2 |}
                  (length (_split_sentences t))). lia.
  - apply target_count_mono. exact H.
Qed.

Lemma split_sentences_nonempty :
  forall t s, In s (_split_sentences t) -> s <> [].
Proof.
  intros t s. unfold _split_sentences. rewrite in_map_iff.
  intros (x & <- & Hx). apply filter_In in Hx. destruct Hx as [_ Hx].
  destruct (strip x); [discriminate|discriminate].
Qed.

Lemma emitted_nonempty :
  forall self t query,
    _split_sentences t <> [] -> emitted self t query <> [].
Proof.
  intros self t query Hne.
  assert (Hsel : exists p, In p (selected self t query)).
  { unfold selected.
    pose proof (target_count_pos self (length (_split_sentences t))) as Hk.
    destruct (Z.to_nat (target_count self (length (_split_sentences t))))
      as [|k] eqn:Ek; [lia|].
    destruct (sort_desc (scored (_split_sentences t) query)) as [|p l] eqn:El.
    - exfalso. apply Hne.
      pose proof (sort_desc_perm (scored (_split_sentences t) query)) as P.
      rewrite El in P. apply Permutation_nil in P.
      unfold scored in P. apply map_eq_nil in P. exact P.
    - exists p. left. reflexivity. }
  destruct Hsel as [p Hp].
  assert (Hin : In (fst p) (_split_sentences t)).
  { unfold selected in Hp. apply firstn_in in Hp.
    apply (Permutation_in _ (sort_desc_perm _)) in Hp.
    unfold scored in Hp. apply in_map_iff in Hp.
    destruct Hp as (s & <- & Hs). exact Hs. }
  intros He.
  assert (Hf : In (fst p) (emitted self t query)).
  { unfold emitted. apply filter_In. split; [exact Hin|].
    apply mem_In. apply in_map. exact Hp. }
  rewrite He in Hf. exact Hf.
Qed.

(** C10.  Whenever the sentence split of the text yields at least one
    sentence, [compress] emits at least one sentence whatever the target
    ratio (zero and negative ratios included), and the returned
    [compressed_text] is not empty. *)
Theorem fallback_selects_at_least_one :
  forall (self : SimpleFallbackCompressor) (t : text) (query : option text),
    _split_sentences t <> [] ->
    (1 <= length (emitted self t query))%nat
    /\ compressed_text (compress self t query) <> [].
Proof.
  intros self t query Hne.
  pose proof (emitted_nonempty self t query Hne) as He.
  split.
  - destruct (emitted self t query); [congruence|cbn; lia].
  - unfold compress. cbn [compressed_text].
    destruct (emitted self t query) as [|s l] eqn:E; [congruence|].
    apply join_nonempty.
    apply (split_sentences_nonempty t).
    assert (Hs : In s (emitted self t query)) by (rewrite E; left; reflexivity).
    unfold emitted in Hs. apply filter_In in Hs. apply Hs.
Qed.


End FallbackFacts.



(** Ratios 0.2 and 0.8 on a text of five sentences. *)
Lemma fallback_ratio_monotone_witness :
  ((1 # 5) <= (4 # 5))%Q
  /\ length (Fallback.emitted {| Fallback.target_ratio := 1 # 5 |}
               Texts.five None)
     <= length (Fallback.emitted {| Fallback.target_ratio := 4 # 5 |}
                  Texts.five None).
Proof.
  split.
  - unfold Qle. cbn. lia.
  - apply (fallback_ratio_monotone Texts.five None (1 # 5) (4 # 5)).
    unfold Qle. cbn. lia.
Defined.

(** Ratio 0 on a text of five sentences. *)
Lemma fallback_selects_at_least_one_witness :
  Fallback._split_sentences Texts.five <> []
  /\ (1 <= length (Fallback.emitted {| Fallback.target_ratio := 0 |}
                     Texts.five None))%nat
  /\ compressed_text
       (Fallback.compress {| Fallback.target_ratio := 0 |} Texts.five None)
     <> [].
Proof.
  split.
  - vm_compute. discriminate.
  - apply (fallback_selects_at_least_one {| Fallback.target_ratio := 0 |}
             Texts.five None).
    vm_compute. discriminate.
Defined.


(** ** The segmenter of [legal_rag/core/chunker.py] *)

Section ChunkerFacts.

Import Chunker.

Variable self : LegalChunker.
Variable document : Document.

Lemma len_nonneg : forall s, (0 <= len s)%Z.
Proof. intros s. unfold len. lia. Qed.

Lemma len_app : forall s t, len (s ++ t) = (len s + len t)%Z.
Proof. intros s t. unfold len. rewrite length_app. lia. Qed.

Lemma sum_len_app :
  forall l m, sum_len (l ++ m) = (sum_len l + sum_len m)%Z.
Proof.
  induction l as [|x l IH]; intros m; cbn; [reflexivity|].
  rewrite IH. lia.
Qed.

Lemma sum_len_nonneg : forall l, (0 <= sum_len l)%Z.
Proof.
  induction l as [|x l IH]; cbn; [lia|]. pose proof (len_nonneg x). lia.
Qed.

Lemma join_len :
  forall sep x l,
    len (join sep (x :: l))
    = (sum_len (x :: l) + len sep * Z.of_nat (length l))%Z.
Proof.
  intros sep x l. revert x. induction l as [|y l IH]; intros x.
  - cbn. lia.
  - change (join sep (x :: y :: l)) with (x ++ sep ++ join sep (y :: l)).
    rewrite !len_app, IH. cbn [sum_len length].
    rewrite Nat2Z.inj_succ. lia.
Qed.

(** *** The overlap tail *)

Lemma drop_while_len :
  forall p s, (length (drop_while p s) <= length s)%nat.
Proof.
  intros p s. induction s as [|a s IH]; cbn; [lia|].
  destruct (p a); cbn; lia.
Qed.

Lemma strip_space_end :
  forall s, (len (strip (s ++ T " ")) <= len s)%Z.
Proof.
  intros s. unfold strip, lstrip, rstrip, len.
  rewrite rev_app_distr. cbn.
  pose proof (drop_while_len is_space
                (rev (drop_while is_space (rev s)))) as H1.
  pose proof (drop_while_len is_space (rev s)) as H2.
  rewrite length_rev in H1, H2.
  change (is_space " ") with true. cbv iota. lia.
Qed.

Lemma last_chars_len :
  forall k s, (length (last_chars k s) <= k)%nat.
Proof. intros k s. unfold last_chars. rewrite length_skipn. lia. Qed.

Lemma overlap_loop_ok :
  forall ov rev_chunks acc,
    overlap_ok ov acc -> overlap_ok ov (overlap_loop ov rev_chunks acc).
Proof.
  intros ov rev_chunks. induction rev_chunks as [|c rest IH]; intros acc Hacc.
  - exact Hacc.
  - cbn [overlap_loop].
    destruct (len acc + len c <=? ov)%Z eqn:E.
    + apply Z.leb_le in E. apply IH. right.
      destruct Hacc as [->|(body & -> & Hb)].
      * exists c. split; [reflexivity|]. rewrite !len_app.
        change (len (T " ")) with 1%Z. change (len []) with 0%Z in *. lia.
      * exists (c ++ T " " ++ body). split.
        { rewrite <- !app_assoc. reflexivity. }
        rewrite !len_app in *. change (len (T " ")) with 1%Z in *. lia.
    + destruct (ov - len acc >? 0)%Z eqn:R; [|exact Hacc].
      apply Z.gtb_lt in R. right.
      pose proof (last_chars_len (Z.to_nat (ov - len acc)) c) as Hl.
      destruct Hacc as [->|(body & -> & Hb)].
      * exists (last_chars (Z.to_nat (ov - len [])) c).
        split; [reflexivity|]. rewrite !len_app.
        change (len (T " ")) with 1%Z. change (len []) with 0%Z in *.
        unfold len at 1. lia.
      * exists (last_chars (Z.to_nat (ov - len (body ++ T " "))) c
                ++ T " " ++ body).
        split.
        { rewrite <- !app_assoc. reflexivity. }
        rewrite !len_app in *. change (len (T " ")) with 1%Z in *.
        unfold len at 1. lia.
Qed.

Lemma get_overlap_len :
  forall units, (len (_get_overlap self units) <= Z.max 0 (chunk_overlap self))%Z.
Proof.
  intros units. unfold _get_overlap.
  destruct units as [|u units]; [cbn; lia|].
  destruct (chunk_overlap self <=? 0)%Z eqn:E; [cbn; lia|].
  apply Z.leb_gt in E.
  destruct (overlap_loop_ok (chunk_overlap self) (rev (u :: units)) [])
    as [->|(body & -> & Hb)].
  - left. reflexivity.
  - cbn. lia.
  - pose proof (strip_space_end body) as Hs.
    rewrite len_app in Hb. change (len (T " ")) with 1%Z in Hb. lia.
Qed.

(** *** Chunk identifiers *)

Lemma digits_no_underscore :
  forall d, Forall (fun a => char_eqb a "_" = false)
                   (list_ascii_of_string (NilEmpty.string_of_uint d)).
Proof.
  induction d; cbn; constructor; try reflexivity; assumption.
Qed.

Lemma last_field_app :
  forall prefix d,
    Forall (fun a => char_eqb a "_" = false) d ->
    last_field (prefix ++ T "_" ++ d) = d.
Proof.
  intros prefix d Hd. unfold last_field.
  rewrite !rev_app_distr. cbn [T list_ascii_of_string rev app].
  rewrite <- app_assoc. cbn [app].
  assert (Hr : Forall (fun a => char_eqb a "_" = false) (rev d)).
  { apply Forall_rev. exact Hd. }
  rewrite <- (rev_involutive d) at 2. f_equal.
  induction Hr as [|a l Ha Hl IH]; cbn.
  - reflexivity.
  - rewrite Ha. f_equal. exact IH.
Qed.

Lemma parse_str_nat : forall n, parse_nat (str_nat n) = Some n.
Proof.
  intros n. unfold parse_nat, str_nat.
  rewrite string_of_list_ascii_of_string, NilEmpty.usu. cbn.
  rewrite DecimalNat.Unsigned.of_to. reflexivity.
Qed.

Lemma ordinal_of_id :
  forall prefix n, ordinal (prefix ++ T "_" ++ str_nat n) = Some n.
Proof.
  intros prefix n. unfold ordinal.
  rewrite last_field_app; [apply parse_str_nat|].
  apply digits_no_underscore.
Qed.

Lemma create_chunk_ordinal :
  forall t section_name index,
    ordinal (chunk_id (_create_chunk t document section_name index))
    = Some index.
Proof.
  intros t section_name index. cbn [_create_chunk chunk_id].
  rewrite !app_assoc. rewrite <- (app_assoc _ (T "_") (str_nat index)).
  apply ordinal_of_id.
Qed.

(** *** The invariant of the loops of [chunk_document] *)

Lemma numbered_snoc :
  forall cs n c,
    numbered cs n -> ordinal (chunk_id c) = Some n -> numbered (cs ++ [c]) (S n).
Proof.
  intros cs n c H Hc. unfold numbered in *.
  rewrite map_app, seq_S, map_app, H. cbn. rewrite Hc. reflexivity.
Qed.

Lemma within_single :
  forall u, within self [u].
Proof.
  intros u. unfold within, oversized, size_budget.
  destruct (Z_lt_le_dec (chunk_size self) (len u)) as [H|H].
  - left. exists u. split; [left; reflexivity|exact H].
  - right. cbn. lia.
Qed.

Lemma within_restart :
  forall units u,
    within self (if truthy (_get_overlap self units)
            then [_get_overlap self units; u] else [u]).
Proof.
  intros units u. pose proof (get_overlap_len units) as Ho.
  destruct (truthy (_get_overlap self units)); [|apply within_single].
  unfold within, oversized, size_budget.
  destruct (Z_lt_le_dec (chunk_size self) (len u)) as [H|H].
  - left. exists u. split; [right; left; reflexivity|exact H].
  - right. cbn. lia.
Qed.

Lemma within_append :
  forall units size u,
    (sum_len units <= size)%Z ->
    (size + len u <= chunk_size self)%Z ->
    within self (units ++ [u]).
Proof.
  intros units size u Hs Hc. right. unfold size_budget.
  rewrite sum_len_app. cbn. lia.
Qed.

Lemma flush_ok :
  forall st sep section_name,
    state_ok self st ->
    current_chunk st <> [] ->
    sep = T " " \/ sep = NL ++ NL ->
    Forall (chunk_ok self)
      (chunks st ++ [_create_chunk (join sep (current_chunk st)) document
                                   section_name (chunk_index st)])
    /\ numbered
         (chunks st ++ [_create_chunk (join sep (current_chunk st)) document
                                      section_name (chunk_index st)])
         (S (chunk_index st)).
Proof.
  intros st sep section_name (Hc & Hn & Hs & Hw) Hne Hsep. split.
  - apply Forall_app. split; [exact Hc|]. constructor; [|constructor].
    exists (current_chunk st). split; [exact Hne|]. split.
    + cbn [_create_chunk content]. destruct Hsep as [->| ->]; auto.
    + destruct Hw as [Hw|Hw]; [congruence|exact Hw].
  - apply numbered_snoc; [exact Hn|apply create_chunk_ordinal].
Qed.

Lemma nonempty_true : forall {A} (l : list A), nonempty l = true -> l <> [].
Proof. intros A [|x l] H; [discriminate|discriminate]. Qed.

Lemma append_ok :
  forall st u,
    state_ok self st ->
    ((current_size st + len u >? chunk_size self)%Z
     && nonempty (current_chunk st))%bool = false ->
    state_ok self {| chunks := chunks st;
                chunk_index := chunk_index st;
                current_chunk := current_chunk st ++ [u];
                current_size := (current_size st + len u)%Z |}.
Proof.
  intros st u (Hc & Hn & Hs & Hw) Hcond.
  split; [exact Hc|]. split; [exact Hn|]. cbn [current_chunk current_size].
  split.
  - rewrite sum_len_app. cbn. lia.
  - right. apply andb_false_iff in Hcond. destruct Hcond as [Hcond|Hcond].
    + apply (within_append _ (current_size st)); [exact Hs|].
      destruct (Z.gtb_spec (current_size st + len u) (chunk_size self));
        [discriminate|lia].
    + destruct (current_chunk st); [apply within_single|discriminate].
Qed.

Lemma add_sentence_ok :
  forall section_name st sentence,
    state_ok self st -> state_ok self (add_sentence self document section_name st sentence).
Proof.
  intros section_name st sentence Hst. unfold add_sentence.
  destruct ((current_size st + len sentence >? chunk_size self)%Z
            && nonempty (current_chunk st))%bool eqn:Hcond.
  - apply andb_true_iff in Hcond. destruct Hcond as [_ Hne].
    apply nonempty_true in Hne.
    destruct (flush_ok st (T " ") section_name Hst Hne (or_introl eq_refl))
      as [Hc Hn].
    split; [exact Hc|]. split; [exact Hn|].
    cbn [current_chunk current_size]. split.
    + pose proof (len_nonneg sentence).
      destruct (truthy (_get_overlap self (current_chunk st))); cbn; lia.
    + right. apply within_restart.
  - apply append_ok; assumption.
Qed.

Lemma fold_ok :
  forall {A} (f : state -> A -> state) (l : list A) st,
    (forall s x, state_ok self s -> state_ok self (f s x)) ->
    state_ok self st -> state_ok self (fold_left f l st).
Proof.
  intros A f l. induction l as [|x l IH]; intros st Hf Hst; cbn.
  - exact Hst.
  - apply IH; [exact Hf|apply Hf; exact Hst].
Qed.

Lemma add_paragraph_ok :
  forall section_name st raw,
    state_ok self st -> state_ok self (add_paragraph self document section_name st raw).
Proof.
  intros section_name st raw Hst. unfold add_paragraph.
  destruct (negb (truthy (strip raw))); [exact Hst|].
  destruct (len (strip raw) >? chunk_size self)%Z.
  - apply fold_ok; [|exact Hst]. intros s x. apply add_sentence_ok.
  - destruct ((current_size st + len (strip raw) >? chunk_size self)%Z
              && nonempty (current_chunk st))%bool eqn:Hcond.
    + apply andb_true_iff in Hcond. destruct Hcond as [_ Hne].
      apply nonempty_true in Hne.
      destruct (flush_ok st (NL ++ NL) section_name Hst Hne
                         (or_intror eq_refl)) as [Hc Hn].
      split; [exact Hc|]. split; [exact Hn|].
      cbn [current_chunk current_size]. split.
      * destruct (truthy (_get_overlap self (current_chunk st))); cbn; lia.
      * right. apply within_restart.
    + apply append_ok; assumption.
Qed.

Lemma add_section_ok :
  forall acc sec, output_ok self acc -> output_ok self (add_section self document acc sec).
Proof.
  intros acc sec [Hc Hn]. unfold add_section.
  destruct (negb (truthy (strip _))); [split; assumption|].
  match goal with
  | |- context [fold_left ?f ?l ?s] =>
      assert (Hst : state_ok self (fold_left f l s))
  end.
  { apply fold_ok; [intros s x; apply add_paragraph_ok|].
    split; [exact Hc|]. split; [exact Hn|]. cbn. split; [lia|left; reflexivity]. }
  match goal with
  | |- context [fold_left ?f ?l ?s] => set (st := fold_left f l s) in *
  end.
  destruct (nonempty (current_chunk st)) eqn:Hne.
  - apply nonempty_true in Hne.
    destruct (flush_ok st (NL ++ NL)
                (name_of sec)
                Hst Hne (or_intror eq_refl)) as [Hc' Hn'].
    split; assumption.
  - destruct Hst as (Hc' & Hn' & _). split; assumption.
Qed.

Lemma chunk_document_ok :
  output_ok self (fold_left (add_section self document) (sections_of document)
                       ([], 0)).
Proof.
  generalize (sections_of document). intros l.
  assert (H0 : output_ok self ([], 0)) by (split; [constructor|reflexivity]).
  revert H0. generalize (([], 0) : list DocumentChunk * nat).
  induction l as [|sec l IH]; intros acc Hacc; cbn; [exact Hacc|].
  apply IH. apply add_section_ok. exact Hacc.
Qed.

Lemma numbered_length :
  forall cs n, numbered cs n -> length cs = n.
Proof.
  intros cs n H. unfold numbered in H.
  apply (f_equal (@length _)) in H. rewrite !length_map, length_seq in H.
  exact H.
Qed.

Lemma chunk_document_numbered :
  map (fun c => ordinal (chunk_id c)) (chunk_document self document)
  = map Some (seq 0 (length (chunk_document self document))).
Proof.
  destruct chunk_document_ok as [_ Hn]. unfold chunk_document.
  rewrite (numbered_length _ _ Hn). exact Hn.
Qed.

(** *** The buffers behind the chunks *)

Lemma along_contents :
  forall {S A} (proj : S -> list DocumentChunk)
         (step : S -> A -> S) (out : S -> A -> list Flushes.flush),
    (forall s x,
        map content (proj (step s x))
        = map content (proj s) ++ map Flushes.joined (out s x)) ->
    forall l s,
      map content (proj (fold_left step l s))
      = map content (proj s)
        ++ map Flushes.joined (Flushes.along step out l s).
Proof.
  intros S A proj step out H. induction l as [|x l IH]; intros s.
  - cbn. rewrite app_nil_r. reflexivity.
  - cbn [fold_left Flushes.along]. rewrite IH, H, map_app, app_assoc.
    reflexivity.
Qed.

Lemma along_sound :
  forall {S A} (I : S -> Prop) (Q : A -> Prop) (P : Flushes.flush -> Prop)
         (step : S -> A -> S) (out : S -> A -> list Flushes.flush),
    (forall s x, I s -> Q x -> I (step s x)) ->
    (forall s x, I s -> Q x -> Forall P (out s x)) ->
    forall l s,
      Forall Q l -> I s ->
      Forall P (Flushes.along step out l s) /\ I (fold_left step l s).
Proof.
  intros S A I Q P step out Hstep Hout.
  induction l as [|x l IH]; intros s Hl Hs.
  - split; [constructor|exact Hs].
  - inversion Hl as [|? ? Hx Hl']; subst. cbn [fold_left Flushes.along].
    destruct (IH (step s x) Hl' (Hstep s x Hs Hx)) as [H1 H2].
    split; [|exact H2]. apply Forall_app. split; [apply Hout; assumption|].
    exact H1.
Qed.

Lemma add_sentence_contents :
  forall section_name st sentence,
    map content (chunks (add_sentence self document section_name st sentence))
    = map content (chunks st)
      ++ map Flushes.joined (Flushes.of_sentence self st sentence).
Proof.
  intros section_name st sentence. unfold add_sentence, Flushes.of_sentence.
  destruct (_ && _)%bool; cbn [chunks map].
  - rewrite map_app. reflexivity.
  - rewrite app_nil_r. reflexivity.
Qed.

Lemma add_paragraph_contents :
  forall section_name st raw,
    map content (chunks (add_paragraph self document section_name st raw))
    = map content (chunks st)
      ++ map Flushes.joined
           (Flushes.of_paragraph self document section_name st raw).
Proof.
  intros section_name st raw. unfold add_paragraph, Flushes.of_paragraph.
  destruct (negb (truthy (strip raw)));
    [cbn; rewrite app_nil_r; reflexivity|].
  destruct (len (strip raw) >? chunk_size self)%Z.
  - apply (along_contents chunks). apply add_sentence_contents.
  - destruct (_ && _)%bool; cbn [chunks map].
    + rewrite map_app. reflexivity.
    + rewrite app_nil_r. reflexivity.
Qed.

Lemma add_section_contents :
  forall acc sec,
    map content (fst (add_section self document acc sec))
    = map content (fst acc)
      ++ map Flushes.joined (Flushes.of_section self document acc sec).
Proof.
  intros acc sec. unfold add_section, Flushes.of_section.
  destruct (negb (truthy (strip _)));
    [cbn; rewrite app_nil_r; reflexivity|].
  match goal with
  | |- context [fold_left ?f ?l ?s0] =>
      pose proof (along_contents chunks f
                    (Flushes.of_paragraph self document (name_of sec))
                    (add_paragraph_contents (name_of sec)) l s0) as H;
      set (st := fold_left f l s0) in *
  end.
  cbn [chunks] in H.
  destruct (nonempty (current_chunk st)); cbn [fst].
  - rewrite !map_app, H, <- app_assoc. reflexivity.
  - rewrite map_app, H. cbn [map]. rewrite app_nil_r. reflexivity.
Qed.

Lemma overlap_unit :
  forall buffer,
    truthy (_get_overlap self buffer) = true ->
    Flushes.unit_of self document (_get_overlap self buffer).
Proof. intros buffer H. left. exists buffer. split; [reflexivity|exact H]. Qed.

Lemma restart_units :
  forall buffer u,
    Flushes.unit_of self document u ->
    Forall (Flushes.unit_of self document)
           (if truthy (_get_overlap self buffer)
            then [_get_overlap self buffer; u] else [u]).
Proof.
  intros buffer u Hu.
  destruct (truthy (_get_overlap self buffer)) eqn:E.
  - constructor; [apply overlap_unit; exact E|].
    constructor; [exact Hu|constructor].
  - constructor; [exact Hu|constructor].
Qed.

Lemma buffer_sound :
  forall st sep,
    Flushes.ready self document st ->
    nonempty (current_chunk st) = true ->
    sep = T " " \/ sep = NL ++ NL ->
    Flushes.sound self document (sep, current_chunk st).
Proof.
  intros st sep [(_ & _ & _ & Hw) Hu] Hne Hsep.
  apply nonempty_true in Hne. split; [exact Hne|]. split; [exact Hsep|].
  split; [exact Hu|]. destruct Hw as [Hw|Hw]; [congruence|exact Hw].
Qed.

Lemma add_sentence_ready :
  forall section_name st sentence,
    Flushes.ready self document st ->
    Flushes.unit_of self document sentence ->
    Flushes.ready self document
      (add_sentence self document section_name st sentence).
Proof.
  intros section_name st sentence [Hst Hu] Hs.
  split; [apply add_sentence_ok; exact Hst|].
  unfold add_sentence. destruct (_ && _)%bool; cbn [current_chunk].
  - apply restart_units. exact Hs.
  - apply Forall_app. split; [exact Hu|]. constructor; [exact Hs|constructor].
Qed.

Lemma of_sentence_sound :
  forall st sentence,
    Flushes.ready self document st ->
    Forall (Flushes.sound self document)
           (Flushes.of_sentence self st sentence).
Proof.
  intros st sentence Hst. unfold Flushes.of_sentence.
  destruct (_ && _)%bool eqn:E; [|constructor].
  apply andb_true_iff in E. destruct E as [_ Hne].
  constructor; [|constructor].
  apply buffer_sound; [exact Hst|exact Hne|left; reflexivity].
Qed.

Lemma add_paragraph_ready :
  forall section_name st raw,
    Flushes.ready self document st ->
    Forall (Flushes.unit_of self document) (Cover.units_of self raw) ->
    Forall (Flushes.sound self document)
           (Flushes.of_paragraph self document section_name st raw)
    /\ Flushes.ready self document
         (add_paragraph self document section_name st raw).
Proof.
  intros section_name st raw Hst Hraw.
  pose proof (add_paragraph_ok section_name st raw (proj1 Hst)) as Hok.
  unfold Flushes.of_paragraph, add_paragraph in *.
  unfold Cover.units_of in Hraw.
  destruct (negb (truthy (strip raw))); [split; [constructor|exact Hst]|].
  destruct (len (strip raw) >? chunk_size self)%Z.
  - apply (along_sound (Flushes.ready self document)
                       (Flushes.unit_of self document)).
    + intros s x Hs Hx. apply add_sentence_ready; assumption.
    + intros s x Hs _. apply of_sentence_sound. exact Hs.
    + exact Hraw.
    + exact Hst.
  - inversion Hraw as [|? ? Hp _]; subst.
    destruct (_ && _)%bool eqn:E.
    + apply andb_true_iff in E. destruct E as [_ Hne]. split.
      * constructor; [|constructor].
        apply buffer_sound; [exact Hst|exact Hne|right; reflexivity].
      * split; [exact Hok|].
        cbn [current_chunk]. apply restart_units. exact Hp.
    + split; [constructor|]. split; [exact Hok|].
      cbn [current_chunk]. apply Forall_app. split; [exact (proj2 Hst)|].
      constructor; [exact Hp|constructor].
Qed.

Lemma add_section_sound :
  forall acc sec,
    In sec (sections_of document) ->
    output_ok self acc ->
    Forall (Flushes.sound self document)
           (Flushes.of_section self document acc sec).
Proof.
  intros acc sec Hsec [Hc Hn]. unfold Flushes.of_section.
  fold (ChunkerInv.text_of sec).
  destruct (negb (truthy (strip _))); [constructor|].
  match goal with
  | |- context [fold_left ?f ?l ?s0] =>
      destruct (along_sound (Flushes.ready self document)
                  (fun raw => Forall (Flushes.unit_of self document)
                                     (Cover.units_of self raw))
                  (Flushes.sound self document) f
                  (Flushes.of_paragraph self document (name_of sec))
                  (fun s x Hs Hx =>
                     proj2 (add_paragraph_ready (name_of sec) s x Hs Hx))
                  (fun s x Hs Hx =>
                     proj1 (add_paragraph_ready (name_of sec) s x Hs Hx))
                  l s0) as [Hout Hst];
      [| |set (st := fold_left f l s0) in *]
  end.
  - apply Forall_forall. intros raw Hraw.
    apply Forall_forall. intros u Hu. right. exists sec, raw.
    split; [exact Hsec|]. split; [exact Hraw|exact Hu].
  - split; [|constructor].
    split; [exact Hc|]. split; [exact Hn|]. cbn.
    split; [lia|left; reflexivity].
  - apply Forall_app. split; [exact Hout|].
    destruct (nonempty (current_chunk st)) eqn:Hne; [|constructor].
    constructor; [|constructor].
    apply buffer_sound; [exact Hst|exact Hne|right; reflexivity].
Qed.

Lemma flushed_sound :
  Forall (Flushes.sound self document) (Flushes.flushed self document).
Proof.
  unfold Flushes.flushed.
  apply (along_sound (output_ok self)
                     (fun sec => In sec (sections_of document))
                     (Flushes.sound self document)
                     (add_section self document)
                     (Flushes.of_section self document)).
  - intros s x Hs _. apply add_section_ok. exact Hs.
  - intros s x Hs Hx. apply add_section_sound; assumption.
  - apply Forall_forall. intros sec H. exact H.
  - split; [constructor|reflexivity].
Qed.

(** C3 (amended).  The contents of the chunks returned by [chunk_document]
    are, in order, the joins of the buffers [current_chunk] that the code
    flushes.  Each of these buffers is non-empty and joined by one space or
    by a blank line; its units are overlap texts of [_get_overlap] and
    units of the paragraphs of the document; unless one of them alone is
    longer than [chunk_size], the lengths of the units add up to at most
    [chunk_size + max(chunk_overlap, 0)], and the content is longer than
    that sum only by its separators, at most two characters between
    consecutive units. *)
Theorem chunk_units_bound :
  map content (chunk_document self document)
  = map Flushes.joined (Flushes.flushed self document)
  /\ Forall
       (fun b : Flushes.flush =>
          snd b <> []
          /\ (fst b = T " " \/ fst b = NL ++ NL)
          /\ Forall (Flushes.unit_of self document) (snd b)
          /\ (oversized self (snd b)
              \/ ((sum_len (snd b) <= size_budget self)%Z
                  /\ (len (Flushes.joined b)
                      <= size_budget self
                         + 2 * (Z.of_nat (length (snd b)) - 1))%Z)))
       (Flushes.flushed self document).
Proof.
  split.
  - unfold chunk_document, Flushes.flushed.
    rewrite (along_contents fst (add_section self document)
               (Flushes.of_section self document) add_section_contents).
    reflexivity.
  - eapply Forall_impl; [|exact flushed_sound].
    intros [sep units] (Hne & Hsep & Hu & Hw). cbn [fst snd] in *.
    split; [exact Hne|]. split; [exact Hsep|]. split; [exact Hu|].
    destruct Hw as [Hw|Hw]; [left; exact Hw|right]. split; [exact Hw|].
    unfold Flushes.joined. cbn [fst snd].
    destruct units as [|u units]; [congruence|].
    destruct Hsep as [-> | ->]; rewrite join_len; cbn [length];
      [change (len (T " ")) with 1%Z | change (len (NL ++ NL)) with 2%Z];
      rewrite Nat2Z.inj_succ; lia.
Qed.

End ChunkerFacts.

(** Two ten-character paragraphs with [chunk_size = 10] and
    [chunk_overlap = 5]: the second chunk is the five-character overlap, a
    blank line and the second paragraph, 17 characters, and none of its
    sentences is longer than [chunk_size]. *)
Lemma chunk_size_bound_exceeded :
  In Docs.second_chunk
     (Chunker.chunk_document Docs.chunker Docs.two_paragraphs)
  /\ Chunker.content Docs.second_chunk
     = T "b. C." ++ NL ++ NL ++ T "Dd. Ee. F."
  /\ Forall (fun s => (len s <= Chunker.chunk_size Docs.chunker)%Z)
            (Chunker._split_sentences (Chunker.content Docs.second_chunk))
  /\ (len (Chunker.content Docs.second_chunk) = 17)%Z
  /\ ~ (len (Chunker.content Docs.second_chunk)
        <= Chunker.chunk_size Docs.chunker
           + Chunker.chunk_overlap Docs.chunker)%Z.
Proof.
  split; [vm_compute; right; left; reflexivity|].
  split; [reflexivity|].
  split; [vm_compute; repeat constructor; discriminate|].
  split; [reflexivity|].
  vm_compute. intros H. apply H. reflexivity.
Qed.

(** The buffers of the same document: the first paragraph alone, then its
    overlap tail and the second paragraph, whose lengths add up to 15. *)
Lemma chunk_units_bound_witness :
  Flushes.flushed Docs.chunker Docs.two_paragraphs
  = [ (NL ++ NL, [T "Aa. Bb. C."]);
      (NL ++ NL, [T "b. C."; T "Dd. Ee. F."]) ]
  /\ map Chunker.content
         (Chunker.chunk_document Docs.chunker Docs.two_paragraphs)
     = map Flushes.joined (Flushes.flushed Docs.chunker Docs.two_paragraphs)
  /\ Forall
       (fun b : Flushes.flush =>
          snd b <> []
          /\ (fst b = T " " \/ fst b = NL ++ NL)
          /\ Forall (Flushes.unit_of Docs.chunker Docs.two_paragraphs) (snd b)
          /\ (Chunker.oversized Docs.chunker (snd b)
              \/ ((Chunker.sum_len (snd b)
                   <= Chunker.size_budget Docs.chunker)%Z
                  /\ (len (Flushes.joined b)
                      <= Chunker.size_budget Docs.chunker
                         + 2 * (Z.of_nat (length (snd b)) - 1))%Z)))
       (Flushes.flushed Docs.chunker Docs.two_paragraphs).
Proof.
  split; [vm_compute; reflexivity|].
  exact (chunk_units_bound Docs.chunker Docs.two_paragraphs).
Defined.

(** C2.  Ordinals are not re-numbered per section in
    [legal_rag/core/chunker.py]: [chunk_index] is set to 0 once, before the
    loop over the sections.  For a document with the sections A and B of
    one chunk each, the chunk of B has the id [f.txt_B_1]: the ordinals of
    the pair (f.txt, B) are [1], not [0]. *)
Theorem section_ordinals_continue :
  map Chunker.chunk_id (Chunker.chunk_document Docs.chunker Docs.two_sections)
  = [T "f.txt_A_0"; T "f.txt_B_1"]
  /\ Chunker.section_ordinals (T "f.txt") (T "B")
       (Chunker.chunk_document Docs.chunker Docs.two_sections)
     = [Some 1]
  /\ Chunker.section_ordinals (T "f.txt") (T "B")
       (Chunker.chunk_document Docs.chunker Docs.two_sections)
     <> map Some (seq 0 1).
Proof.
  split; [vm_compute; reflexivity|].
  split; [vm_compute; reflexivity|].
  vm_compute. discriminate.
Qed.

Section ChunkerGroups.

Import Chunker.

Variable self : LegalChunker.
Variable document : Document.

Lemma grows_refl : forall name l, grows name l l.
Proof. intros name l. exists []. rewrite app_nil_r. split; [reflexivity|constructor]. Qed.

Lemma grows_trans :
  forall name a b c, grows name a b -> grows name b c -> grows name a c.
Proof.
  intros name a b c (g1 & -> & H1) (g2 & -> & H2).
  exists (g1 ++ g2). rewrite app_assoc. split; [reflexivity|].
  apply Forall_app. split; assumption.
Qed.

Lemma grows_one :
  forall name l t index,
    grows name l (l ++ [_create_chunk t document name index]).
Proof.
  intros name l t index. eexists. split; [reflexivity|].
  constructor; [reflexivity|constructor].
Qed.

Lemma add_sentence_grows :
  forall name st sentence,
    grows name (chunks st)
          (chunks (add_sentence self document name st sentence)).
Proof.
  intros name st sentence. unfold add_sentence.
  destruct (_ && _)%bool; cbn [chunks]; [apply grows_one|apply grows_refl].
Qed.

Lemma fold_grows :
  forall {A} name (f : state -> A -> state) (l : list A) st,
    (forall s x, grows name (chunks s) (chunks (f s x))) ->
    grows name (chunks st) (chunks (fold_left f l st)).
Proof.
  intros A name f l. induction l as [|x l IH]; intros st Hf; cbn.
  - apply grows_refl.
  - eapply grows_trans; [apply Hf|apply IH; exact Hf].
Qed.

Lemma add_paragraph_grows :
  forall name st raw,
    grows name (chunks st)
          (chunks (add_paragraph self document name st raw)).
Proof.
  intros name st raw. unfold add_paragraph.
  destruct (negb _); [apply grows_refl|].
  destruct (_ >? _)%Z.
  - apply fold_grows. intros s x. apply add_sentence_grows.
  - destruct (_ && _)%bool; cbn [chunks]; [apply grows_one|apply grows_refl].
Qed.

Lemma add_section_grows :
  forall acc sec,
    grows (name_of sec) (fst acc) (fst (add_section self document acc sec)).
Proof.
  intros acc sec. unfold add_section.
  destruct (negb _); [apply grows_refl|].
  match goal with
  | |- context [fold_left ?f ?l ?s0] =>
      pose proof (fold_grows (name_of sec) f l s0
                    (add_paragraph_grows (name_of sec))) as H;
      set (st := fold_left f l s0) in *
  end.
  cbn [chunks] in H.
  destruct (nonempty (current_chunk st)); cbn [fst]; [|exact H].
  eapply grows_trans; [exact H|apply grows_one].
Qed.

Lemma sections_grouped :
  forall l acc,
    exists groups,
      fst (fold_left (add_section self document) l acc)
      = fst acc ++ concat groups
      /\ Forall2 (fun sec g => Forall (fun c => section c = name_of sec) g)
                 l groups.
Proof.
  induction l as [|sec l IH]; intros acc.
  - exists []. cbn. rewrite app_nil_r. split; [reflexivity|constructor].
  - cbn [fold_left].
    destruct (IH (add_section self document acc sec)) as (groups & E & F).
    destruct (add_section_grows acc sec) as (g & Eg & Hg).
    exists (g :: groups). split.
    + rewrite E, Eg. cbn [concat]. rewrite app_assoc. reflexivity.
    + constructor; assumption.
Qed.

Lemma chunk_document_grouped :
  exists groups,
    chunk_document self document = concat groups
    /\ Forall2 (fun sec g => Forall (fun c => section c = name_of sec) g)
               (sections_of document) groups.
Proof.
  destruct (sections_grouped (sections_of document) ([], 0))
    as (groups & E & F).
  exists groups. split; [exact E|exact F].
Qed.

End ChunkerGroups.

(** ** The segmenter of [src/document_processor/chunker.py] *)

Section DocChunkerFacts.

Import DocChunker.

Variable self : LegalChunker.

Lemma make_chunk_ordinal :
  forall current doc_id section idx,
    Chunker.ordinal (chunk_id (make_chunk current doc_id section idx))
    = Some idx.
Proof.
  intros current doc_id section idx. cbn [make_chunk chunk_id].
  rewrite !app_assoc. rewrite <- (app_assoc _ (T "_") (str_nat idx)).
  apply ordinal_of_id.
Qed.

Lemma numbered'_snoc :
  forall cs n c,
    numbered' cs n -> Chunker.ordinal (chunk_id c) = Some n ->
    numbered' (cs ++ [c]) (S n).
Proof.
  intros cs n c H Hc. unfold numbered', ordinals in *.
  rewrite map_app, seq_S, map_app, H. cbn. rewrite Hc. reflexivity.
Qed.

Lemma add_para_numbered :
  forall doc_id section st para,
    numbered' (chunks st) (chunk_idx st) ->
    numbered' (chunks (add_para self doc_id section st para))
              (chunk_idx (add_para self doc_id section st para)).
Proof.
  intros doc_id section st para H. unfold add_para.
  destruct (len (current_chunk st) + len para >? chunk_size self)%Z;
    [|exact H].
  cbn [chunks chunk_idx].
  destruct (truthy (strip (current_chunk st))); [|exact H].
  apply numbered'_snoc; [exact H|apply make_chunk_ordinal].
Qed.

Lemma chunk_text_numbered :
  forall t doc_id section,
    ordinals (_chunk_text self t doc_id section)
    = map Some (seq 0 (length (_chunk_text self t doc_id section))).
Proof.
  intros t doc_id section.
  assert (H : exists n, numbered' (_chunk_text self t doc_id section) n).
  { unfold _chunk_text.
    match goal with
    | |- context [fold_left ?f ?l ?s] =>
        assert (Hst : numbered' (chunks (fold_left f l s))
                                (chunk_idx (fold_left f l s)))
    end.
    { generalize (_split_into_paragraphs self t). intros l.
      match goal with
      | |- context [fold_left _ _ ?s] =>
          assert (H0 : numbered' (chunks s) (chunk_idx s)) by reflexivity;
          revert H0; generalize s
      end.
      induction l as [|p l IH]; intros st Hst; cbn [fold_left];
        [exact Hst|].
      apply IH. apply add_para_numbered. exact Hst. }
    match goal with
    | |- context [fold_left ?f ?l ?s] => set (st := fold_left f l s) in *
    end.
    destruct (truthy (strip (current_chunk st))).
    - eexists. apply numbered'_snoc; [exact Hst|apply make_chunk_ordinal].
    - eexists. exact Hst. }
  destruct H as [n H]. unfold numbered' in H.
  assert (Hl : length (_chunk_text self t doc_id section) = n).
  { apply (f_equal (@length _)) in H. unfold ordinals in H.
    rewrite !length_map, length_seq in H. exact H. }
  rewrite Hl. exact H.
Qed.

Lemma ordinals_with_metadata :
  forall md cs, ordinals (map (with_document_metadata md) cs) = ordinals cs.
Proof.
  intros md cs. unfold ordinals. rewrite map_map. reflexivity.
Qed.

Lemma ordinals_flat_map :
  forall {A} (f : A -> list DocumentChunk) l,
    ordinals (flat_map f l) = flat_map (fun x => ordinals (f x)) l.
Proof.
  intros A f l. unfold ordinals. induction l as [|x l IH]; cbn;
    [reflexivity|].
  rewrite map_app, IH. reflexivity.
Qed.

Lemma chunk_document_sections :
  forall document,
    ordinals (chunk_document self document)
    = if (respect_sections self
          && Chunker.nonempty (doc_sections document))%bool
      then flat_map
             (fun s =>
                map Some
                    (seq 0 (length (_chunk_text self (sec_content s)
                                      (filename (doc_metadata document))
                                      (Some (title s))))))
             (doc_sections document)
      else map Some
               (seq 0 (length (_chunk_text self (doc_content document)
                                 (filename (doc_metadata document)) None))).
Proof.
  intros document. unfold chunk_document.
  rewrite ordinals_with_metadata.
  destruct (respect_sections self && Chunker.nonempty (doc_sections document))%bool.
  - rewrite ordinals_flat_map. apply flat_map_ext. intros s.
    apply chunk_text_numbered.
  - apply chunk_text_numbered.
Qed.

End DocChunkerFacts.

(** Chunk ordinals come from a counter.  In
    [src/document_processor/chunker.py] the counter belongs to one
    [_chunk_text] call: with [respect_sections] and sections present every
    entry of [document.sections] is chunked by its own call, so the
    ordinals of the document are, section after section, [0..n-1] for each
    entry.  In [legal_rag/core/chunker.py] one counter runs over the whole
    document: the chunks carry [0..N-1] in output order, and the output is
    the chunks of the first section, then those of the second, and so on,
    so a later section continues where the previous one stopped. *)
Theorem ordinals_by_counter :
  (forall (self : DocChunker.LegalChunker)
          (document : DocChunker.ProcessedDocument),
      DocChunker.ordinals (DocChunker.chunk_document self document)
      = if (DocChunker.respect_sections self
            && Chunker.nonempty (DocChunker.doc_sections document))%bool
        then flat_map
               (fun s =>
                  map Some
                      (seq 0 (length
                                (DocChunker._chunk_text self
                                   (DocChunker.sec_content s)
                                   (DocChunker.filename
                                      (DocChunker.doc_metadata document))
                                   (Some (DocChunker.title s))))))
               (DocChunker.doc_sections document)
        else map Some
                 (seq 0 (length
                           (DocChunker._chunk_text self
                              (DocChunker.doc_content document)
                              (DocChunker.filename
                                 (DocChunker.doc_metadata document))
                              None))))
  /\ (forall (self : Chunker.LegalChunker) (document : Chunker.Document),
         map (fun c => Chunker.ordinal (Chunker.chunk_id c))
             (Chunker.chunk_document self document)
         = map Some
               (seq 0 (length (Chunker.chunk_document self document))))
  /\ (forall (self : Chunker.LegalChunker) (document : Chunker.Document),
         exists groups : list (list Chunker.DocumentChunk),
           Chunker.chunk_document self document = concat groups
           /\ Forall2
                (fun sec g =>
                   Forall (fun c => Chunker.section c = Chunker.name_of sec) g)
                (Chunker.sections_of document) groups).
Proof.
  split; [|split].
  - apply chunk_document_sections.
  - apply chunk_document_numbered.
  - apply chunk_document_grouped.
Qed.

(** ** The regular-expression fragment *)

Section ReFacts.

Import Re CitationGuard.

Lemma star_sound :
  forall c k s r,
    star c k s = Some r ->
    exists x r', s = x ++ r' /\ Forall (fun a => cls_ok c a = true) x
                 /\ k r' = Some r.
Proof.
  intros c k s. induction s as [|a s IH]; intros r H; cbn in H.
  - exists [], []. auto.
  - destruct (cls_ok c a) eqn:Ea.
    + destruct (star c k s) as [r0|] eqn:Es.
      * inversion H; subst r0. destruct (IH r eq_refl) as (x & r' & -> & Hx & Hk).
        exists (a :: x), r'. split; [reflexivity|]. split; [|exact Hk].
        constructor; assumption.
      * exists [], (a :: s). auto.
    + exists [], (a :: s). auto.
Qed.

Lemma chars_ok_weaken :
  forall it its m, chars_ok its m -> chars_ok (it :: its) m.
Proof.
  intros it its m H. unfold chars_ok in *. rewrite Forall_forall in *.
  intros a Ha. cbn. rewrite (H a Ha). apply orb_true_r.
Qed.

Lemma chars_ok_head :
  forall c q its x,
    Forall (fun a => cls_ok c a = true) x -> chars_ok (It c q :: its) x.
Proof.
  intros c q its x H. unfold chars_ok. rewrite Forall_forall in *.
  intros a Ha. cbn. rewrite (H a Ha). reflexivity.
Qed.

Lemma has_space_app :
  forall x y, has_space (x ++ y) = (has_space x || has_space y)%bool.
Proof. intros x y. unfold has_space. apply existsb_app. Qed.

Lemma has_space_cons :
  forall a m, has_space (a :: m) = (is_space a || has_space m)%bool.
Proof. reflexivity. Qed.

Lemma m_items_sound :
  forall its k s r,
    m_items its k s = Some r ->
    exists m r',
      s = m ++ r' /\ k r' = Some r /\ chars_ok its m
      /\ (mandatory_space its = true -> has_space m = true).
Proof.
  induction its as [|[c q] its IH]; intros k s r H.
  - exists [], s. cbn in H. repeat split; auto. constructor.
  - cbn [m_items] in H. destruct q.
    + (* One *)
      destruct s as [|a s]; [discriminate|].
      destruct (cls_ok c a) eqn:Ea; [|discriminate].
      destruct (IH _ _ _ H) as (m & r' & -> & Hk & Hc & Hs).
      exists (a :: m), r'. repeat split; auto.
      * constructor; [cbn; rewrite Ea; reflexivity|apply chars_ok_weaken; exact Hc].
      * intros Hm. rewrite has_space_cons. cbn in Hm.
        destruct c; cbn in Ea; try (rewrite Hs by exact Hm; apply orb_true_r).
        rewrite Ea. reflexivity.
    + (* Opt *)
      assert (Hskip : m_items its k s = Some r ->
                exists m r', s = m ++ r' /\ k r' = Some r
                  /\ chars_ok (It c Opt :: its) m
                  /\ (mandatory_space (It c Opt :: its) = true ->
                      has_space m = true)).
      { intros H'. destruct (IH _ _ _ H') as (m & r' & -> & Hk & Hc & Hs).
        exists m, r'. repeat split; auto.
        - apply chars_ok_weaken; exact Hc.
        - intros Hm. apply Hs. cbn in Hm. destruct c; exact Hm. }
      destruct s as [|a s]; [apply Hskip; exact H|].
      destruct (cls_ok c a) eqn:Ea; [|apply Hskip; exact H].
      destruct (m_items its k s) as [r0|] eqn:E; [|apply Hskip; exact H].
      inversion H; subst r0.
      destruct (IH _ _ _ E) as (m & r' & -> & Hk & Hc & Hs).
      exists (a :: m), r'. repeat split; auto.
      * constructor; [cbn; rewrite Ea; reflexivity|apply chars_ok_weaken; exact Hc].
      * intros Hm. rewrite has_space_cons, Hs; [apply orb_true_r|].
        cbn in Hm. destruct c; exact Hm.
    + (* Star *)
      destruct (star_sound _ _ _ _ H) as (x & r1 & -> & Hx & H1).
      destruct (IH _ _ _ H1) as (m & r' & -> & Hk & Hc & Hs).
      exists (x ++ m), r'. rewrite app_assoc. repeat split; auto.
      * apply Forall_app. split; [apply chars_ok_head; exact Hx|].
        apply chars_ok_weaken; exact Hc.
      * intros Hm. rewrite has_space_app, Hs; [apply orb_true_r|].
        cbn in Hm. destruct c; exact Hm.
    + (* Plus *)
      destruct s as [|a s]; [discriminate|].
      destruct (cls_ok c a) eqn:Ea; [|discriminate].
      destruct (star_sound _ _ _ _ H) as (x & r1 & -> & Hx & H1).
      destruct (IH _ _ _ H1) as (m & r' & -> & Hk & Hc & Hs).
      exists (a :: x ++ m), r'. rewrite app_assoc. repeat split; auto.
      * constructor; [cbn; rewrite Ea; reflexivity|].
        apply Forall_app. split; [apply chars_ok_head; exact Hx|].
        apply chars_ok_weaken; exact Hc.
      * intros Hm. rewrite has_space_cons. cbn in Hm.
        destruct c; cbn in Ea;
          try (rewrite has_space_app, Hs by exact Hm;
               rewrite !orb_true_r; reflexivity).
        rewrite Ea. reflexivity.
Qed.

Lemma check_ahead_id :
  forall la s r, check_ahead la s = Some r -> r = s.
Proof.
  intros [c|] s r H; cbn in H.
  - destruct s as [|a s]; [discriminate|].
    destruct (cls_ok c a); [congruence|discriminate].
  - congruence.
Qed.

Lemma match_at_sound :
  forall r prev s m,
    match_at r prev s = Some m ->
    chars_ok (body r) m
    /\ (mandatory_space (body r) = true -> has_space m = true).
Proof.
  intros r prev s m H. unfold match_at in H.
  destruct (check_behind (lookbehind r) prev); [|discriminate].
  destruct (m_items (body r) (check_ahead (lookahead r)) s) as [rest|] eqn:E;
    [|discriminate].
  destruct (m_items_sound _ _ _ _ E) as (m0 & r' & -> & Hk & Hc & Hs).
  apply check_ahead_id in Hk. subst rest.
  inversion H; subst m. clear H.
  rewrite length_app, Nat.add_sub, firstn_app, Nat.sub_diag, firstn_all.
  cbn. rewrite app_nil_r. split; assumption.
Qed.

Lemma finditer_scan_sound :
  forall r s prev skip m,
    In m (finditer_scan r prev skip s) ->
    exists prev' s', match_at r prev' s' = Some m.
Proof.
  intros r s. induction s as [|a s IH]; intros prev skip m H.
  - cbn in H. destruct skip; [|destruct H].
    destruct (match_at r prev []) eqn:E; [|destruct H].
    destruct H as [<-|[]]. eauto.
  - cbn in H. destruct skip as [|k]; [|eapply IH; exact H].
    destruct (match_at r prev (a :: s)) eqn:E.
    + destruct H as [<-|H]; [eauto|eapply IH; exact H].
    + eapply IH; exact H.
Qed.

Lemma chars_ok_clean :
  forall its m,
    rejects_underscore its = true -> chars_ok its m -> clean m.
Proof.
  intros its m Hr Hc. unfold clean, chars_ok in *.
  rewrite Forall_forall in *. intros a Ha.
  destruct (char_eqb a "_") eqn:E; [|reflexivity].
  apply Ascii.eqb_eq in E. subst a.
  specialize (Hc _ Ha). apply existsb_exists in Hc.
  destruct Hc as (it & Hit & Hok).
  unfold rejects_underscore in Hr. rewrite forallb_forall in Hr.
  specialize (Hr _ Hit). rewrite Hok in Hr. discriminate.
Qed.

(** Every match of a citation pattern is free of underscores and contains
    whitespace. *)
Lemma citation_matches :
  forall p s m,
    In p CITATION_PATTERNS -> In m (finditer p s) -> citation_like m.
Proof.
  intros p s m Hp Hm. unfold finditer in Hm.
  apply finditer_scan_sound in Hm. destruct Hm as (prev & s' & Hm).
  apply match_at_sound in Hm. destruct Hm as [Hc Hs].
  assert (H : rejects_underscore (body p) = true
              /\ mandatory_space (body p) = true).
  { unfold CITATION_PATTERNS in Hp.
    repeat (destruct Hp as [<-|Hp]; [split; reflexivity|]). destruct Hp. }
  destruct H as [H1 H2]. split; [eapply chars_ok_clean; eassumption|auto].
Qed.

End ReFacts.

(** ** Placeholders *)

Section PlaceholderFacts.

Import CitationGuard.

Lemma startswith_app : forall p r, startswith p (p ++ r) = true.
Proof.
  induction p as [|a p IH]; intros r; cbn; [reflexivity|].
  rewrite char_eqb_refl. apply IH.
Qed.

Lemma startswith_prefix :
  forall p s, startswith p s = true -> exists r, s = p ++ r.
Proof.
  induction p as [|a p IH]; intros s H.
  - exists s. reflexivity.
  - destruct s as [|b s]; [discriminate|]. cbn in H.
    apply andb_true_iff in H. destruct H as [H1 H2].
    apply char_eqb_eq in H1. subst b.
    destruct (IH _ H2) as [r ->]. exists r. reflexivity.
Qed.

Lemma startswith_common :
  forall x p s, startswith (x ++ p) (x ++ s) = startswith p s.
Proof.
  induction x as [|a x IH]; intros p s; cbn; [reflexivity|].
  rewrite char_eqb_refl. apply IH.
Qed.

Lemma replace_scan_skip :
  forall old new x r,
    replace_scan old new (length x) (x ++ r) = replace_scan old new 0 r.
Proof.
  intros old new x. induction x as [|a x IH]; intros r; cbn; [reflexivity|].
  apply IH.
Qed.

Lemma replace_scan_hit :
  forall old new r,
    old <> [] ->
    replace_scan old new 0 (old ++ r) = new ++ replace_scan old new 0 r.
Proof.
  intros old new r Hne. destruct old as [|a o]; [congruence|].
  change ((a :: o) ++ r) with (a :: (o ++ r)).
  cbn [replace_scan].
  change (a :: o ++ r) with ((a :: o) ++ r). rewrite startswith_app.
  replace (length (a :: o) - 1) with (length o) by (cbn; lia).
  rewrite replace_scan_skip. reflexivity.
Qed.

Lemma replace_scan_miss :
  forall old new a s,
    startswith old (a :: s) = false ->
    replace_scan old new 0 (a :: s) = a :: replace_scan old new 0 s.
Proof. intros old new a s H. cbn [replace_scan]. rewrite H. reflexivity. Qed.

(** Decimal digits. *)

Lemma digits_no_space :
  forall d, Forall (fun a => is_space a = false)
                   (list_ascii_of_string (NilEmpty.string_of_uint d)).
Proof.
  induction d; cbn; constructor; try reflexivity; assumption.
Qed.

Lemma str_nat_clean : forall n, clean (str_nat n).
Proof. intros n. apply digits_no_underscore. Qed.

Lemma str_nat_inj : forall n m, str_nat n = str_nat m -> n = m.
Proof.
  intros n m H. apply (f_equal Chunker.parse_nat) in H.
  rewrite !parse_str_nat in H. congruence.
Qed.

Lemma str_nat_cons :
  forall n, exists d ds, str_nat n = d :: ds /\ char_eqb d "_" = false.
Proof.
  intros n. pose proof (str_nat_clean n) as Hc.
  destruct (str_nat n) as [|d ds] eqn:E.
  - exfalso. pose proof (parse_str_nat n) as P. rewrite E in P.
    cbn in P. inversion P; subst n. discriminate E.
  - inversion Hc; subst. eauto.
Qed.

Lemma startswith_cons :
  forall a p b s,
    startswith (a :: p) (b :: s) = (char_eqb a b && startswith p s)%bool.
Proof. reflexivity. Qed.

Lemma char_eqb_sym : forall a b, char_eqb a b = char_eqb b a.
Proof. intros a b. apply Ascii.eqb_sym. Qed.

(** Two underscore-free fields, each closed by an underscore: a prefix
    relation between the texts identifies the first fields. *)
Lemma startswith_field :
  forall u u' v v',
    clean u -> clean u' ->
    startswith (u ++ "_"%char :: v) (u' ++ "_"%char :: v') = true ->
    u = u' /\ startswith v v' = true.
Proof.
  induction u as [|a u IH]; intros u' v v' Hu Hu' H.
  - destruct u' as [|b u'].
    + cbn [app] in H. rewrite startswith_cons, char_eqb_refl in H. auto.
    + cbn [app] in H. rewrite startswith_cons in H.
      inversion Hu' as [|? ? Hb _]; subst.
      rewrite char_eqb_sym, Hb in H. discriminate.
  - inversion Hu as [|? ? Ha Hu0]; subst.
    destruct u' as [|b u'].
    + cbn [app] in H. rewrite startswith_cons, Ha in H. discriminate.
    + cbn [app] in H. rewrite startswith_cons in H.
      apply andb_true_iff in H. destruct H as [H1 H2].
      apply char_eqb_eq in H1. subst b.
      inversion Hu'; subst.
      destruct (IH u' v v' Hu0 ltac:(assumption) H2) as [-> Hv]. auto.
Qed.

Lemma placeholder_shape :
  forall i j,
    placeholder i j
    = prefix11 ++ str_nat i ++ "_"%char :: str_nat j ++ T "__".
Proof. reflexivity. Qed.

Lemma placeholder_match_key :
  forall i j i' j' r,
    startswith (placeholder i j) (placeholder i' j' ++ r) = true ->
    i = i' /\ j = j'.
Proof.
  intros i j i' j' r H. rewrite !placeholder_shape in H.
  rewrite <- !app_assoc in H. rewrite startswith_common in H.
  change (("_"%char :: str_nat j' ++ T "__") ++ r)
    with ("_"%char :: (str_nat j' ++ T "__") ++ r) in H.
  apply startswith_field in H; try apply str_nat_clean.
  destruct H as [Hi H]. apply str_nat_inj in Hi. split; [exact Hi|].
  rewrite <- app_assoc in H.
  change (T "__") with ("_"%char :: T "_") in H.
  change (("_"%char :: T "_") ++ r) with ("_"%char :: (T "_" ++ r)) in H.
  apply startswith_field in H; try apply str_nat_clean.
  destruct H as [Hj _]. apply str_nat_inj in Hj. exact Hj.
Qed.

(** *** Tokens *)

Lemma flat_app : forall ts us, flat (ts ++ us) = flat ts ++ flat us.
Proof. intros ts us. unfold flat. apply flat_map_app. Qed.

Lemma flat_chars : forall s, flat (map Chr s) = s.
Proof.
  induction s as [|a s IH]; [reflexivity|]. cbn. f_equal. exact IH.
Qed.

Lemma toks_clean_chars : forall s, clean s -> toks_clean (map Chr s).
Proof.
  intros s H. unfold toks_clean, clean in *. rewrite Forall_map.
  exact H.
Qed.

Lemma placeholder_head :
  forall i j, exists rest, placeholder i j = "_"%char :: "_"%char :: "C"%char :: rest.
Proof. intros i j. eexists. reflexivity. Qed.

(** A text that starts with an underscore-free word, read off a clean
    token list: the word is spelled by leading character tokens. *)
Lemma prefix_tokens :
  forall w q ts,
    clean w -> toks_clean ts ->
    startswith (w ++ q) (flat ts) = true ->
    exists ts', ts = map Chr w ++ ts' /\ startswith q (flat ts') = true.
Proof.
  induction w as [|a w IH]; intros q ts Hw Hts H.
  - exists ts. auto.
  - inversion Hw as [|? ? Ha Hw0]; subst.
    destruct ts as [|t ts]; [discriminate|].
    inversion Hts as [|? ? Ht Hts0]; subst.
    destruct t as [b|i j].
    + change (flat (Chr b :: ts)) with (b :: flat ts) in H.
      cbn [app] in H. rewrite startswith_cons in H.
      apply andb_true_iff in H. destruct H as [H1 H2].
      apply char_eqb_eq in H1. subst b.
      destruct (IH q ts Hw0 Hts0 H2) as (ts' & -> & Hq).
      exists ts'. auto.
    + change (flat (Ph i j :: ts)) with (placeholder i j ++ flat ts) in H.
      destruct (placeholder_head i j) as [rest E]. rewrite E in H.
      cbn [app] in H. rewrite startswith_cons, Ha in H. discriminate.
Qed.

(** In a clean token list an underscore is the start of a placeholder: no
    text that starts with an underscore and then another character can be
    found at its head. *)
Lemma underscore_then :
  forall d q ts,
    toks_clean ts -> char_eqb d "_" = false ->
    startswith ("_"%char :: d :: q) (flat ts) = false.
Proof.
  intros d q ts Hts Hd. destruct ts as [|t ts]; [reflexivity|].
  inversion Hts as [|? ? Ht _]; subst. destruct t as [b|i j].
  - change (flat (Chr b :: ts)) with (b :: flat ts).
    rewrite startswith_cons, char_eqb_sym, Ht. reflexivity.
  - change (flat (Ph i j :: ts)) with (placeholder i j ++ flat ts).
    destruct (placeholder_head i j) as [rest ->].
    cbn [app]. rewrite !startswith_cons, Hd, andb_false_r. reflexivity.
Qed.

Lemma placeholder_layout :
  forall i j r,
    placeholder i j ++ r
    = "_"%char :: "_"%char :: T "CITATION"
      ++ "_"%char :: str_nat i ++ "_"%char :: str_nat j
      ++ "_"%char :: "_"%char :: r.
Proof.
  intros i j r. rewrite placeholder_shape. unfold prefix11.
  cbn [T list_ascii_of_string app].
  rewrite <- !app_assoc. cbn [app]. rewrite <- !app_assoc. reflexivity.
Qed.

Section Scan.

Variables (i j : nat) (c : text).

Lemma scan_clean_run :
  forall w r,
    clean w ->
    replace_scan (placeholder i j) c 0 (w ++ r) = w ++ replace_scan (placeholder i j) c 0 r.
Proof.
  induction w as [|a w IH]; intros r Hw; [reflexivity|].
  inversion Hw as [|? ? Ha Hw0]; subst. cbn [app].
  rewrite replace_scan_miss; [rewrite IH by exact Hw0; reflexivity|].
  destruct (placeholder_head i j) as [rest ->].
  rewrite startswith_cons, char_eqb_sym, Ha. reflexivity.
Qed.

Lemma scan_underscore :
  forall s,
    startswith (placeholder i j) ("_"%char :: s) = false ->
    replace_scan (placeholder i j) c 0 ("_"%char :: s) = "_"%char :: replace_scan (placeholder i j) c 0 s.
Proof. intros s H. apply replace_scan_miss. exact H. Qed.

(** Shape of [(placeholder i j)] after its first two characters. *)
Lemma P_tail :
  exists d ds,
    (placeholder i j) = "_"%char :: "_"%char :: T "CITATION" ++ "_"%char :: d :: ds
    /\ char_eqb d "_" = false.
Proof.
  destruct (str_nat_cons i) as (d & ds & E & Hd).
  exists d, (ds ++ "_"%char :: str_nat j ++ T "__"). split; [|exact Hd].
  rewrite placeholder_shape, E. reflexivity.
Qed.

Lemma miss_at_end2 :
  forall ts, toks_clean ts ->
             startswith (placeholder i j) ("_"%char :: "_"%char :: flat ts) = false.
Proof.
  intros ts Hts. destruct P_tail as (d & ds & -> & Hd).
  rewrite !startswith_cons, !char_eqb_refl. cbn [andb].
  destruct (startswith (T "CITATION" ++ "_"%char :: d :: ds) (flat ts)) eqn:E;
    [|reflexivity].
  apply prefix_tokens in E; [|repeat constructor|exact Hts].
  destruct E as (ts' & -> & E).
  rewrite underscore_then in E; [discriminate| |exact Hd].
  unfold toks_clean in *. apply Forall_app in Hts. apply Hts.
Qed.

Lemma miss_at_end1 :
  forall ts, toks_clean ts -> startswith (placeholder i j) ("_"%char :: flat ts) = false.
Proof.
  intros ts Hts. destruct P_tail as (d & ds & -> & Hd).
  rewrite startswith_cons, char_eqb_refl. cbn [andb].
  change (T "CITATION") with ("C"%char :: T "ITATION"). cbn [app].
  apply underscore_then; [exact Hts|reflexivity].
Qed.

Lemma scan_other_placeholder :
  forall i' j' ts,
    toks_clean ts ->
    (i, j) <> (i', j') ->
    replace_scan (placeholder i j) c 0 (placeholder i' j' ++ flat ts)
    = placeholder i' j' ++ replace_scan (placeholder i j) c 0 (flat ts).
Proof.
  intros i' j' ts Hts Hkey.
  assert (H0 : startswith (placeholder i j) (placeholder i' j' ++ flat ts) = false).
  { destruct (startswith (placeholder i j) (placeholder i' j' ++ flat ts)) eqn:E;
      [|reflexivity].
    apply placeholder_match_key in E. destruct E; congruence. }
  destruct (str_nat_cons i') as (d1 & ds1 & E1 & Hd1).
  destruct (str_nat_cons j') as (d2 & ds2 & E2 & Hd2).
  pose proof (str_nat_clean i') as Hc1. pose proof (str_nat_clean j') as Hc2.
  rewrite (placeholder_layout i' j') in H0.
  rewrite (placeholder_layout i' j' (flat ts)).
  rewrite (placeholder_layout i' j' (replace_scan (placeholder i j) c 0 (flat ts))).
  destruct P_tail as (d & ds & EP & Hd).
  rewrite scan_underscore by exact H0.
  rewrite scan_underscore
    by (rewrite EP; cbn [T list_ascii_of_string app];
        rewrite !startswith_cons; reflexivity).
  rewrite scan_clean_run by (repeat constructor).
  rewrite scan_underscore
    by (rewrite EP, E1; cbn [app]; rewrite !startswith_cons, (char_eqb_sym _ d1), Hd1,
        andb_false_r; reflexivity).
  rewrite scan_clean_run by exact Hc1.
  rewrite scan_underscore
    by (rewrite EP, E2; cbn [app]; rewrite !startswith_cons, (char_eqb_sym _ d2), Hd2,
        andb_false_r; reflexivity).
  rewrite scan_clean_run by exact Hc2.
  rewrite scan_underscore by (apply miss_at_end2; exact Hts).
  rewrite scan_underscore by (apply miss_at_end1; exact Hts).
  reflexivity.
Qed.

End Scan.

Lemma placeholder_nonempty : forall i j, placeholder i j <> [].
Proof. intros i j. destruct (placeholder_head i j) as [r ->]. discriminate. Qed.

Lemma key_eqb_true :
  forall i j i' j', ((i =? i') && (j =? j'))%bool = true <-> (i, j) = (i', j').
Proof.
  intros. rewrite andb_true_iff, !Nat.eqb_eq. split.
  - intros [-> ->]. reflexivity.
  - intros H. inversion H. auto.
Qed.

(** [restore] of one placeholder, on tokens. *)
Lemma replace_all_flat :
  forall i j c ts,
    toks_clean ts ->
    replace_all (placeholder i j) c (flat ts) = flat (subst i j c ts).
Proof.
  intros i j c ts Hts. unfold replace_all.
  destruct (placeholder i j) as [|p0 p] eqn:EP;
    [exfalso; apply (placeholder_nonempty i j); exact EP|].
  rewrite <- EP. clear p0 p EP.
  induction ts as [|t ts IH]; [reflexivity|].
  inversion Hts as [|? ? Ht Hts0]; subst.
  specialize (IH Hts0).
  destruct t as [a|i' j'].
  - change (flat (Chr a :: ts)) with ([a] ++ flat ts).
    rewrite scan_clean_run by (constructor; [exact Ht|constructor]).
    rewrite IH. reflexivity.
  - change (flat (Ph i' j' :: ts)) with (placeholder i' j' ++ flat ts).
    change (subst i j c (Ph i' j' :: ts))
      with ((if ((i =? i') && (j =? j'))%bool then map Chr c else [Ph i' j'])
            ++ subst i j c ts).
    destruct ((i =? i') && (j =? j'))%bool eqn:E.
    + apply key_eqb_true in E. inversion E; subst i' j'.
      rewrite replace_scan_hit by apply placeholder_nonempty.
      rewrite flat_app, flat_chars, IH. reflexivity.
    + rewrite scan_other_placeholder; [|exact Hts0|].
      * rewrite IH. reflexivity.
      * intros K. apply key_eqb_true in K. congruence.
Qed.

Lemma subst_app :
  forall i j c ts us,
    subst i j c (ts ++ us) = subst i j c ts ++ subst i j c us.
Proof. intros. unfold subst. apply flat_map_app. Qed.

Lemma subst_chars : forall i j c s, subst i j c (map Chr s) = map Chr s.
Proof.
  intros i j c s. induction s as [|a s IH]; [reflexivity|].
  cbn. f_equal. exact IH.
Qed.

Lemma subst_absent :
  forall i j c ts, ~ In (i, j) (keys_of ts) -> subst i j c ts = ts.
Proof.
  intros i j c ts. induction ts as [|t ts IH]; intros H; [reflexivity|].
  destruct t as [a|i' j'].
  - cbn. f_equal. apply IH. exact H.
  - change (subst i j c (Ph i' j' :: ts))
      with ((if ((i =? i') && (j =? j'))%bool then map Chr c else [Ph i' j'])
            ++ subst i j c ts).
    destruct ((i =? i') && (j =? j'))%bool eqn:E.
    + apply key_eqb_true in E. exfalso. apply H. left. congruence.
    + cbn. f_equal. apply IH. intros K. apply H. right. exact K.
Qed.

Lemma subst_single :
  forall i j c i' j',
    subst i j c [Ph i' j']
    = if ((i =? i') && (j =? j'))%bool then map Chr c else [Ph i' j'].
Proof. intros. cbn. apply app_nil_r. Qed.

Lemma subst_comm :
  forall i j c i' j' c' ts,
    (i, j) <> (i', j') ->
    subst i j c (subst i' j' c' ts) = subst i' j' c' (subst i j c ts).
Proof.
  intros i j c i' j' c' ts Hk. induction ts as [|t ts IH]; [reflexivity|].
  change (t :: ts) with ([t] ++ ts). rewrite !subst_app, IH. f_equal.
  destruct t as [a|i0 j0]; [reflexivity|].
  rewrite (subst_single i' j' c'), (subst_single i j c).
  destruct ((i' =? i0) && (j' =? j0))%bool eqn:E1;
    destruct ((i =? i0) && (j =? j0))%bool eqn:E2.
  - apply key_eqb_true in E1, E2. congruence.
  - rewrite subst_chars, subst_single, E1. reflexivity.
  - rewrite subst_chars, subst_single, E2. reflexivity.
  - rewrite !subst_single, E1, E2. reflexivity.
Qed.

Lemma subst_clean :
  forall i j c ts, clean c -> toks_clean ts -> toks_clean (subst i j c ts).
Proof.
  intros i j c ts Hc Hts. induction ts as [|t ts IH]; [constructor|].
  inversion Hts as [|? ? Ht Hts0]; subst.
  change (t :: ts) with ([t] ++ ts). rewrite subst_app.
  apply Forall_app. split; [|apply IH; exact Hts0].
  destruct t as [a|i' j'].
  - constructor; [exact Ht|constructor].
  - rewrite subst_single. destruct ((i =? i') && (j =? j'))%bool.
    + apply toks_clean_chars. exact Hc.
    + constructor; [exact I|constructor].
Qed.

Lemma keys_of_app :
  forall ts us, keys_of (ts ++ us) = keys_of ts ++ keys_of us.
Proof. intros. unfold keys_of. apply flat_map_app. Qed.

Lemma keys_of_chars : forall s, keys_of (map Chr s) = [].
Proof. induction s as [|a s IH]; [reflexivity|exact IH]. Qed.

(** *** Protecting one match *)

Section ReplaceFirst.

Variables (s : text) (i j : nat).
Hypothesis Hs : citation_like s.

Lemma citation_nonempty : exists a s', s = a :: s' /\ char_eqb a "_" = false.
Proof.
  destruct Hs as [Hc Hsp]. destruct s as [|a s']; [discriminate|].
  inversion Hc; subst. eauto.
Qed.

(** A citation cannot start inside a text without whitespace that is
    followed by an underscore. *)
Lemma no_citation_inside :
  forall y r,
    Forall (fun a => is_space a = false) y ->
    startswith s (y ++ "_"%char :: r) = false.
Proof.
  destruct Hs as [Hc Hsp]. clear Hs. revert Hc Hsp.
  generalize s. clear s. intros s Hc Hsp y. revert s Hc Hsp.
  induction y as [|b y IH]; intros s Hc Hsp r Hy.
  - destruct s as [|a s]; [discriminate|]. inversion Hc; subst.
    cbn [app]. rewrite startswith_cons.
    replace (char_eqb a "_") with false by (symmetry; assumption).
    reflexivity.
  - destruct s as [|a s]; [discriminate|].
    inversion Hc as [|? ? Ha Hc0]; subst. inversion Hy as [|? ? Hb Hy0]; subst.
    cbn [app]. rewrite startswith_cons.
    destruct (char_eqb a b) eqn:E; [|reflexivity].
    apply char_eqb_eq in E. subst b. cbn [andb].
    apply IH; [exact Hc0| |exact Hy0].
    rewrite has_space_cons, Hb in Hsp. exact Hsp.
Qed.

Lemma replace_first_miss :
  forall new a t,
    startswith s (a :: t) = false ->
    replace_first s new (a :: t) = a :: replace_first s new t.
Proof. intros new a t H. cbn [replace_first]. rewrite H. reflexivity. Qed.

Lemma replace_first_skip :
  forall new y r,
    Forall (fun a => is_space a = false) y ->
    replace_first s new (y ++ "_"%char :: r)
    = y ++ "_"%char :: replace_first s new r.
Proof.
  intros new y r Hy. induction y as [|b y IH].
  - cbn [app]. apply replace_first_miss.
    apply (no_citation_inside [] r). constructor.
  - inversion Hy as [|? ? Hb Hy0]; subst. cbn [app].
    rewrite replace_first_miss; [rewrite IH by exact Hy0; reflexivity|].
    apply (no_citation_inside (b :: y) r). exact Hy.
Qed.

Lemma placeholder_no_space :
  forall i' j',
    exists y, placeholder i' j' = y ++ ["_"%char]
              /\ Forall (fun a => is_space a = false) y.
Proof.
  intros i' j'.
  exists (prefix11 ++ str_nat i' ++ "_"%char :: str_nat j' ++ T "_").
  split.
  - rewrite placeholder_shape. rewrite <- !app_assoc. cbn [app].
    rewrite <- !app_assoc. reflexivity.
  - apply Forall_app. split; [repeat constructor|].
    apply Forall_app. split; [apply digits_no_space|].
    constructor; [reflexivity|].
    apply Forall_app. split; [apply digits_no_space|repeat constructor].
Qed.

Lemma replace_first_flat :
  forall ts,
    toks_clean ts ->
    ~ In (i, j) (keys_of ts) ->
    exists ts',
      replace_first s (placeholder i j) (flat ts) = flat ts'
      /\ toks_clean ts'
      /\ subst i j s ts' = ts
      /\ incl (keys_of ts') ((i, j) :: keys_of ts).
Proof.
  destruct citation_nonempty as (a0 & s0 & Es & Ha0).
  induction ts as [|t ts IH]; intros Hts Hk.
  - exists []. split; [|split; [constructor|split; [reflexivity|]]].
    + rewrite Es. reflexivity.
    + intros k [].
  - pose proof (Forall_inv Hts) as Ht. pose proof (Forall_inv_tail Hts) as Hts0.
    cbn beta in Ht.
    destruct t as [a|i' j'].
    + destruct (startswith s (flat (Chr a :: ts))) eqn:E.
      * (* the first occurrence starts here *)
        pose proof E as E'.
        rewrite <- (app_nil_r s) in E'.
        apply prefix_tokens in E'; [|apply Hs|exact Hts].
        destruct E' as (ts' & Ets & _).
        exists (Ph i j :: ts'). rewrite Ets in *.
        assert (Hts' : toks_clean ts').
        { unfold toks_clean in Hts. apply Forall_app in Hts. apply Hts. }
        assert (Hk' : ~ In (i, j) (keys_of ts')).
        { intros K. apply Hk. rewrite keys_of_app. apply in_or_app. right.
          exact K. }
        split; [|split; [|split]].
        -- rewrite flat_app, flat_chars in *.
           destruct s as [|a1 s1] eqn:Es1; [discriminate|].
           rewrite <- Es1 in *.
           assert (R : replace_first s (placeholder i j) (s ++ flat ts')
                       = placeholder i j ++ flat ts').
           { destruct (s ++ flat ts') as [|x l] eqn:El.
             - rewrite Es1 in El. discriminate.
             - cbn [replace_first]. rewrite <- El, startswith_app.
               rewrite skipn_app, Nat.sub_diag, skipn_all. reflexivity. }
           exact R.
        -- constructor; [exact I|exact Hts'].
        -- change (Ph i j :: ts') with ([Ph i j] ++ ts').
           rewrite subst_app, (subst_absent _ _ _ ts' Hk').
           rewrite subst_single, !Nat.eqb_refl. reflexivity.
        -- rewrite keys_of_app, keys_of_chars. cbn.
           intros k [<-|K]; [left; reflexivity|right; exact K].
      * destruct (IH Hts0 Hk) as (ts' & R & Hc' & Hsub & Hinc).
        exists (Chr a :: ts'). split; [|split; [|split]].
        -- change (flat (Chr a :: ts)) with (a :: flat ts) in *.
           rewrite replace_first_miss by exact E. rewrite R. reflexivity.
        -- constructor; [exact Ht|exact Hc'].
        -- cbn. f_equal. exact Hsub.
        -- exact Hinc.
    + assert (Hk0 : ~ In (i, j) (keys_of ts)).
      { intros K. apply Hk. right. exact K. }
      destruct (IH Hts0 Hk0) as (ts' & R & Hc' & Hsub & Hinc).
      exists (Ph i' j' :: ts'). split; [|split; [|split]].
      * change (flat (Ph i' j' :: ts)) with (placeholder i' j' ++ flat ts).
        change (flat (Ph i' j' :: ts')) with (placeholder i' j' ++ flat ts').
        destruct (placeholder_no_space i' j') as (y & -> & Hy).
        rewrite <- !app_assoc. cbn [app].
        rewrite replace_first_skip by exact Hy. rewrite R. reflexivity.
      * constructor; [exact I|exact Hc'].
      * change (Ph i' j' :: ts') with ([Ph i' j'] ++ ts').
        rewrite subst_app, Hsub, subst_single.
        destruct ((i =? i') && (j =? j'))%bool eqn:E.
        -- apply key_eqb_true in E. exfalso. apply Hk. left. congruence.
        -- reflexivity.
      * intros k [<-|K]; [right; left; reflexivity|].
        destruct (Hinc k K) as [<-|K']; [left; reflexivity|right; right; exact K'].
Qed.

End ReplaceFirst.

End PlaceholderFacts.

(** ** Citation protection round trip *)

Section RoundTrip.

Import CitationGuard.

Lemma placeholder_inj :
  forall i j i' j', placeholder i j = placeholder i' j' -> (i, j) = (i', j').
Proof.
  intros i j i' j' H.
  destruct (placeholder_match_key i j i' j' []) as [-> ->]; [|reflexivity].
  rewrite app_nil_r, <- H. rewrite <- (app_nil_r (placeholder i j)) at 2.
  apply startswith_app.
Qed.

Lemma key_before_fresh :
  forall i j k, key_before i j k -> k <> (i, j).
Proof.
  intros i j [a b] [H|[H1 H2]] E; inversion E; subst; cbn in *; lia.
Qed.

Lemma dict_set_fresh :
  forall i j m es,
    Forall (key_before i j) (map fst es) ->
    dict_set (placeholder i j) m (map entry_pair es)
    = map entry_pair (es ++ [((i, j), m)]).
Proof.
  intros i j m es H. induction es as [|[[a b] c] es IH]; [reflexivity|].
  inversion H as [|? ? Hk H0]; subst.
  cbn [map entry_pair fst snd dict_set app].
  destruct (text_eqb (placeholder i j) (placeholder a b)) eqn:E.
  - apply text_eqb_eq in E. apply placeholder_inj in E.
    apply key_before_fresh in Hk. congruence.
  - f_equal. apply IH. exact H0.
Qed.

Lemma subst_all_comm :
  forall i j m es ts,
    Forall (key_before i j) (map fst es) ->
    subst i j m (subst_all es ts) = subst_all es (subst i j m ts).
Proof.
  intros i j m es. induction es as [|[[a b] c] es IH]; intros ts H;
    [reflexivity|].
  inversion H as [|? ? Hk H0]; subst.
  cbn [subst_all fold_left fst snd].
  change (fold_left _ es ?x) with (subst_all es x).
  rewrite IH by exact H0. f_equal. apply subst_comm.
  apply key_before_fresh in Hk. congruence.
Qed.

Lemma subst_all_snoc :
  forall es e ts,
    subst_all (es ++ [e]) ts
    = subst (fst (fst e)) (snd (fst e)) (snd e) (subst_all es ts).
Proof. intros es e ts. unfold subst_all. rewrite fold_left_app. reflexivity. Qed.

Lemma restore_flat :
  forall es ts,
    toks_clean ts ->
    Forall (fun e => clean (snd e)) es ->
    _restore_citations (flat ts) (map entry_pair es) = flat (subst_all es ts).
Proof.
  induction es as [|[[a b] c] es IH]; intros ts Hts Hes; [reflexivity|].
  inversion Hes as [|? ? Hc Hes0]; subst. cbn [snd] in Hc.
  unfold _restore_citations in *.
  cbn [map entry_pair fold_left fst snd subst_all].
  rewrite replace_all_flat by exact Hts.
  apply IH; [apply subst_clean; assumption|exact Hes0].
Qed.

Lemma key_before_next :
  forall i j k, key_before i j k -> key_before i (S j) k.
Proof. intros i j k [H|[H1 H2]]; [left; lia|right; lia]. Qed.

Lemma key_before_pattern :
  forall i j k, key_before i j k -> key_before (S i) 0 k.
Proof. intros i j k [H|[H1 H2]]; left; lia. Qed.

Lemma protect_match_inv :
  forall t0 i j st m,
    citation_like m ->
    protect_inv t0 i j st ->
    protect_inv t0 i (S j) (protect_match i st (j, m)).
Proof.
  intros t0 i j [cur cmap] m Hm (ts & es & Hcur & Hts & Hmap & Hkeys & Hvals
                                   & Hinc & Hsub).
  cbn [fst snd] in Hcur, Hmap. subst cur cmap.
  assert (Hfresh : ~ In (i, j) (keys_of ts)).
  { intros K. apply Hinc in K. rewrite Forall_forall in Hkeys.
    apply Hkeys in K. apply key_before_fresh in K. congruence. }
  destruct (replace_first_flat m i j Hm ts Hts Hfresh)
    as (ts' & R & Hts' & Hsub' & Hinc').
  exists ts', (es ++ [((i, j), m)]).
  cbn [protect_match fst snd].
  split; [exact R|]. split; [exact Hts'|].
  split; [apply dict_set_fresh; exact Hkeys|].
  split.
  { rewrite map_app. apply Forall_app. split.
    - eapply Forall_impl; [|exact Hkeys]. apply key_before_next.
    - constructor; [right; cbn; lia|constructor]. }
  split.
  { apply Forall_app. split; [exact Hvals|].
    constructor; [apply Hm|constructor]. }
  split.
  { rewrite map_app. cbn [map fst]. intros k K. apply Hinc' in K.
    apply in_or_app. destruct K as [<-|K]; [right; left; reflexivity|].
    left. apply Hinc. exact K. }
  rewrite subst_all_snoc. cbn [fst snd].
  rewrite subst_all_comm by exact Hkeys. rewrite Hsub'. exact Hsub.
Qed.

Lemma protect_matches_inv :
  forall t0 i ms j st,
    Forall citation_like ms ->
    protect_inv t0 i j st ->
    protect_inv t0 i (j + length ms)
                (fold_left (protect_match i) (enumerate_from j ms) st).
Proof.
  intros t0 i ms. induction ms as [|m ms IH]; intros j st Hms Hst.
  - cbn. rewrite Nat.add_0_r. exact Hst.
  - inversion Hms as [|? ? Hm Hms0]; subst.
    cbn [enumerate_from fold_left length].
    rewrite <- Nat.add_succ_comm. apply IH; [exact Hms0|].
    apply protect_match_inv; assumption.
Qed.

Lemma protect_inv_pattern :
  forall t0 i j st, protect_inv t0 i j st -> protect_inv t0 (S i) 0 st.
Proof.
  intros t0 i j st (ts & es & H1 & H2 & H3 & H4 & H5).
  exists ts, es. repeat (split; [assumption|]).
  split; [|exact H5].
  eapply Forall_impl; [|exact H4]. apply key_before_pattern.
Qed.

Lemma protect_pattern_inv :
  forall t0 i p st,
    In p CITATION_PATTERNS ->
    protect_inv t0 i 0 st ->
    protect_inv t0 (S i) 0 (protect_pattern st (i, p)).
Proof.
  intros t0 i p st Hp Hst. unfold protect_pattern, enumerate.
  apply (protect_inv_pattern t0 i (0 + length (Re.finditer p (fst st)))).
  apply protect_matches_inv; [|exact Hst].
  rewrite Forall_forall. intros m Hm. eapply citation_matches; eassumption.
Qed.

Lemma protect_patterns_inv :
  forall t0 ps i st,
    incl ps CITATION_PATTERNS ->
    protect_inv t0 i 0 st ->
    protect_inv t0 (i + length ps) 0
                (fold_left protect_pattern (enumerate_from i ps) st).
Proof.
  intros t0 ps. induction ps as [|p ps IH]; intros i st Hps Hst.
  - cbn. rewrite Nat.add_0_r. exact Hst.
  - cbn [enumerate_from fold_left length].
    rewrite <- Nat.add_succ_comm. apply IH.
    + intros q Hq. apply Hps. right. exact Hq.
    + apply protect_pattern_inv; [apply Hps; left; reflexivity|exact Hst].
Qed.

(** C1 (amended).  Round trip of the citation guard: for every text that
    contains no underscore, restoring the protected text with the map that
    [_protect_citations] returned gives the original text back, however
    many citations were replaced. *)
Theorem protect_restore_round_trip :
  forall t : text,
    clean t ->
    _restore_citations (fst (_protect_citations t))
                       (snd (_protect_citations t)) = t.
Proof.
  intros t Ht.
  assert (H0 : protect_inv t 0 0 (t, [])).
  { exists (map Chr t), []. cbn [fst snd map].
    split; [symmetry; apply flat_chars|].
    split; [apply toks_clean_chars; exact Ht|].
    split; [reflexivity|]. split; [constructor|]. split; [constructor|].
    split; [rewrite keys_of_chars; intros k []|reflexivity]. }
  pose proof (protect_patterns_inv t CITATION_PATTERNS 0 (t, [])
                (incl_refl _) H0) as H.
  fold (enumerate CITATION_PATTERNS) in H.
  fold (_protect_citations t) in H.
  destruct H as (ts & es & Hcur & Hts & Hmap & _ & Hvals & _ & Hsub).
  rewrite Hcur, Hmap, restore_flat by assumption.
  rewrite Hsub. apply flat_chars.
Qed.

End RoundTrip.

(** A text with three citations. *)
Lemma protect_restore_round_trip_witness :
  CitationGuard.clean Texts.brown
  /\ fst (CitationGuard._protect_citations Texts.brown)
     = T "See __CITATION_4_0__, __CITATION_0_0__ (1954), and __CITATION_2_0__."
  /\ CitationGuard._restore_citations
       (fst (CitationGuard._protect_citations Texts.brown))
       (snd (CitationGuard._protect_citations Texts.brown))
     = Texts.brown.
Proof.
  assert (H : CitationGuard.clean Texts.brown)
    by (repeat constructor).
  split; [exact H|]. split; [vm_compute; reflexivity|].
  exact (protect_restore_round_trip Texts.brown H).
Defined.

(** A text that already contains the placeholder of the first match: both
    occurrences are restored to the citation. *)
Lemma placeholder_in_input_not_restored :
  CitationGuard._restore_citations
    (fst (CitationGuard._protect_citations Texts.with_placeholder))
    (snd (CitationGuard._protect_citations Texts.with_placeholder))
  = T "347 U.S. 483 347 U.S. 483"
  /\ T "347 U.S. 483 347 U.S. 483" <> Texts.with_placeholder.
Proof. split; [vm_compute; reflexivity|vm_compute; discriminate]. Qed.

(** Single underscores in the input are enough to break the round trip:
    the text between the second and the third citation completes a copy of
    the first placeholder, and restoring the first citation rewrites it. *)
Lemma placeholder_formed_by_protection :
  contains (T "__") Texts.single_underscores = false
  /\ fst (CitationGuard._protect_citations Texts.single_underscores)
     = T "__CITATION_0_0__ __CITATION_0_1___CITATION_0_0___CITATION_0_2__"
  /\ CitationGuard._restore_citations
       (fst (CitationGuard._protect_citations Texts.single_underscores))
       (snd (CitationGuard._protect_citations Texts.single_underscores))
     = T "1 U.S. 2 __CITATION_0_1_1 U.S. 2_CITATION_0_2__".
Proof. repeat split; vm_compute; reflexivity. Qed.

(* ================================================================== *)
(** * Further properties of the sources *)
(* ================================================================== *)

(** ** Whitespace at the ends of a text *)

Section ShapeFacts.

Import Shape.

Lemma drop_while_split :
  forall p s,
    exists pre, s = pre ++ drop_while p s /\ Forall (fun a => p a = true) pre.
Proof.
  intros p s. induction s as [|a s (pre & E & F)]; cbn.
  - exists []. split; [reflexivity|constructor].
  - destruct (p a) eqn:Ea.
    + exists (a :: pre). split; [cbn; congruence|constructor; assumption].
    + exists []. split; [reflexivity|constructor].
Qed.

Lemma drop_while_edge :
  forall s, drop_while is_space s = [] \/ edge (drop_while is_space s).
Proof.
  induction s as [|a s IH]; cbn; [left; reflexivity|].
  destruct (is_space a) eqn:Ea; [exact IH|right; exact Ea].
Qed.

Lemma edge_drop_while :
  forall s, edge s -> drop_while is_space s = s.
Proof. intros [|a s] H; cbn in *; [destruct H|rewrite H; reflexivity]. Qed.

Lemma edge_app : forall s t, edge s -> edge (s ++ t).
Proof. intros [|a s] t H; [destruct H|exact H]. Qed.

Lemma edge_nonempty : forall s, edge s -> s <> [].
Proof. intros [|a s] H; [destruct H|discriminate]. Qed.

Lemma strip_trimmed :
  forall s, strip s <> [] -> trimmed (strip s).
Proof.
  intros s Hne. unfold strip, lstrip, rstrip in *.
  set (r := drop_while is_space (rev s)) in *.
  destruct (drop_while_edge (rev r)) as [E|E]; [congruence|].
  split; [exact E|].
  destruct (drop_while_split is_space (rev r)) as (pre & Hr & _).
  apply (f_equal (@rev _)) in Hr. rewrite rev_involutive, rev_app_distr in Hr.
  destruct (drop_while_edge (rev s)) as [E0|E0]; fold r in E0.
  - rewrite E0 in Hne. cbn in Hne. congruence.
  - rewrite Hr in E0.
    destruct (rev (drop_while is_space (rev r))) as [|b l] eqn:El.
    + apply (f_equal (@rev _)) in El. rewrite rev_involutive in El.
      cbn in El. congruence.
    + exact E0.
Qed.

Lemma trimmed_strip :
  forall s, trimmed s -> strip s = s.
Proof.
  intros s [H1 H2]. unfold strip, lstrip, rstrip.
  rewrite (edge_drop_while _ H2), rev_involutive.
  apply edge_drop_while, H1.
Qed.

Lemma trimmed_nonempty : forall s, trimmed s -> s <> [].
Proof. intros s [H _]. apply edge_nonempty, H. Qed.

Lemma truthy_strip_trimmed :
  forall s, truthy (strip s) = true -> trimmed (strip s).
Proof.
  intros s H. apply strip_trimmed. destruct (strip s); [discriminate|discriminate].
Qed.

Lemma join_edge :
  forall sep x l, edge x -> edge (join sep (x :: l)).
Proof.
  intros sep x l H. destruct l; [exact H|]. cbn [join]. apply edge_app, H.
Qed.

Lemma join_rev_edge :
  forall sep l,
    l <> [] -> Forall (fun u => edge (rev u)) l -> edge (rev (join sep l)).
Proof.
  intros sep l. induction l as [|x l IH]; intros Hne F; [congruence|].
  destruct l as [|y l].
  - cbn. apply (Forall_inv F).
  - change (join sep (x :: y :: l)) with (x ++ sep ++ join sep (y :: l)).
    rewrite !rev_app_distr, <- app_assoc. apply edge_app.
    apply IH; [discriminate|apply (Forall_inv_tail F)].
Qed.

Lemma join_trimmed :
  forall sep l, l <> [] -> Forall trimmed l -> trimmed (join sep l).
Proof.
  intros sep l Hne F. split.
  - destruct l as [|x l]; [congruence|].
    apply join_edge. apply (Forall_inv F).
  - apply join_rev_edge; [exact Hne|].
    eapply Forall_impl; [|exact F]. intros u [_ H]. exact H.
Qed.

(** [has_ink] is the truth value of [s.strip()]. *)
Lemma has_ink_app :
  forall s t, has_ink (s ++ t) = (has_ink s || has_ink t)%bool.
Proof. intros s t. unfold has_ink. apply existsb_app. Qed.

Lemma has_ink_rev : forall s, has_ink (rev s) = has_ink s.
Proof.
  induction s as [|a s IH]; [reflexivity|].
  cbn [rev]. rewrite has_ink_app, IH. unfold has_ink. cbn.
  destruct (existsb _ s), (is_space a); reflexivity.
Qed.

Lemma has_ink_drop_while :
  forall s, has_ink (drop_while is_space s) = has_ink s.
Proof.
  induction s as [|a s IH]; [reflexivity|]. cbn.
  destruct (is_space a) eqn:Ea; [exact IH|]. cbn. rewrite Ea. reflexivity.
Qed.

Lemma has_ink_strip : forall s, has_ink (strip s) = has_ink s.
Proof.
  intros s. unfold strip, lstrip, rstrip.
  rewrite has_ink_drop_while, has_ink_rev, has_ink_drop_while, has_ink_rev.
  reflexivity.
Qed.

Lemma edge_has_ink : forall s, edge s -> has_ink s = true.
Proof. intros [|a s] H; [destruct H|]. cbn in *. rewrite H. reflexivity. Qed.

Lemma truthy_strip : forall s, truthy (strip s) = has_ink s.
Proof.
  intros s. rewrite <- has_ink_strip.
  destruct (strip s) as [|a l] eqn:E; [reflexivity|].
  symmetry. apply edge_has_ink. rewrite <- E.
  apply strip_trimmed. rewrite E. discriminate.
Qed.

Lemma has_ink_spaces :
  forall s, Forall (fun a => is_space a = true) s -> has_ink s = false.
Proof.
  induction 1 as [|a s Ha _ IH]; [reflexivity|].
  unfold has_ink in *. cbn. rewrite Ha, IH. reflexivity.
Qed.

End ShapeFacts.

(** ** [re.split] and [str.split] keep every non-blank character *)

Section SplitFacts.

Import Re Shape.

Lemma startswith_split :
  forall p s, startswith p s = true -> exists rest, s = p ++ rest.
Proof.
  induction p as [|a p IH]; intros s H.
  - exists s. reflexivity.
  - destruct s as [|b s]; [discriminate|]. cbn in H.
    apply andb_prop in H. destruct H as [Hab H].
    apply Ascii.eqb_eq in Hab. subst b.
    destruct (IH _ H) as (rest & ->). exists rest. reflexivity.
Qed.

Lemma match_at_prefix :
  forall r prev s m, match_at r prev s = Some m -> exists rest, s = m ++ rest.
Proof.
  intros r prev s m H. unfold match_at in H.
  destruct (check_behind (lookbehind r) prev); [|discriminate].
  destruct (m_items (body r) (check_ahead (lookahead r)) s) as [rest|] eqn:E;
    [|discriminate].
  destruct (m_items_sound _ _ _ _ E) as (m0 & r' & -> & Hk & _).
  apply check_ahead_id in Hk. subst rest.
  inversion H; subst m. clear H.
  rewrite length_app, Nat.add_sub, firstn_app, Nat.sub_diag, firstn_all.
  cbn. rewrite app_nil_r. exists r'. reflexivity.
Qed.

(** The separators of [text.split(sep)] are blank when [sep] is. *)
Lemma py_split_ink :
  forall sep,
    sep <> [] -> Forall (fun a => is_space a = true) sep ->
    forall s skip acc,
      Forall (fun a => is_space a = true) (firstn skip s) ->
      (has_ink acc || has_ink s)%bool = true ->
      Exists (fun p => has_ink p = true) (Py.split_scan sep skip acc s).
Proof.
  intros sep Hne Hsep. induction s as [|a s IH]; intros skip acc Hskip Hink.
  - cbn. constructor. rewrite has_ink_rev.
    cbn in Hink. rewrite orb_false_r in Hink. exact Hink.
  - cbn [Py.split_scan]. destruct skip as [|k].
    + destruct (startswith sep (a :: s)) eqn:E.
      * destruct (has_ink acc) eqn:Ea.
        { constructor. rewrite has_ink_rev. exact Ea. }
        apply Exists_cons_tl.
        destruct (startswith_split _ _ E) as (rest & Hs).
        destruct sep as [|b sep]; [congruence|].
        cbn in Hs. inversion Hs; subst b s. clear Hs.
        replace (length (a :: sep) - 1)%nat with (length sep)
          by (cbn [length]; lia).
        apply IH.
        { rewrite firstn_app, Nat.sub_diag, firstn_all. cbn.
          rewrite app_nil_r. apply (Forall_inv_tail Hsep). }
        cbn in Hink. unfold has_ink in Hink. cbn in Hink.
        rewrite (Forall_inv Hsep) in Hink. cbn in Hink. exact Hink.
      * apply IH; [constructor|].
        unfold has_ink in *. cbn in *.
        destruct (is_space a), (existsb _ acc), (existsb _ s);
          cbn in *; congruence.
    + cbn in Hskip. apply IH; [apply (Forall_inv_tail Hskip)|].
      unfold has_ink in *. cbn in *.
      rewrite (Forall_inv Hskip) in Hink. exact Hink.
Qed.

(** The same for [re.split] with a pattern that matches whitespace only. *)
Lemma re_split_ink :
  forall r,
    (forall m, chars_ok (body r) m -> Forall (fun a => is_space a = true) m) ->
    forall s prev skip acc,
      Forall (fun a => is_space a = true) (firstn skip s) ->
      (has_ink acc || has_ink s)%bool = true ->
      Exists (fun p => has_ink p = true) (Re.split_scan r prev skip acc s).
Proof.
  intros r Hr. induction s as [|a s IH]; intros prev skip acc Hskip Hink.
  - cbn. constructor. rewrite has_ink_rev.
    cbn in Hink. rewrite orb_false_r in Hink. exact Hink.
  - cbn [Re.split_scan]. destruct skip as [|k].
    + assert (Hpush : Exists (fun p => has_ink p = true)
                        (Re.split_scan r (Some a) 0 (a :: acc) s)).
      { apply IH; [constructor|].
        unfold has_ink in *. cbn in *.
        destruct (is_space a), (existsb _ acc), (existsb _ s);
          cbn in *; congruence. }
      destruct (match_at r prev (a :: s)) as [[|b m]|] eqn:E;
        [exact Hpush| |exact Hpush].
      destruct (has_ink acc) eqn:Ea.
      { constructor. rewrite has_ink_rev. exact Ea. }
      apply Exists_cons_tl.
      destruct (match_at_prefix _ _ _ _ E) as (rest & Hs).
      apply match_at_sound in E. destruct E as [Hc _].
      apply Hr in Hc.
      cbn in Hs. inversion Hs; subst b s. clear Hs.
      apply IH.
      { rewrite firstn_app, Nat.sub_diag, firstn_all. cbn.
        rewrite app_nil_r. apply (Forall_inv_tail Hc). }
      cbn in Hink. unfold has_ink in Hink. cbn in Hink.
      rewrite (Forall_inv Hc) in Hink. cbn in Hink. exact Hink.
    + cbn in Hskip. apply IH; [apply (Forall_inv_tail Hskip)|].
      unfold has_ink in *. cbn in *.
      rewrite (Forall_inv Hskip) in Hink. exact Hink.
Qed.

Lemma space_plus_blank :
  forall m, chars_ok [It Space Plus] m -> Forall (fun a => is_space a = true) m.
Proof.
  intros m H. unfold chars_ok in H. eapply Forall_impl; [|exact H].
  intros a Ha. cbn in Ha. rewrite orb_false_r in Ha. exact Ha.
Qed.

End SplitFacts.

(** ** [legal_rag/core/chunker.py]: overlap, chunk texts, identifiers *)

Section ChunkerShape.

Import Chunker ChunkerInv Shape.

Variable self : LegalChunker.
Variable document : Document.

Lemma strip_idem : forall s, strip (strip s) = strip s.
Proof.
  intros s. destruct (strip s) as [|a l] eqn:E; [reflexivity|].
  rewrite <- E. apply trimmed_strip, strip_trimmed. rewrite E. discriminate.
Qed.

Lemma overlap_trimmed :
  forall units,
    truthy (_get_overlap self units) = true ->
    trimmed (_get_overlap self units).
Proof.
  intros units. unfold _get_overlap.
  destruct units as [|u units]; [discriminate|].
  destruct (chunk_overlap self <=? 0)%Z; [discriminate|].
  apply truthy_strip_trimmed.
Qed.

Lemma split_sentences_trimmed :
  forall t s, In s (_split_sentences t) -> trimmed s.
Proof.
  intros t s. unfold _split_sentences. rewrite in_map_iff.
  intros (x & <- & Hx). apply filter_In in Hx. destruct Hx as [_ Hx].
  apply truthy_strip_trimmed, Hx.
Qed.

Lemma split_sentences_some :
  forall p, has_ink p = true -> _split_sentences p <> [].
Proof.
  intros p Hp. unfold _split_sentences, Re.split.
  assert (H : Exists (fun x => has_ink x = true)
                (Re.split_scan sentence_boundary None 0 [] p)).
  { apply re_split_ink; [exact space_plus_blank|constructor|exact Hp]. }
  apply Exists_exists in H. destruct H as (x & Hin & Hx).
  intros E. apply map_eq_nil in E.
  assert (Hf : In x (filter (fun s => truthy (strip s))
                       (Re.split_scan sentence_boundary None 0 [] p))).
  { apply filter_In. split; [exact Hin|]. rewrite truthy_strip. exact Hx. }
  rewrite E in Hf. destruct Hf.
Qed.

Lemma flush_tidy :
  forall sep st name next,
    tidy st -> nonempty (current_chunk st) = true -> Forall trimmed next ->
    tidy {| chunks := chunks st ++
                      [_create_chunk (join sep (current_chunk st)) document
                                     name (chunk_index st)];
            chunk_index := S (chunk_index st);
            current_chunk := next;
            current_size := sum_len next |}.
Proof.
  intros sep st name next [Hb Hc] Hne Hnext. split; cbn [current_chunk chunks].
  - exact Hnext.
  - apply Forall_app. split; [exact Hc|]. constructor; [|constructor].
    cbn [content _create_chunk]. apply join_trimmed; [|exact Hb].
    destruct (current_chunk st); [discriminate|discriminate].
Qed.

Lemma tidy_ext :
  forall st st',
    chunks st = chunks st' -> current_chunk st = current_chunk st' ->
    tidy st -> tidy st'.
Proof. intros st st' E1 E2 [H1 H2]. split; [rewrite <- E2|rewrite <- E1]; assumption. Qed.

Lemma restart_trimmed :
  forall units unit,
    trimmed unit ->
    Forall trimmed (if truthy (_get_overlap self units)
                    then [_get_overlap self units; unit] else [unit]).
Proof.
  intros units unit Hu.
  destruct (truthy (_get_overlap self units)) eqn:E.
  - constructor; [apply overlap_trimmed, E|]. constructor; [exact Hu|constructor].
  - constructor; [exact Hu|constructor].
Qed.

Lemma add_sentence_tidy :
  forall name st sentence,
    tidy st -> trimmed sentence ->
    tidy (add_sentence self document name st sentence).
Proof.
  intros name st sentence Hst Hs. unfold add_sentence.
  destruct (_ && _)%bool eqn:E.
  - apply andb_prop in E. destruct E as [_ Hne].
    eapply tidy_ext; [| |apply (flush_tidy (T " ") st name _ Hst Hne
                                   (restart_trimmed (current_chunk st) sentence Hs))];
      reflexivity.
  - destruct Hst as [Hb Hc]. split; cbn [current_chunk chunks]; [|exact Hc].
    apply Forall_app. split; [exact Hb|]. constructor; [exact Hs|constructor].
Qed.

Lemma fold_sentences_tidy :
  forall name l st,
    tidy st -> Forall trimmed l ->
    tidy (fold_left (add_sentence self document name) l st).
Proof.
  intros name l. induction l as [|x l IH]; intros st Hst Hl; [exact Hst|].
  cbn [fold_left]. apply IH; [|apply (Forall_inv_tail Hl)].
  apply add_sentence_tidy; [exact Hst|apply (Forall_inv Hl)].
Qed.

Lemma add_paragraph_tidy :
  forall name st raw,
    tidy st -> tidy (add_paragraph self document name st raw).
Proof.
  intros name st raw Hst. unfold add_paragraph.
  destruct (truthy (strip raw)) eqn:Hp; [|exact Hst]. cbn [negb].
  pose proof (truthy_strip_trimmed _ Hp) as Ht.
  destruct (_ >? _)%Z.
  - apply fold_sentences_tidy; [exact Hst|].
    apply Forall_forall. intros s Hs. eapply split_sentences_trimmed, Hs.
  - destruct (_ && _)%bool eqn:E.
    + apply andb_prop in E. destruct E as [_ Hne].
      eapply tidy_ext; [| |apply (flush_tidy (NL ++ NL) st name _ Hst Hne
                                     (restart_trimmed (current_chunk st) _ Ht))];
        reflexivity.
    + destruct Hst as [Hb Hc]. split; cbn [current_chunk chunks]; [|exact Hc].
      apply Forall_app. split; [exact Hb|]. constructor; [exact Ht|constructor].
Qed.

Lemma fold_paragraphs_tidy :
  forall name l st,
    tidy st -> tidy (fold_left (add_paragraph self document name) l st).
Proof.
  intros name l. induction l as [|x l IH]; intros st Hst; [exact Hst|].
  cbn [fold_left]. apply IH, add_paragraph_tidy, Hst.
Qed.

Lemma add_section_tidy :
  forall acc sec,
    Forall (fun c => trimmed (content c)) (fst acc) ->
    Forall (fun c => trimmed (content c))
           (fst (add_section self document acc sec)).
Proof.
  intros acc sec Hacc. unfold add_section.
  destruct (negb _); [exact Hacc|].
  match goal with
  | |- context [fold_left ?f ?l ?s0] =>
      assert (H : tidy (fold_left f l s0));
      [apply fold_paragraphs_tidy; split; [constructor|exact Hacc]|];
      set (st := fold_left f l s0) in *
  end.
  destruct (nonempty (current_chunk st)) eqn:Hne; cbn [fst]; [|apply H].
  destruct H as [Hb Hc]. apply Forall_app. split; [exact Hc|].
  constructor; [|constructor]. cbn [content _create_chunk].
  apply join_trimmed; [|exact Hb].
  destruct (current_chunk st); [discriminate|discriminate].
Qed.

Lemma sections_tidy :
  forall l acc,
    Forall (fun c => trimmed (content c)) (fst acc) ->
    Forall (fun c => trimmed (content c))
           (fst (fold_left (add_section self document) l acc)).
Proof.
  induction l as [|sec l IH]; intros acc Hacc; [exact Hacc|].
  cbn [fold_left]. apply IH, add_section_tidy, Hacc.
Qed.

End ChunkerShape.

Section ChunkerBlocks.

Import Chunker ChunkerInv Shape.

Variable self : LegalChunker.
Variable document : Document.

Lemma add_sentence_buffer :
  forall name st sentence,
    current_chunk (add_sentence self document name st sentence) <> [].
Proof.
  intros name st sentence. unfold add_sentence.
  destruct (_ && _)%bool; cbn [current_chunk].
  - destruct (truthy _); discriminate.
  - destruct (current_chunk st); discriminate.
Qed.

Lemma fold_sentences_buffer :
  forall name l st,
    current_chunk st <> [] \/ l <> [] ->
    current_chunk (fold_left (add_sentence self document name) l st) <> [].
Proof.
  intros name l. induction l as [|x l IH]; intros st H.
  - destruct H as [H|H]; [exact H|congruence].
  - cbn [fold_left]. apply IH. left. apply add_sentence_buffer.
Qed.

Lemma add_paragraph_buffer :
  forall name st raw,
    current_chunk st <> [] \/ has_ink raw = true ->
    current_chunk (add_paragraph self document name st raw) <> [].
Proof.
  intros name st raw H. unfold add_paragraph.
  rewrite truthy_strip.
  destruct (has_ink raw) eqn:Hr; cbn [negb].
  - destruct (_ >? _)%Z.
    + apply fold_sentences_buffer. right.
      apply split_sentences_some. rewrite has_ink_strip. exact Hr.
    + destruct (_ && _)%bool; cbn [current_chunk].
      * destruct (truthy _); discriminate.
      * destruct (current_chunk st); discriminate.
  - destruct H as [H|H]; [exact H|discriminate].
Qed.

Lemma fold_paragraphs_buffer :
  forall name l st,
    current_chunk st <> [] \/ Exists (fun p => has_ink p = true) l ->
    current_chunk (fold_left (add_paragraph self document name) l st) <> [].
Proof.
  intros name l. induction l as [|x l IH]; intros st H.
  - destruct H as [H|H]; [exact H|inversion H].
  - cbn [fold_left]. apply IH.
    destruct H as [H|H].
    + left. apply add_paragraph_buffer. left. exact H.
    + inversion H; subst.
      * left. apply add_paragraph_buffer. right. assumption.
      * right. assumption.
Qed.

Lemma blank_line_blank : Forall (fun a => is_space a = true) (NL ++ NL).
Proof. repeat constructor. Qed.

(** What one section adds: a block of chunks labelled with its name, empty
    exactly when the section text is blank. *)
Lemma add_section_block :
  forall acc sec,
    exists g,
      fst (add_section self document acc sec) = fst acc ++ g
      /\ Forall (fun c => section c = name_of sec) g
      /\ (g = [] <-> truthy (strip (text_of sec)) = false).
Proof.
  intros acc sec. unfold add_section. fold (text_of sec).
  destruct (truthy (strip (text_of sec))) eqn:Ht; cbn [negb].
  - match goal with
    | |- context [fold_left ?f ?l ?s0] =>
        pose proof (fold_grows (name_of sec) f l s0
                      (add_paragraph_grows self document (name_of sec))) as H;
        assert (Hb : current_chunk (fold_left f l s0) <> []);
        [|set (st := fold_left f l s0) in *]
    end.
    { apply fold_paragraphs_buffer. right.
      apply py_split_ink;
        [discriminate|exact blank_line_blank|constructor|].
      rewrite truthy_strip in Ht. exact Ht. }
    destruct H as (g & Eg & Fg). cbn [chunks] in Eg.
    destruct (current_chunk st) eqn:Ec; [congruence|]. cbn [nonempty fst].
    eexists (g ++ [_]). split; [rewrite Eg, <- app_assoc; reflexivity|].
    split.
    + apply Forall_app. split; [exact Fg|]. constructor; [reflexivity|constructor].
    + split; [|discriminate]. intros E. apply app_eq_nil in E.
      destruct E as [_ E]. discriminate.
  - exists []. rewrite app_nil_r. split; [reflexivity|].
    split; [constructor|]. split; reflexivity.
Qed.

Lemma sections_blocks :
  forall l acc,
    exists groups,
      fst (fold_left (add_section self document) l acc)
      = fst acc ++ concat groups
      /\ Forall2 (fun sec g =>
                    Forall (fun c => section c = name_of sec) g
                    /\ (g = [] <-> truthy (strip (text_of sec)) = false))
                 l groups.
Proof.
  induction l as [|sec l IH]; intros acc.
  - exists []. cbn. rewrite app_nil_r. split; [reflexivity|constructor].
  - cbn [fold_left].
    destruct (IH (add_section self document acc sec)) as (groups & E & F).
    destruct (add_section_block acc sec) as (g & Eg & Hg).
    exists (g :: groups). split.
    + rewrite E, Eg. cbn [concat]. rewrite app_assoc. reflexivity.
    + constructor; assumption.
Qed.

End ChunkerBlocks.

Lemma nodup_map_some :
  forall {A} (l : list A), NoDup l -> NoDup (map Some l).
Proof.
  intros A l H. induction H as [|x l Hx _ IH]; cbn; constructor; [|exact IH].
  rewrite in_map_iff. intros (y & E & Hy). inversion E; subst y. contradiction.
Qed.

(** X1.  [_get_overlap] returns a text of at most [max(0, chunk_overlap)]
    characters, with no whitespace at its ends, and the empty text when
    [chunk_overlap] is not positive. *)
Theorem get_overlap_bounded :
  forall (self : Chunker.LegalChunker) (units : list text),
    (len (Chunker._get_overlap self units)
     <= Z.max 0 (Chunker.chunk_overlap self))%Z
    /\ strip (Chunker._get_overlap self units) = Chunker._get_overlap self units
    /\ ((Chunker.chunk_overlap self <= 0)%Z ->
        Chunker._get_overlap self units = []).
Proof.
  intros self units. split; [apply get_overlap_len|]. split.
  - unfold Chunker._get_overlap. destruct units; [reflexivity|].
    destruct (Chunker.chunk_overlap self <=? 0)%Z; [reflexivity|].
    apply strip_idem.
  - intros H. unfold Chunker._get_overlap. destruct units; [reflexivity|].
    apply Z.leb_le in H. rewrite H. reflexivity.
Qed.

(** X2.  The chunk ids that [chunk_document] gives to the chunks of one
    document are pairwise distinct. *)
Theorem chunk_ids_distinct :
  forall (self : Chunker.LegalChunker) (document : Chunker.Document),
    NoDup (map Chunker.chunk_id (Chunker.chunk_document self document)).
Proof.
  intros self document.
  pose proof (chunk_document_numbered self document) as H.
  rewrite <- (map_map Chunker.chunk_id Chunker.ordinal) in H.
  apply (NoDup_map_inv Chunker.ordinal). rewrite H.
  apply nodup_map_some, seq_NoDup.
Qed.

(** X3.  No chunk of [chunk_document] is empty, and none starts or ends
    with whitespace: [content == content.strip() != ""]. *)
Theorem chunk_contents_trimmed :
  forall (self : Chunker.LegalChunker) (document : Chunker.Document),
    Forall (fun c => Chunker.content c <> []
                     /\ strip (Chunker.content c) = Chunker.content c)
           (Chunker.chunk_document self document).
Proof.
  intros self document. unfold Chunker.chunk_document.
  eapply Forall_impl;
    [|apply (sections_tidy self document); constructor].
  intros c H. split; [apply trimmed_nonempty, H|apply trimmed_strip, H].
Qed.

(** X4.  The output of [chunk_document] is one block of chunks per section,
    in section order; the chunks of a block carry the section's name, and a
    block is empty exactly when the text of its section is blank. *)
Theorem chunk_document_blocks :
  forall (self : Chunker.LegalChunker) (document : Chunker.Document),
    exists groups,
      Chunker.chunk_document self document = concat groups
      /\ Forall2 (fun sec g =>
                    Forall (fun c => Chunker.section c = Chunker.name_of sec) g
                    /\ (g = [] <->
                        truthy (strip (ChunkerInv.text_of sec)) = false))
                 (Chunker.sections_of document) groups.
Proof.
  intros self document.
  destruct (sections_blocks self document (Chunker.sections_of document)
              ([], 0%nat)) as (groups & E & F).
  exists groups. split; [exact E|exact F].
Qed.

(** ** [src/document_processor/chunker.py]: [_chunk_text] *)

Section DocChunkerShape.

Import DocChunker DocChunkerInv Shape.

Variable self : LegalChunker.

Lemma strip_len : forall s, (len (strip s) <= len s)%Z.
Proof.
  intros s. unfold strip, lstrip, rstrip, len.
  pose proof (drop_while_len is_space
                (rev (drop_while is_space (rev s)))) as H1.
  pose proof (drop_while_len is_space (rev s)) as H2.
  rewrite length_rev in H1, H2. lia.
Qed.

Lemma labelled_snoc :
  forall doc_id section st current,
    labelled doc_id section st ->
    truthy (strip current) = true ->
    labelled doc_id section
      {| chunks := chunks st ++
                   [make_chunk current doc_id section (chunk_idx st)];
         current_chunk := current;
         chunk_idx := S (chunk_idx st) |}.
Proof.
  intros doc_id section st current [Ht Hi] Hc. split; cbn [chunks chunk_idx].
  - apply Forall_app. split; [exact Ht|]. constructor; [|constructor].
    cbn [make_chunk content]. apply truthy_strip_trimmed, Hc.
  - rewrite map_app, seq_S, map_app, Hi. reflexivity.
Qed.

Lemma labelled_ext :
  forall doc_id section st st',
    chunks st = chunks st' -> chunk_idx st = chunk_idx st' ->
    labelled doc_id section st -> labelled doc_id section st'.
Proof.
  intros doc_id section st st' E1 E2 H. unfold labelled in *.
  rewrite <- E1, <- E2. exact H.
Qed.

Lemma add_para_labelled :
  forall doc_id section st para,
    labelled doc_id section st ->
    labelled doc_id section (add_para self doc_id section st para).
Proof.
  intros doc_id section st para H. unfold add_para.
  destruct (_ >? _)%Z.
  - destruct (truthy (strip (current_chunk st))) eqn:E.
    + eapply labelled_ext;
        [| |apply (labelled_snoc _ _ _ (current_chunk st) H E)]; reflexivity.
    + eapply labelled_ext; [| |exact H]; reflexivity.
  - eapply labelled_ext; [| |exact H]; reflexivity.
Qed.

Lemma fold_labelled :
  forall doc_id section l st,
    labelled doc_id section st ->
    labelled doc_id section (fold_left (add_para self doc_id section) l st).
Proof.
  intros doc_id section l. induction l as [|p l IH]; intros st H; [exact H|].
  cbn [fold_left]. apply IH, add_para_labelled, H.
Qed.

Lemma chunk_text_labelled :
  forall t doc_id section,
    exists n,
      Forall (fun c => trimmed (content c)) (_chunk_text self t doc_id section)
      /\ map chunk_id (_chunk_text self t doc_id section)
         = map (id_of doc_id section) (seq 0 n).
Proof.
  intros t doc_id section. unfold _chunk_text.
  match goal with
  | |- context [fold_left ?f ?l ?s0] =>
      assert (H : labelled doc_id section (fold_left f l s0));
      [apply fold_labelled; split; [constructor|reflexivity]|];
      set (st := fold_left f l s0) in *
  end.
  destruct (truthy (strip (current_chunk st))) eqn:E.
  - exists (S (chunk_idx st)).
    apply (labelled_snoc _ _ _ (current_chunk st) H E).
  - exists (chunk_idx st). exact H.
Qed.

Lemma add_para_sized :
  forall m doc_id section st para,
    (chunk_size self <= m)%Z -> (len para <= m)%Z ->
    sized (m + Z.max 0 (chunk_overlap self) + 2) st ->
    sized (m + Z.max 0 (chunk_overlap self) + 2)
          (add_para self doc_id section st para).
Proof.
  intros m doc_id section st para Hm Hp [Hc Hb].
  pose proof (len_nonneg para) as Hp0.
  assert (HNL : len NL = 1%Z) by reflexivity.
  unfold add_para.
  destruct (len (current_chunk st) + len para >? chunk_size self)%Z eqn:E.
  - split; cbn [chunks current_chunk].
    + destruct (truthy (strip (current_chunk st))) eqn:Et; [|exact Hc].
      apply Forall_app. split; [exact Hc|]. constructor; [|constructor].
      cbn [make_chunk content].
      pose proof (strip_len (current_chunk st)) as Hs.
      destruct Hb as [Hb|Hb]; [rewrite Hb in Et; discriminate|lia].
    + right.
      destruct (chunk_overlap self >? 0)%Z eqn:Eo; cbn [andb]; [|lia].
      destruct (truthy (current_chunk st)); [|lia].
      apply Z.gtb_lt in Eo.
      pose proof (last_chars_len (Z.to_nat (chunk_overlap self))
                    (current_chunk st)) as Hl.
      rewrite !len_app, HNL. unfold len at 1. lia.
  - rewrite Z.gtb_ltb, Z.ltb_ge in E.
    pose proof (len_nonneg (current_chunk st)) as Hc0.
    split; cbn [chunks current_chunk]; [exact Hc|]. right.
    destruct (truthy (current_chunk st)); rewrite !len_app; rewrite ?HNL; lia.
Qed.

Lemma fold_sized :
  forall m doc_id section l st,
    (chunk_size self <= m)%Z ->
    Forall (fun p => (len p <= m)%Z) l ->
    sized (m + Z.max 0 (chunk_overlap self) + 2) st ->
    sized (m + Z.max 0 (chunk_overlap self) + 2)
          (fold_left (add_para self doc_id section) l st).
Proof.
  intros m doc_id section l. induction l as [|p l IH]; intros st Hm Hl H;
    [exact H|].
  cbn [fold_left]. apply IH; [exact Hm|apply (Forall_inv_tail Hl)|].
  apply add_para_sized; [exact Hm|apply (Forall_inv Hl)|exact H].
Qed.

End DocChunkerShape.

(** X5.  Every chunk of [_chunk_text] is at most
    [m + max(0, chunk_overlap) + 2] characters long, where [m] bounds
    [chunk_size] and the length of every unit that
    [_split_into_paragraphs] returns for the text; with all units within
    [chunk_size] the bound is [chunk_size + max(0, chunk_overlap) + 2]. *)
Theorem chunk_text_size_bound :
  forall (self : DocChunker.LegalChunker) (t doc_id : text)
         (section : option text) (m : Z),
    (DocChunker.chunk_size self <= m)%Z ->
    Forall (fun p => (len p <= m)%Z)
           (DocChunker._split_into_paragraphs self t) ->
    Forall (fun c => (len (DocChunker.content c)
                      <= m + Z.max 0 (DocChunker.chunk_overlap self) + 2)%Z)
           (DocChunker._chunk_text self t doc_id section).
Proof.
  intros self t doc_id section m Hm Hl. unfold DocChunker._chunk_text.
  match goal with
  | |- context [fold_left ?f ?l ?s0] =>
      assert (H : DocChunkerInv.sized
                    (m + Z.max 0 (DocChunker.chunk_overlap self) + 2)
                    (fold_left f l s0));
      [apply fold_sized; [exact Hm|exact Hl|split; [constructor|left; reflexivity]]|];
      set (st := fold_left f l s0) in *
  end.
  destruct H as [Hc Hb].
  destruct (truthy (strip (DocChunker.current_chunk st))) eqn:E; [|exact Hc].
  apply Forall_app. split; [exact Hc|]. constructor; [|constructor].
  cbn [DocChunker.make_chunk DocChunker.content].
  pose proof (strip_len (DocChunker.current_chunk st)) as Hs.
  destruct Hb as [Hb|Hb]; [rewrite Hb in E; discriminate|lia].
Qed.

(** Two ten-character paragraphs with [chunk_size = 10] and
    [chunk_overlap = 5]: the second chunk has 10 + 5 + 2 characters. *)
Lemma chunk_text_size_bound_witness :
  map (fun c => len (DocChunker.content c))
      (DocChunker._chunk_text DocSamples.chunker DocSamples.two_paragraphs
                              (T "f.txt") None)
  = [10; 17]%Z
  /\ Forall (fun c => (len (DocChunker.content c) <= 10 + Z.max 0 5 + 2)%Z)
            (DocChunker._chunk_text DocSamples.chunker
                                    DocSamples.two_paragraphs (T "f.txt") None).
Proof.
  split; [vm_compute; reflexivity|].
  apply (chunk_text_size_bound DocSamples.chunker DocSamples.two_paragraphs
           (T "f.txt") None 10).
  - cbn. lia.
  - vm_compute. repeat constructor; discriminate.
Defined.

Section DocChunkerIds.

Import DocChunker DocChunkerInv Shape.

Variable self : LegalChunker.

Lemma id_of_inj :
  forall doc_id s1 s2 k1 k2,
    id_of doc_id s1 k1 = id_of doc_id s2 k2 ->
    section_label s1 = section_label s2 /\ k1 = k2.
Proof.
  intros doc_id s1 s2 k1 k2 E. unfold id_of in E.
  apply app_inv_head in E. apply app_inv_head in E.
  assert (Hk : k1 = k2).
  { apply (f_equal Chunker.ordinal) in E.
    rewrite !ordinal_of_id in E. congruence. }
  subst k2. split; [|reflexivity].
  apply app_inv_tail in E. exact E.
Qed.

Lemma ids_nodup :
  forall doc_id section n, NoDup (map (id_of doc_id section) (seq 0 n)).
Proof.
  intros doc_id section n.
  assert (H : forall l, NoDup l -> NoDup (map (id_of doc_id section) l)).
  { intros l Hl. induction Hl as [|x l Hx _ IH]; cbn; constructor; [|exact IH].
    rewrite in_map_iff. intros (y & E & Hy).
    apply id_of_inj in E. destruct E as [_ ->]. contradiction. }
  apply H, seq_NoDup.
Qed.

Lemma chunk_text_ids_nodup :
  forall t doc_id section,
    NoDup (map chunk_id (_chunk_text self t doc_id section)).
Proof.
  intros t doc_id section.
  destruct (chunk_text_labelled self t doc_id section) as (n & _ & ->).
  apply ids_nodup.
Qed.

Lemma chunk_text_id_label :
  forall t doc_id section x,
    In x (map chunk_id (_chunk_text self t doc_id section)) ->
    exists k, x = id_of doc_id section k.
Proof.
  intros t doc_id section x.
  destruct (chunk_text_labelled self t doc_id section) as (n & _ & ->).
  rewrite in_map_iff. intros (k & <- & _). exists k. reflexivity.
Qed.

Lemma nodup_app_disjoint :
  forall {A} (a b : list A),
    NoDup a -> NoDup b -> (forall x, In x a -> ~ In x b) -> NoDup (a ++ b).
Proof.
  intros A a b Ha Hb Hd. induction Ha as [|x xs Hx _ IH]; cbn; [exact Hb|].
  constructor.
  - rewrite in_app_iff. intros [H|H]; [contradiction|].
    apply (Hd x); [left; reflexivity|exact H].
  - apply IH. intros y Hy. apply Hd. right. exact Hy.
Qed.

Lemma sections_ids_nodup :
  forall doc_id l,
    NoDup (map label_of l) ->
    NoDup (map chunk_id
             (flat_map (fun s => _chunk_text self (sec_content s) doc_id
                                             (Some (title s))) l)).
Proof.
  intros doc_id l. induction l as [|s l IH]; intros Hl; [constructor|].
  cbn [flat_map]. rewrite map_app.
  inversion Hl as [|? ? Hs Hl']; subst.
  assert (Hd : forall x,
             In x (map chunk_id (_chunk_text self (sec_content s) doc_id
                                             (Some (title s)))) ->
             ~ In x (map chunk_id
                       (flat_map (fun s => _chunk_text self (sec_content s)
                                             doc_id (Some (title s))) l))).
  { intros x Hx Hx'. apply chunk_text_id_label in Hx. destruct Hx as (k & ->).
    rewrite in_map_iff in Hx'. destruct Hx' as (c & Ec & Hc).
    apply in_flat_map in Hc. destruct Hc as (s' & Hs' & Hc).
    assert (Hin : In (chunk_id c)
                     (map chunk_id (_chunk_text self (sec_content s') doc_id
                                                (Some (title s')))))
      by (apply in_map; exact Hc).
    apply chunk_text_id_label in Hin. destruct Hin as (k' & Ek).
    rewrite Ek in Ec. apply id_of_inj in Ec. destruct Ec as [El _].
    apply Hs. unfold label_of at 1. rewrite <- El.
    apply (in_map label_of). exact Hs'. }
  apply nodup_app_disjoint;
    [apply chunk_text_ids_nodup|apply IH; exact Hl'|exact Hd].
Qed.

End DocChunkerIds.

(** X6.  No chunk of the [chunk_document] of [src/document_processor] is
    empty or starts or ends with whitespace. *)
Theorem doc_chunk_contents_trimmed :
  forall (self : DocChunker.LegalChunker)
         (document : DocChunker.ProcessedDocument),
    Forall (fun c => DocChunker.content c <> []
                     /\ strip (DocChunker.content c) = DocChunker.content c)
           (DocChunker.chunk_document self document).
Proof.
  intros self document. unfold DocChunker.chunk_document.
  apply Forall_map.
  assert (H : forall t section,
             Forall (fun c : DocChunker.DocumentChunk =>
                       DocChunker.content c <> []
                       /\ strip (DocChunker.content c) = DocChunker.content c)
                    (DocChunker._chunk_text self t
                       (DocChunker.filename (DocChunker.doc_metadata document))
                       section)).
  { intros t section.
    destruct (chunk_text_labelled self t
                (DocChunker.filename (DocChunker.doc_metadata document))
                section) as (n & Ht & _).
    eapply Forall_impl; [|exact Ht].
    intros c Hc. split; [apply trimmed_nonempty, Hc|apply trimmed_strip, Hc]. }
  destruct (_ && _)%bool; [|apply H].
  apply Forall_flat_map. apply Forall_forall. intros s _. apply H.
Qed.

(** X7.  When the sections of a document have pairwise different labels
    (the title, or [main] for an empty title), the chunk ids of
    [chunk_document] are pairwise distinct. *)
Theorem doc_chunk_ids_distinct :
  forall (self : DocChunker.LegalChunker)
         (document : DocChunker.ProcessedDocument),
    NoDup (map DocChunkerInv.label_of (DocChunker.doc_sections document)) ->
    NoDup (map DocChunker.chunk_id (DocChunker.chunk_document self document)).
Proof.
  intros self document Hl. unfold DocChunker.chunk_document.
  rewrite map_map. cbn [DocChunker.with_document_metadata DocChunker.chunk_id].
  change (fun x : DocChunker.DocumentChunk => DocChunker.chunk_id x)
    with DocChunker.chunk_id.
  destruct (_ && _)%bool.
  - apply sections_ids_nodup, Hl.
  - apply chunk_text_ids_nodup.
Qed.

(** Two sections with different titles; with the same title twice the two
    chunks get the same id. *)
Lemma doc_chunk_ids_distinct_witness :
  NoDup (map DocChunkerInv.label_of
           (DocChunker.doc_sections DocSamples.two_sections))
  /\ NoDup (map DocChunker.chunk_id
              (DocChunker.chunk_document DocSamples.chunker
                                         DocSamples.two_sections)).
Proof.
  assert (H : NoDup (map DocChunkerInv.label_of
                       (DocChunker.doc_sections DocSamples.two_sections))).
  { vm_compute. repeat constructor; cbn; intuition discriminate. }
  split; [exact H|].
  exact (doc_chunk_ids_distinct DocSamples.chunker DocSamples.two_sections H).
Defined.

Lemma doc_chunk_ids_collide :
  map DocChunker.chunk_id
      (DocChunker.chunk_document DocSamples.chunker DocSamples.same_title)
  = [T "f.txt_ORDER_0"; T "f.txt_ORDER_0"].
Proof. vm_compute. reflexivity. Qed.

(** ** The citation guard: extraction and the placeholder map *)

Section GuardFacts.

Import Re CitationGuard GuardInv.

Lemma contains_unfold :
  forall p s,
    contains p s
    = (startswith p s
       || match s with [] => false | _ :: s' => contains p s' end)%bool.
Proof. intros p [|a s]; reflexivity. Qed.

Lemma contains_app :
  forall m pre post, contains m (pre ++ m ++ post) = true.
Proof.
  intros m pre post. induction pre as [|a pre IH].
  - rewrite contains_unfold. cbn [app]. rewrite startswith_app. reflexivity.
  - cbn [app]. rewrite contains_unfold, IH. apply orb_true_r.
Qed.

Lemma finditer_scan_sub :
  forall r s prev skip m,
    In m (finditer_scan r prev skip s) ->
    exists pre post, s = pre ++ m ++ post.
Proof.
  intros r s. induction s as [|a s IH]; intros prev skip m H.
  - cbn in H. destruct skip; [|destruct H].
    destruct (match_at r prev []) eqn:E; [|destruct H].
    destruct H as [<-|[]].
    apply match_at_prefix in E. destruct E as (rest & E).
    exists [], rest. exact E.
  - assert (Hrec : forall prev' skip',
               In m (finditer_scan r prev' skip' s) ->
               exists pre post, a :: s = pre ++ m ++ post).
    { intros prev' skip' Hm. destruct (IH _ _ _ Hm) as (pre & post & ->).
      exists (a :: pre), post. reflexivity. }
    cbn in H. destruct skip as [|k]; [|eapply Hrec; exact H].
    destruct (match_at r prev (a :: s)) eqn:E; [|eapply Hrec; exact H].
    destruct H as [<-|H]; [|eapply Hrec; exact H].
    apply match_at_prefix in E. destruct E as (rest & E).
    exists [], rest. exact E.
Qed.

Lemma dedup_In : forall x l, In x (dedup l) <-> In x l.
Proof.
  intros x l. induction l as [|y l IH]; [reflexivity|]. cbn [dedup].
  destruct (mem y l) eqn:E.
  - rewrite IH. split; [right; assumption|].
    intros [<-|H]; [apply mem_In; exact E|exact H].
  - cbn. rewrite IH. reflexivity.
Qed.

Lemma dedup_NoDup : forall l, NoDup (dedup l).
Proof.
  induction l as [|y l IH]; [constructor|]. cbn [dedup].
  destruct (mem y l) eqn:E; [exact IH|].
  constructor; [|exact IH].
  rewrite dedup_In. intros H. apply (proj2 (mem_In y l)) in H. congruence.
Qed.

Lemma map_inv_match :
  forall i j d m,
    citation_like m -> map_inv i j d ->
    map_inv i (S j) (dict_set (placeholder i j) m d).
Proof.
  intros i j d m Hm (es & -> & Hk & Hn & Hv).
  exists (es ++ [((i, j), m)]).
  split; [apply dict_set_fresh; exact Hk|].
  split.
  { rewrite map_app. apply Forall_app. split.
    - eapply Forall_impl; [|exact Hk]. apply key_before_next.
    - constructor; [right; cbn; lia|constructor]. }
  split.
  { rewrite map_app. apply nodup_app_disjoint; [exact Hn|repeat constructor; intros []|].
    intros k Hin [<-|[]]. rewrite Forall_forall in Hk.
    apply Hk, key_before_fresh in Hin. cbn [fst] in Hin. congruence. }
  apply Forall_app. split; [exact Hv|]. constructor; [exact Hm|constructor].
Qed.

Lemma map_inv_matches :
  forall i ms j st,
    Forall citation_like ms -> map_inv i j (snd st) ->
    map_inv i (j + length ms)
            (snd (fold_left (protect_match i) (enumerate_from j ms) st)).
Proof.
  intros i ms. induction ms as [|m ms IH]; intros j st Hms Hst.
  - cbn. rewrite Nat.add_0_r. exact Hst.
  - inversion Hms as [|? ? Hm Hms0]; subst.
    cbn [enumerate_from fold_left length].
    rewrite <- Nat.add_succ_comm. apply IH; [exact Hms0|].
    destruct st as [cur d]. cbn [protect_match snd] in *.
    apply map_inv_match; assumption.
Qed.

Lemma map_inv_patterns :
  forall ps i st,
    incl ps CITATION_PATTERNS -> map_inv i 0 (snd st) ->
    map_inv (i + length ps) 0
            (snd (fold_left protect_pattern (enumerate_from i ps) st)).
Proof.
  induction ps as [|p ps IH]; intros i st Hps Hst.
  - cbn. rewrite Nat.add_0_r. exact Hst.
  - cbn [enumerate_from fold_left length].
    rewrite <- Nat.add_succ_comm. apply IH.
    + intros q Hq. apply Hps. right. exact Hq.
    + unfold protect_pattern, enumerate.
      assert (H : map_inv i (0 + length (finditer p (fst st)))
                    (snd (fold_left (protect_match i)
                            (enumerate_from 0 (finditer p (fst st))) st))).
      { apply map_inv_matches; [|exact Hst].
        rewrite Forall_forall. intros m Hm.
        eapply citation_matches; [apply Hps; left; reflexivity|exact Hm]. }
      destruct H as (es & E & Hk & Hn & Hv).
      exists es. split; [exact E|]. split; [|split; assumption].
      eapply Forall_impl; [|exact Hk]. apply key_before_pattern.
Qed.

Lemma protect_nothing :
  forall t ps i,
    Forall (fun p => finditer p t = []) ps ->
    fold_left protect_pattern (enumerate_from i ps) (t, []) = (t, []).
Proof.
  intros t ps. induction ps as [|p ps IH]; intros i H; [reflexivity|].
  cbn [enumerate_from fold_left]. unfold protect_pattern at 2. cbn [fst].
  rewrite (Forall_inv H). cbn [enumerate enumerate_from fold_left].
  apply IH, (Forall_inv_tail H).
Qed.

End GuardFacts.

(** X8.  [_extract_citations] returns every match of every citation pattern
    once: the list has no duplicates, each of its elements occurs in the
    text, has no underscore and contains whitespace, and no match is left
    out. *)
Theorem extract_citations_sound :
  forall t : text,
    NoDup (CitationGuard._extract_citations t)
    /\ Forall (fun c => contains c t = true /\ CitationGuard.citation_like c)
              (CitationGuard._extract_citations t)
    /\ incl (flat_map (fun p => Re.findall p t) CitationGuard.CITATION_PATTERNS)
            (CitationGuard._extract_citations t).
Proof.
  intros t. unfold CitationGuard._extract_citations.
  split; [apply dedup_NoDup|]. split.
  - apply Forall_forall. intros c Hc. apply (proj1 (dedup_In _ _)) in Hc.
    apply in_flat_map in Hc. destruct Hc as (p & Hp & Hc).
    split; [|eapply citation_matches; eassumption].
    apply finditer_scan_sub in Hc. destruct Hc as (pre & post & ->).
    apply contains_app.
  - intros c Hc. apply dedup_In. exact Hc.
Qed.

(** X9.  On any text, the map returned by [_protect_citations] has
    pairwise distinct keys; every key is a placeholder
    [__CITATION_i_j__] of one of the seven patterns, and every value is a
    matched citation: it has no underscore and contains whitespace. *)
Theorem citation_map_shape :
  forall t : text,
    NoDup (map fst (snd (CitationGuard._protect_citations t)))
    /\ Forall (fun kv => GuardInv.issued_key (fst kv)
                         /\ CitationGuard.citation_like (snd kv))
              (snd (CitationGuard._protect_citations t)).
Proof.
  intros t.
  assert (H0 : GuardInv.map_inv 0 0 (snd (t, @nil (text * text)))).
  { exists []. repeat split; constructor. }
  pose proof (map_inv_patterns CitationGuard.CITATION_PATTERNS 0 (t, [])
                (incl_refl _) H0) as H.
  fold (enumerate CitationGuard.CITATION_PATTERNS) in H.
  fold (CitationGuard._protect_citations t) in H.
  destruct H as (es & -> & Hk & Hn & Hv). split.
  - rewrite map_map. cbn [CitationGuard.entry_pair fst].
    clear Hk Hv. induction es as [|[[a b] c] es IH]; [constructor|].
    inversion Hn as [|? ? Hx Hn']; subst. cbn [map fst snd].
    constructor; [|apply IH; exact Hn'].
    rewrite in_map_iff. intros ([[a' b'] c'] & E & Hin). cbn [fst snd] in E.
    apply placeholder_inj in E. inversion E; subst a' b'.
    apply Hx. apply (in_map fst) in Hin. exact Hin.
  - apply Forall_map. rewrite Forall_forall in *. intros [[a b] c] Hin.
    cbn [CitationGuard.entry_pair fst snd]. split; [|apply (Hv _ Hin)].
    exists a, b. split; [|reflexivity].
    assert (K : CitationGuard.key_before
                  (0 + length CitationGuard.CITATION_PATTERNS) 0 (a, b)).
    { apply Hk. apply (in_map fst) in Hin. exact Hin. }
    destruct K as [K|[_ K]]; cbn [fst snd] in K; [exact K|lia].
Qed.

(** X10.  When [_extract_citations] finds no citation in a text,
    [_protect_citations] returns the text unchanged with an empty map. *)
Theorem protect_without_citations :
  forall t : text,
    CitationGuard._extract_citations t = [] ->
    CitationGuard._protect_citations t = (t, []).
Proof.
  intros t H. unfold CitationGuard._protect_citations, enumerate.
  apply protect_nothing. apply Forall_forall. intros p Hp.
  destruct (Re.finditer p t) as [|m ms] eqn:E; [reflexivity|].
  assert (Hin : In m (CitationGuard._extract_citations t)).
  { unfold CitationGuard._extract_citations. apply dedup_In.
    apply in_flat_map. exists p. split; [exact Hp|].
    unfold Re.findall. rewrite E. left. reflexivity. }
  rewrite H in Hin. destruct Hin.
Qed.

Lemma protect_without_citations_witness :
  CitationGuard._extract_citations (T "The motion is denied.") = []
  /\ CitationGuard._protect_citations (T "The motion is denied.")
     = (T "The motion is denied.", []).
Proof.
  assert (H : CitationGuard._extract_citations (T "The motion is denied.") = [])
    by (vm_compute; reflexivity).
  split; [exact H|].
  exact (protect_without_citations (T "The motion is denied.") H).
Defined.

(** ** [LLMLinguaCompressor]: lazy start, errors, the rate sent *)

Section LinguaFacts.

Import CitationGuard Lingua.

Variable env : Env.

Lemma restore_after_protect :
  forall t : text,
    clean t ->
    _restore_citations (fst (_protect_citations t))
                       (snd (_protect_citations t)) = t.
Proof.
  intros t Ht.
  assert (H0 : protect_inv t 0 0 (t, [])).
  { exists (map Chr t), []. cbn [fst snd map].
    split; [symmetry; apply flat_chars|].
    split; [apply toks_clean_chars; exact Ht|].
    split; [reflexivity|]. split; [constructor|]. split; [constructor|].
    split; [rewrite keys_of_chars; intros k []|reflexivity]. }
  pose proof (protect_patterns_inv t CITATION_PATTERNS 0 (t, [])
                (incl_refl _) H0) as H.
  fold (enumerate CITATION_PATTERNS) in H.
  fold (_protect_citations t) in H.
  destruct H as (ts & es & Hcur & Hts & Hmap & _ & Hvals & _ & Hsub).
  rewrite Hcur, Hmap, restore_flat by assumption.
  rewrite Hsub. apply flat_chars.
Qed.

(** What [compress] returns once the object is started and the model has
    answered. *)
Lemma compress_result :
  forall st t query p pc d,
    _initialized (self st) = true ->
    _compressor (self st) = Some pc ->
    compress_prompt pc (request_of st t query) = Ret d ->
    exists cr,
      compress env t query p st
      = (Ret cr, {| self := self st;
                    sent := sent st ++ [request_of st t query] |})
      /\ compressed_text cr
         = _restore_citations
             (match dict_get (T "compressed_prompt") d with
              | Some c => c
              | None => fst (_protect_citations t)
              end)
             (snd (_protect_citations t))
      /\ original_tokens cr = _estimate_tokens t
      /\ compressed_tokens cr = _estimate_tokens (compressed_text cr).
Proof.
  intros st t query p pc d Hi Hc Hd.
  unfold compress. unfold bind at 1. rewrite (ensure_initialized_again _ _ Hi).
  unfold bind at 1, get_state at 1.
  unfold request_of in Hd.
  destruct (_protect_citations t) as [pt cm] eqn:Hp.
  cbn [fst snd] in *.
  unfold bind at 1, call_compress_prompt. rewrite Hc.
  match goal with
  | |- context [compress_prompt pc ?r] =>
      replace (compress_prompt pc r) with (@Ret dict d)
        by (symmetry; exact Hd)
  end.
  unfold ret, request_of. rewrite Hp. eexists. split; [reflexivity|].
  cbn. repeat split; reflexivity.
Qed.

Lemma compress_raises :
  forall st t query p pc e,
    _initialized (self st) = true ->
    _compressor (self st) = Some pc ->
    compress_prompt pc (request_of st t query) = Raise e ->
    compress env t query p st
    = (Raise e, {| self := self st;
                   sent := sent st ++ [request_of st t query] |}).
Proof.
  intros st t query p pc e Hi Hc Hd.
  unfold compress. unfold bind at 1. rewrite (ensure_initialized_again _ _ Hi).
  unfold bind at 1, get_state at 1.
  unfold request_of in Hd.
  destruct (_protect_citations t) as [pt cm] eqn:Hp.
  cbn [fst snd] in *.
  unfold bind at 1, call_compress_prompt. rewrite Hc.
  match goal with
  | |- context [compress_prompt pc ?r] =>
      replace (compress_prompt pc r) with (@Raise dict e)
        by (symmetry; exact Hd)
  end.
  unfold request_of. rewrite Hp. reflexivity.
Qed.

Lemma Qltb_false : forall x y, (y <= x)%Q -> Qltb x y = false.
Proof.
  intros x y H. unfold Qltb. apply Qle_bool_iff in H. rewrite H. reflexivity.
Qed.

End LinguaFacts.

(** X11.  [compress_chunks] leaves the rate alone when the budget allows
    it: if the configured [target_ratio] is not above
    [min(max_output_tokens / current_tokens, 1.0)] (1.0 for an empty
    context), the one request sent carries the configured ratio, and the
    configured ratio is unchanged afterwards. *)
Theorem compress_chunks_keeps_rate :
  forall (env : Lingua.Env) (st st1 : Lingua.cstate)
         (pc : Lingua.PromptCompressor) (chunks : list RetrievedMatch)
         (query : text) (max_output_tokens : Z),
    Lingua._ensure_initialized env st = (Ret tt, st1) ->
    Lingua._compressor (Lingua.self st1) = Some pc ->
    (forall req, exists d, Lingua.compress_prompt pc req = Ret d) ->
    (Lingua.target_ratio (Lingua.self st)
     <= Lingua.required_ratio max_output_tokens
          (Lingua._estimate_tokens (Lingua.combine chunks)))%Q ->
    exists (out : text) (st' : Lingua.cstate) (req : Lingua.PromptRequest),
      Lingua.compress_chunks env chunks query max_output_tokens st
      = (Ret out, st')
      /\ Lingua.sent st' = Lingua.sent st ++ [req]
      /\ Lingua.rate req = Lingua.target_ratio (Lingua.self st)
      /\ Lingua.target_ratio (Lingua.self st')
         = Lingua.target_ratio (Lingua.self st).
Proof.
  intros env st st1 pc chunks query m Hinit Hpc Hsvc Hle.
  destruct (ensure_initialized_ok _ _ _ Hinit) as (Hi & Hr & Hs).
  rewrite <- Hr in Hle. apply Qltb_false in Hle.
  unfold Lingua.compress_chunks. unfold bind at 1. rewrite Hinit.
  unfold bind at 1, get_state at 1. rewrite Hle.
  unfold bind at 1, ret at 1.
  destruct (Hsvc (Lingua.request_of st1 (Lingua.combine chunks) (Some query)))
    as [d Hd].
  destruct (compress_returns env st1 (Lingua.combine chunks) (Some query) true
              pc d Hi Hpc Hd) as [cr Hcr].
  unfold bind at 1. rewrite Hcr.
  unfold bind at 1, Lingua.set_target_ratio, ret.
  eexists; eexists; eexists. split; [reflexivity|].
  cbn. rewrite Hs. repeat split; exact Hr.
Qed.

(** 100 tokens, a budget of 150 and the ratio 0.5: the rate sent is 0.5. *)
Lemma compress_chunks_keeps_rate_witness :
  exists (out : text) (st' : Lingua.cstate) (req : Lingua.PromptRequest),
    Lingua.compress_chunks Budget.env Budget.chunks_100 Budget.question 150
                           (Samples.fresh (1 # 2))
    = (Ret out, st')
    /\ Lingua.sent st' = Lingua.sent (Samples.fresh (1 # 2)) ++ [req]
    /\ Lingua.rate req = Lingua.target_ratio (Lingua.self (Samples.fresh (1 # 2)))
    /\ Lingua.target_ratio (Lingua.self st')
       = Lingua.target_ratio (Lingua.self (Samples.fresh (1 # 2))).
Proof.
  apply (compress_chunks_keeps_rate Budget.env (Samples.fresh (1 # 2))
           (LinguaRuns.started Samples.echo_model (1 # 2))
           Samples.echo_model Budget.chunks_100 Budget.question 150).
  - reflexivity.
  - reflexivity.
  - intros req. eexists. reflexivity.
  - vm_compute. discriminate.
Defined.

(** X12.  The ratio is restored on normal return only: when the budget
    forces a tighter ratio and the model call raises, [compress_chunks]
    raises the same exception and the object keeps the tightened ratio
    [min(max_output_tokens / current_tokens, 1.0) * 0.9]. *)
Theorem compress_chunks_error_keeps_override :
  forall (env : Lingua.Env) (st st1 : Lingua.cstate)
         (pc : Lingua.PromptCompressor) (chunks : list RetrievedMatch)
         (query : text) (max_output_tokens : Z) (e : exn),
    Lingua._ensure_initialized env st = (Ret tt, st1) ->
    Lingua._compressor (Lingua.self st1) = Some pc ->
    (forall req, Lingua.compress_prompt pc req = Raise e) ->
    (0 < Lingua._estimate_tokens (Lingua.combine chunks))%Z ->
    (inject_Z max_output_tokens
     < inject_Z (Lingua._estimate_tokens (Lingua.combine chunks))
       * Lingua.target_ratio (Lingua.self st))%Q ->
    exists st' : Lingua.cstate,
      Lingua.compress_chunks env chunks query max_output_tokens st
      = (Raise e, st')
      /\ Lingua.target_ratio (Lingua.self st')
         = (Lingua.Qmin (inject_Z max_output_tokens
                         / inject_Z (Lingua._estimate_tokens
                                       (Lingua.combine chunks))) 1
            * (9 # 10))%Q.
Proof.
  intros env st st1 pc chunks query m e Hinit Hpc Hsvc Hcur Hexceed.
  destruct (ensure_initialized_ok _ _ _ Hinit) as (Hi & Hr & Hs).
  pose proof (required_below m _ _ Hcur Hexceed) as Hlt.
  rewrite <- Hr in Hlt. apply Qltb_true in Hlt.
  unfold Lingua.compress_chunks. unfold bind at 1. rewrite Hinit.
  unfold bind at 1, get_state at 1. rewrite Hlt.
  unfold bind at 1, Lingua.set_target_ratio at 1.
  set (st2 := {| Lingua.self := _; Lingua.sent := Lingua.sent st1 |}).
  pose proof (compress_raises env st2 (Lingua.combine chunks) (Some query)
                true pc e Hi Hpc (Hsvc _)) as Hcr.
  unfold bind at 1. rewrite Hcr.
  eexists. split; [reflexivity|].
  cbn. unfold Lingua.required_ratio.
  replace (Lingua._estimate_tokens (Lingua.combine chunks) >? 0)%Z
    with true by (symmetry; apply Z.gtb_lt; lia).
  reflexivity.
Qed.

(** 1000 tokens, a budget of 300, ratio 0.5, and a model that raises: the
    object is left with the ratio 0.27. *)
Lemma compress_chunks_error_keeps_override_witness :
  exists st' : Lingua.cstate,
    Lingua.compress_chunks (Samples.lingua_env Samples.failing_model)
                           Budget.chunks_1000 Budget.question 300
                           (Samples.fresh (1 # 2))
    = (Raise (ServiceError "model failure"), st')
    /\ Lingua.target_ratio (Lingua.self st')
       = (Lingua.Qmin (inject_Z 300
                       / inject_Z (Lingua._estimate_tokens
                                     (Lingua.combine Budget.chunks_1000))) 1
          * (9 # 10))%Q.
Proof.
  apply (compress_chunks_error_keeps_override
           (Samples.lingua_env Samples.failing_model) (Samples.fresh (1 # 2))
           (LinguaRuns.started Samples.failing_model (1 # 2))
           Samples.failing_model).
  - reflexivity.
  - reflexivity.
  - intros req. reflexivity.
  - vm_compute. reflexivity.
  - vm_compute. reflexivity.
Defined.

(** X13.  A model that returns the protected text unchanged, or a reply
    without a [compressed_prompt] entry, gives the input back: for a text
    without underscores [compress] returns the text itself, every citation
    restored, and equal token counts. *)
Theorem compress_without_reply :
  forall (env : Lingua.Env) (st : Lingua.cstate) (t : text)
         (query : option text) (preserve : bool)
         (pc : Lingua.PromptCompressor) (d : dict),
    CitationGuard.clean t ->
    Lingua._initialized (Lingua.self st) = true ->
    Lingua._compressor (Lingua.self st) = Some pc ->
    Lingua.compress_prompt pc (Lingua.request_of st t query) = Ret d ->
    dict_get (T "compressed_prompt") d = None
    \/ dict_get (T "compressed_prompt") d
       = Some (fst (CitationGuard._protect_citations t)) ->
    exists (cr : CompressionResult) (st' : Lingua.cstate),
      Lingua.compress env t query preserve st = (Ret cr, st')
      /\ compressed_text cr = t
      /\ compressed_tokens cr = original_tokens cr.
Proof.
  intros env st t query p pc d Ht Hi Hc Hd Hkey.
  destruct (compress_result env st t query p pc d Hi Hc Hd)
    as (cr & Hrun & Htext & Ho & Hct).
  assert (E : compressed_text cr = t).
  { rewrite Htext.
    destruct Hkey as [-> | ->]; apply restore_after_protect; exact Ht. }
  exists cr. eexists. split; [exact Hrun|]. split; [exact E|].
  rewrite Hct, Ho, E. reflexivity.
Qed.

(** A text with three citations and a model whose reply is empty. *)
Lemma compress_without_reply_witness :
  exists (cr : CompressionResult) (st' : Lingua.cstate),
    Lingua.compress (Samples.lingua_env LinguaRuns.silent_model) Texts.brown
                    None true (LinguaRuns.started LinguaRuns.silent_model (1 # 2))
    = (Ret cr, st')
    /\ compressed_text cr = Texts.brown
    /\ compressed_tokens cr = original_tokens cr.
Proof.
  apply (compress_without_reply (Samples.lingua_env LinguaRuns.silent_model)
           (LinguaRuns.started LinguaRuns.silent_model (1 # 2)) Texts.brown
           None true LinguaRuns.silent_model []).
  - repeat constructor.
  - reflexivity.
  - reflexivity.
  - reflexivity.
  - left. reflexivity.
Defined.

(** X14.  The model is loaded at most once: after a call of [compress]
    that returned, the object is started, and [_ensure_initialized] is a
    no-op on it in every environment, also one without [llmlingua]. *)
Theorem compress_starts_once :
  forall (env : Lingua.Env) (t : text) (query : option text) (preserve : bool)
         (st st' : Lingua.cstate) (cr : CompressionResult),
    Lingua.compress env t query preserve st = (Ret cr, st') ->
    Lingua._initialized (Lingua.self st') = true
    /\ forall env' : Lingua.Env,
         Lingua._ensure_initialized env' st' = (Ret tt, st').
Proof.
  intros env t query p st st' cr H.
  assert (Hi : Lingua._initialized (Lingua.self st') = true).
  { revert H. unfold Lingua.compress. unfold bind at 1.
    destruct (Lingua._ensure_initialized env st) as [[[]|e] st1] eqn:E;
      [|discriminate].
    destruct (ensure_initialized_ok _ _ _ E) as (Hi & _ & _).
    unfold bind at 1, get_state at 1.
    destruct (CitationGuard._protect_citations t) as [pt cm].
    unfold bind at 1, Lingua.call_compress_prompt.
    destruct (Lingua._compressor (Lingua.self st1)) as [pc|]; [|discriminate].
    match goal with
    | |- context [Lingua.compress_prompt pc ?r] =>
        destruct (Lingua.compress_prompt pc r) as [d|e]; [|discriminate]
    end.
    unfold ret. intros H. inversion H; subst. exact Hi. }
  split; [exact Hi|]. intros env'. apply ensure_initialized_again, Hi.
Qed.

Lemma compress_starts_once_witness :
  Lingua._initialized
    (Lingua.self
       (snd (Lingua.compress Budget.env Texts.brown None true
                             (Samples.fresh (1 # 2))))) = true
  /\ forall env' : Lingua.Env,
       Lingua._ensure_initialized env'
         (snd (Lingua.compress Budget.env Texts.brown None true
                               (Samples.fresh (1 # 2))))
       = (Ret tt, snd (Lingua.compress Budget.env Texts.brown None true
                                       (Samples.fresh (1 # 2)))).
Proof.
  apply (compress_starts_once Budget.env Texts.brown None true
           (Samples.fresh (1 # 2)) _
           (LinguaRuns.result_of
              (Lingua.compress Budget.env Texts.brown None true
                               (Samples.fresh (1 # 2))))).
  vm_compute. reflexivity.
Defined.

(** ** The query engine: context, errors, the prompt *)

Section ContextFacts.

Import Engine.

Lemma join_member :
  forall sep (x : text) l,
    In x l -> exists pre post, join sep l = pre ++ x ++ post.
Proof.
  intros sep x l. induction l as [|y l IH]; intros H; [destruct H|].
  destruct l as [|z l].
  - destruct H as [->|[]]. exists [], []. cbn. rewrite app_nil_r. reflexivity.
  - change (join sep (y :: z :: l)) with (y ++ sep ++ join sep (z :: l)).
    destruct H as [->|H].
    + exists [], (sep ++ join sep (z :: l)). reflexivity.
    + destruct (IH H) as (pre & post & ->).
      exists (y ++ sep ++ pre), post. rewrite <- !app_assoc. reflexivity.
Qed.

Lemma contains_inside :
  forall x pre mid post s,
    s = pre ++ mid ++ post ->
    (exists a b, mid = a ++ x ++ b) ->
    contains x s = true.
Proof.
  intros x pre mid post s -> (a & b & ->).
  replace (pre ++ (a ++ x ++ b) ++ post) with ((pre ++ a) ++ x ++ (b ++ post))
    by (rewrite <- !app_assoc; reflexivity).
  apply contains_app.
Qed.

Lemma contains_head : forall x r, contains x (x ++ r) = true.
Proof. intros x r. apply (contains_app x [] r). Qed.

Lemma contains_skip :
  forall x y r, contains x r = true -> contains x (y ++ r) = true.
Proof.
  intros x y r H. induction y as [|a y IH]; [exact H|].
  cbn [app]. rewrite contains_unfold, IH. apply orb_true_r.
Qed.

End ContextFacts.

(** [x] is one of the pieces of a concatenation. *)
Ltac find_inside :=
  repeat first [apply contains_head | apply contains_skip].

(** X15.  [_format_context] numbers the retrieved chunks from 1 and leaves
    nothing out: for the [i]-th chunk the context contains the header
    [[Document i]] and the chunk's content, verbatim. *)
Theorem format_context_covers :
  forall chunks : list RetrievedMatch,
    map fst (enumerate_from 1 chunks) = seq 1 (length chunks)
    /\ Forall (fun ic =>
                 contains (T "[Document " ++ str_nat (fst ic) ++ T "]")
                          (Engine._format_context chunks) = true
                 /\ contains (rm_content (snd ic))
                             (Engine._format_context chunks) = true)
              (enumerate_from 1 chunks).
Proof.
  intros chunks. split.
  - generalize 1%nat. induction chunks as [|c l IH]; intros n; [reflexivity|].
    cbn. rewrite IH. reflexivity.
  - apply Forall_forall. intros [i c] Hin. cbn [fst snd].
    unfold Engine._format_context.
    match goal with
    | |- context [join _ (map ?f _)] =>
        destruct (join_member Lingua.SEPARATOR (f (i, c))
                    (map f (enumerate_from 1 chunks))
                    (in_map f _ _ Hin)) as (pre & post & E)
    end.
    split; (eapply contains_inside; [exact E|]); cbn beta iota.
    + match goal with
      | |- context [match ?si with [] => _ | _ => _ end] => destruct si
      end.
      * exists [], (NL ++ rm_content c). rewrite <- !app_assoc. reflexivity.
      * eexists [], _. rewrite <- !app_assoc. reflexivity.
    + eexists _, []. rewrite app_nil_r. rewrite app_assoc. reflexivity.
Qed.

Section EngineErrors.

Import Engine.

Variable env : Env.

(** The engine after [set_compressor] with the compressor it already
    holds. *)
Lemma set_compressor_same :
  forall (self : LegalRAGEngine) c,
    compressor self = Some c ->
    {| vector_store := vector_store self;
       compressor := Some c;
       openai_model := openai_model self;
       top_k := top_k self;
       compression_enabled := compression_enabled self;
       max_context_tokens := max_context_tokens self;
       _openai_client := _openai_client self |} = self.
Proof. intros [] c H. cbn in *. subst. reflexivity. Qed.

Lemma lingua_import_error :
  forall t q p st,
    Lingua.llmlingua (lingua_env env) = None ->
    Lingua._initialized (Lingua.self st) = false ->
    Lingua.compress (lingua_env env) t q p st
    = (Raise (ImportError
                "llmlingua is required. Install with: pip install llmlingua"),
       st).
Proof.
  intros t q p st Hl Hi. unfold Lingua.compress. unfold bind at 1.
  unfold Lingua._ensure_initialized. rewrite Hi, Hl. reflexivity.
Qed.

(** The compression step of [query] changes at most the compressor. *)
Lemma compress_step_frame :
  forall (self e1 : LegalRAGEngine) ctx question r,
    (match compression_enabled self, compressor self with
     | true, Some c =>
         r <- call_compress env c ctx (Some question) true ;;
         ret (compressed_text r, compressed_tokens r)
     | _, _ => ret (ctx, (len ctx / 4)%Z)
     end) self = (r, e1) ->
    openai_model e1 = openai_model self
    /\ _openai_client e1 = _openai_client self.
Proof.
  intros self e1 ctx question r.
  destruct (compression_enabled self);
    [destruct (compressor self) as [[st|fc]|]|].
  - unfold bind at 1. rewrite call_compress_lingua.
    destruct (Lingua.compress _ _ _ _ _) as [[cr|e] st'];
      unfold bind, set_compressor, lift, ret;
      intros H; inversion H; subst; split; reflexivity.
  - unfold bind at 1. rewrite call_compress_fallback.
    unfold raise. intros H; inversion H; subst; split; reflexivity.
  - unfold ret. intros H; inversion H; subst; split; reflexivity.
  - unfold ret. intros H; inversion H; subst; split; reflexivity.
Qed.

(** What a returning [_generate_response] has done. *)
Lemma generate_response_client :
  forall question ctx (e1 e2 : LegalRAGEngine) ans,
    _generate_response env question ctx e1 = (Ret ans, e2) ->
    exists client req,
      _openai_client e2 = Some client
      /\ chat_create client req = Ret ans
      /\ model req = openai_model e1
      /\ system_message req = SYSTEM_PROMPT
      /\ contains question (user_message req) = true
      /\ contains ctx (user_message req) = true
      /\ (forall c0, _openai_client e1 = Some c0 -> client = c0).
Proof.
  intros question ctx e1 e2 ans.
  unfold _generate_response. unfold bind at 1. unfold _get_openai_client.
  unfold bind at 1, get_state at 1.
  destruct (_openai_client e1) as [c0|] eqn:Hc.
  - unfold ret at 1. unfold bind at 1, get_state at 1, lift.
    intros H. apply pair_equal_spec in H. destruct H as [Hans <-].
    eexists c0, _. split; [exact Hc|]. split; [exact Hans|].
    cbn [model system_message user_message].
    split; [reflexivity|]. split; [reflexivity|].
    split; [find_inside|]. split; [find_inside|intros c1 E; congruence].
  - destruct (openai env) as [ctor|]; [|discriminate].
    destruct (OPENAI_API_KEY env) as [[|a k]|]; [discriminate| |discriminate].
    unfold bind at 1, set_client at 1. unfold ret at 1.
    unfold bind at 1, get_state at 1, lift.
    intros H. apply pair_equal_spec in H. destruct H as [Hans <-].
    eexists (ctor (a :: k)), _. split; [reflexivity|]. split; [exact Hans|].
    cbn [model system_message user_message openai_model].
    split; [reflexivity|]. split; [reflexivity|].
    split; [find_inside|]. split; [find_inside|intros c1 E; discriminate].
Qed.

End EngineErrors.

(** X16.  There is no automatic fallback at query time: with the
    model-delegating compressor configured, not yet started, and the
    [llmlingua] package missing, every query with a non-empty retrieval
    raises [ImportError] at the compression step and leaves the engine
    unchanged. *)
Theorem query_import_error :
  forall (env : Engine.Env) (self : Engine.LegalRAGEngine)
         (store : Engine.VectorStore) (question : text)
         (filter_metadata : option dict) (include_sources : bool)
         (chunks : list RetrievedMatch) (st : Lingua.cstate),
    Engine.vector_store self = Some store ->
    Engine.search store question (Engine.top_k self) filter_metadata
    = Ret chunks ->
    chunks <> [] ->
    Engine.compression_enabled self = true ->
    Engine.compressor self = Some (Engine.LLMLingua st) ->
    Lingua._initialized (Lingua.self st) = false ->
    Lingua.llmlingua (Engine.lingua_env env) = None ->
    Engine.query env question filter_metadata include_sources self
    = (Raise (ImportError
                "llmlingua is required. Install with: pip install llmlingua"),
       self).
Proof.
  intros env self store question fm inc chunks st Hstore Hsearch Hne Hen Hc
         Hi Hl.
  unfold Engine.query. unfold bind at 1. unfold get_state at 1.
  rewrite Hstore. unfold bind at 1, Engine.lift at 1. rewrite Hsearch.
  destruct chunks as [|c chunks]; [congruence|].
  unfold bind at 1. rewrite Hen, Hc.
  unfold bind at 1. rewrite call_compress_lingua.
  rewrite (lingua_import_error env _ _ _ _ Hl Hi).
  unfold bind, Engine.set_compressor, Engine.lift.
  rewrite (set_compressor_same self _ Hc). reflexivity.
Qed.

Lemma query_import_error_witness :
  Engine.query EngineRuns.no_llmlingua Runs.question None true Runs.with_model
  = (Raise (ImportError
              "llmlingua is required. Install with: pip install llmlingua"),
     Runs.with_model).
Proof.
  apply (query_import_error EngineRuns.no_llmlingua Runs.with_model
           (Samples.store Runs.chunks) Runs.question None true Runs.chunks
           (Samples.fresh (1 # 2)));
    try reflexivity.
  discriminate.
Defined.

(** X17.  The generation client is created at the first query that needs
    it, not when the engine is built: with no client cached and no
    compression step, a query with a non-empty retrieval raises
    [ImportError] when the [openai] package is missing and [ValueError]
    when [OPENAI_API_KEY] is unset or empty; the engine is unchanged. *)
Theorem query_missing_credentials :
  forall (env : Engine.Env) (self : Engine.LegalRAGEngine)
         (store : Engine.VectorStore) (question : text)
         (filter_metadata : option dict) (include_sources : bool)
         (chunks : list RetrievedMatch),
    Engine.vector_store self = Some store ->
    Engine.search store question (Engine.top_k self) filter_metadata
    = Ret chunks ->
    chunks <> [] ->
    Engine.compression_enabled self = false \/ Engine.compressor self = None ->
    Engine._openai_client self = None ->
    Engine.openai env = None
    \/ Engine.OPENAI_API_KEY env = None
    \/ Engine.OPENAI_API_KEY env = Some [] ->
    Engine.query env question filter_metadata include_sources self
    = (Raise (match Engine.openai env with
              | None =>
                  ImportError
                    "openai is required. Install with: pip install openai"
              | Some _ =>
                  ValueError "OPENAI_API_KEY environment variable is required"
              end),
       self).
Proof.
  intros env self store question fm inc chunks Hstore Hsearch Hne Hoff Hcl
         Hmiss.
  unfold Engine.query. unfold bind at 1. unfold get_state at 1.
  rewrite Hstore. unfold bind at 1, Engine.lift at 1. rewrite Hsearch.
  destruct chunks as [|c chunks]; [congruence|].
  set (ctx := Engine._format_context (c :: chunks)).
  assert (Hcc : (match Engine.compression_enabled self, Engine.compressor self
                 with
                 | true, Some c0 =>
                     r <- Engine.call_compress env c0 ctx (Some question) true ;;
                     ret (compressed_text r, compressed_tokens r)
                 | _, _ => ret (ctx, (len ctx / 4)%Z)
                 end) self = (Ret (ctx, (len ctx / 4)%Z), self)).
  { destruct Hoff as [-> | ->]; [reflexivity|].
    destruct (Engine.compression_enabled self); reflexivity. }
  unfold bind at 1. rewrite Hcc. cbn beta iota.
  unfold bind at 1. unfold Engine._generate_response.
  unfold bind at 1. unfold Engine._get_openai_client.
  unfold bind at 1. unfold get_state at 1. rewrite Hcl.
  destruct (Engine.openai env) as [ctor|]; [|reflexivity].
  destruct Hmiss as [H|[-> | ->]]; [discriminate|reflexivity|reflexivity].
Qed.

Lemma query_missing_credentials_witness :
  Engine.query EngineRuns.no_key Runs.question None true EngineRuns.uncompressed
  = (Raise (ValueError "OPENAI_API_KEY environment variable is required"),
     EngineRuns.uncompressed)
  /\ Engine.query EngineRuns.no_openai Runs.question None true
                  EngineRuns.uncompressed
     = (Raise (ImportError
                 "openai is required. Install with: pip install openai"),
        EngineRuns.uncompressed).
Proof.
  split.
  - apply (query_missing_credentials EngineRuns.no_key EngineRuns.uncompressed
             (Samples.store Runs.chunks) Runs.question None true Runs.chunks);
      try reflexivity.
    + discriminate.
    + right. reflexivity.
    + right. left. reflexivity.
  - apply (query_missing_credentials EngineRuns.no_openai
             EngineRuns.uncompressed (Samples.store Runs.chunks) Runs.question
             None true Runs.chunks);
      try reflexivity.
    + discriminate.
    + right. reflexivity.
    + left. reflexivity.
Defined.

(** X18.  Where the answer comes from: whenever [query] returns a response
    for a non-empty retrieval, the answer is the reply of the engine's
    client, now cached (the one it already held, if any), to one chat
    request for the configured model under [SYSTEM_PROMPT], whose user
    message contains the question and the context reported in
    [compressed_context]. *)
Theorem query_answer_from_prompt :
  forall (env : Engine.Env) (self self' : Engine.LegalRAGEngine)
         (store : Engine.VectorStore) (question : text)
         (filter_metadata : option dict) (include_sources : bool)
         (chunks : list RetrievedMatch) (resp : Engine.RAGResponse),
    Engine.vector_store self = Some store ->
    Engine.search store question (Engine.top_k self) filter_metadata
    = Ret chunks ->
    chunks <> [] ->
    Engine.query env question filter_metadata include_sources self
    = (Ret resp, self') ->
    exists (client : Engine.OpenAIClient) (req : Engine.ChatRequest),
      Engine._openai_client self' = Some client
      /\ Engine.chat_create client req = Ret (Engine.answer resp)
      /\ Engine.model req = Engine.openai_model self
      /\ Engine.system_message req = Engine.SYSTEM_PROMPT
      /\ contains question (Engine.user_message req) = true
      /\ contains (Engine.compressed_context resp) (Engine.user_message req)
         = true
      /\ (forall c0, Engine._openai_client self = Some c0 -> client = c0).
Proof.
  intros env self self' store question fm inc chunks resp Hstore Hsearch Hne.
  unfold Engine.query. unfold bind at 1. unfold get_state at 1.
  rewrite Hstore. unfold bind at 1, Engine.lift at 1. rewrite Hsearch.
  destruct chunks as [|c chunks]; [congruence|].
  set (ctx := Engine._format_context (c :: chunks)).
  unfold bind at 1.
  match goal with
  | |- context [match ?m self with _ => _ end] =>
      destruct (m self) as [[[context ctoks]|e] e1] eqn:Hstep;
      [|discriminate]
  end.
  apply compress_step_frame in Hstep. destruct Hstep as [Hm Hcl].
  unfold bind at 1.
  destruct (Engine._generate_response env question context e1)
    as [[ans|e] e2] eqn:Hgen; [|discriminate].
  unfold ret. intros H. apply pair_equal_spec in H. destruct H as [Hr <-].
  inversion Hr as [Hresp]. cbn [Engine.answer Engine.compressed_context].
  destruct (generate_response_client env _ _ _ _ _ Hgen)
    as (client & req & H1 & H2 & H3 & H4 & H5 & H6 & H7).
  exists client, req. rewrite <- Hm, <- Hcl. auto 10.
Qed.

Lemma query_answer_from_prompt_witness :
  exists (client : Engine.OpenAIClient) (req : Engine.ChatRequest),
    Engine._openai_client
      (snd (Engine.query Runs.env Runs.question None true Runs.with_model))
    = Some client
    /\ Engine.chat_create client req
       = Ret (Engine.answer
                (Runs.response_of
                   (Engine.query Runs.env Runs.question None true
                                 Runs.with_model)))
    /\ Engine.model req = Engine.openai_model Runs.with_model
    /\ Engine.system_message req = Engine.SYSTEM_PROMPT
    /\ contains Runs.question (Engine.user_message req) = true
    /\ contains (Engine.compressed_context
                   (Runs.response_of
                      (Engine.query Runs.env Runs.question None true
                                    Runs.with_model)))
                (Engine.user_message req) = true
    /\ (forall c0,
          Engine._openai_client Runs.with_model = Some c0 -> client = c0).
Proof.
  apply (query_answer_from_prompt Runs.env Runs.with_model
           (snd (Engine.query Runs.env Runs.question None true Runs.with_model))
           (Samples.store Runs.chunks) Runs.question None true Runs.chunks
           (Runs.response_of
              (Engine.query Runs.env Runs.question None true Runs.with_model))).
  - reflexivity.
  - reflexivity.
  - discriminate.
  - vm_compute. reflexivity.
Defined.

(** X19.  [analyze_case] restricts the search to the named case: the
    store is asked with the filter [{"case_name": case_name}] and the
    templated question, so when the store holds nothing for that case the
    canned empty response is returned, with no source and with the
    templated question (which contains the case name) as its [query]. *)
Theorem analyze_case_filters :
  forall (env : Engine.Env) (self : Engine.LegalRAGEngine)
         (store : Engine.VectorStore) (case_name : text),
    Engine.vector_store self = Some store ->
    case_name <> [] ->
    Engine.search store (EngineCases.analyze_question case_name)
                  (Engine.top_k self) (Some [(T "case_name", case_name)])
    = Ret [] ->
    exists resp : Engine.RAGResponse,
      EngineCases.analyze_case env case_name self = (Ret resp, self)
      /\ Engine.sources resp = []
      /\ contains (T "No relevant documents found") (Engine.answer resp) = true
      /\ Engine.query_ resp = EngineCases.analyze_question case_name
      /\ contains case_name (Engine.query_ resp) = true.
Proof.
  intros env self store case_name Hstore Hne Hsearch.
  unfold EngineCases.analyze_case.
  destruct case_name as [|a n]; [congruence|].
  cbn [EngineCases.case_filter].
  eexists. split.
  - unfold Engine.query, bind, get_state, Engine.lift. rewrite Hstore.
    cbn beta iota. rewrite Hsearch. reflexivity.
  - cbn [Engine.sources Engine.answer Engine.query_].
    split; [reflexivity|]. split; [reflexivity|]. split; [reflexivity|].
    unfold EngineCases.analyze_question. find_inside.
Qed.

(** A store that holds one case: the analysis of another case finds
    nothing, although an unfiltered search would. *)
Lemma analyze_case_filters_witness :
  Engine.search EngineRuns.brown_only
                (EngineCases.analyze_question (T "Roe v. Wade")) 10 None
  = Ret Runs.chunks
  /\ exists resp : Engine.RAGResponse,
       EngineCases.analyze_case Runs.env (T "Roe v. Wade")
                                EngineRuns.brown_engine
       = (Ret resp, EngineRuns.brown_engine)
       /\ Engine.sources resp = []
       /\ contains (T "No relevant documents found") (Engine.answer resp)
          = true
       /\ Engine.query_ resp = EngineCases.analyze_question (T "Roe v. Wade")
       /\ contains (T "Roe v. Wade") (Engine.query_ resp) = true.
Proof.
  split; [reflexivity|].
  apply (analyze_case_filters Runs.env EngineRuns.brown_engine
           EngineRuns.brown_only (T "Roe v. Wade")).
  - reflexivity.
  - discriminate.
  - reflexivity.
Defined.

(** ** [SimpleFallbackCompressor]: scores and sizes *)

Section FallbackSizes.

Import Re Fallback FallbackInv.

Lemma spaced_len_nonneg : forall l, (0 <= spaced_len l)%Z.
Proof.
  induction l as [|x l IH]; cbn; [lia|]. pose proof (len_nonneg x). lia.
Qed.

Lemma join_spaced :
  forall l, (len (join (T " ") l) <= Z.max 0 (spaced_len l - 1))%Z.
Proof.
  intros [|x l]; [cbn; lia|].
  rewrite join_len. change (len (T " ")) with 1%Z.
  assert (H : forall m, spaced_len m
                        = (Chunker.sum_len m + Z.of_nat (length m))%Z).
  { induction m as [|y m IH]; [reflexivity|].
    cbn [spaced_len Chunker.sum_len length]. rewrite IH, Nat2Z.inj_succ. lia. }
  rewrite (H (x :: l)). cbn [length]. rewrite Nat2Z.inj_succ. lia.
Qed.

Lemma spaced_filter :
  forall p l, (spaced_len (filter p l) <= spaced_len l)%Z.
Proof.
  intros p l. induction l as [|x l IH]; cbn; [lia|].
  pose proof (len_nonneg x). destruct (p x); cbn; lia.
Qed.

Lemma spaced_map_strip :
  forall l, (spaced_len (map strip l) <= spaced_len l)%Z.
Proof.
  induction l as [|x l IH]; cbn; [lia|].
  pose proof (strip_len x). lia.
Qed.

Lemma re_split_spaced :
  forall r s prev skip acc,
    (skip <= length s)%nat ->
    (spaced_len (Re.split_scan r prev skip acc s)
     <= len acc + len s - Z.of_nat skip + 1)%Z.
Proof.
  intros r. induction s as [|a s IH]; intros prev skip acc Hskip.
  - cbn in Hskip. assert (skip = 0%nat) by lia. subst skip.
    cbn [Re.split_scan spaced_len]. unfold len. rewrite length_rev. cbn. lia.
  - cbn [Re.split_scan]. destruct skip as [|k].
    + assert (Hpush : (spaced_len (Re.split_scan r (Some a) 0 (a :: acc) s)
                       <= len acc + len (a :: s) - Z.of_nat 0 + 1)%Z).
      { specialize (IH (Some a) 0%nat (a :: acc) ltac:(lia)).
        unfold len in *. cbn [length] in *. lia. }
      destruct (match_at r prev (a :: s)) as [[|b m]|] eqn:E;
        [exact Hpush| |exact Hpush].
      apply match_at_prefix in E. destruct E as (rest & E).
      cbn in E. inversion E; subst b s. clear E.
      specialize (IH (Some a) (length m) []
                     ltac:(rewrite length_app; lia)).
      cbn [spaced_len]. unfold len in *. rewrite length_rev.
      cbn [length] in *. lia.
    + specialize (IH (Some a) k acc ltac:(cbn in Hskip; lia)).
      unfold len in *. cbn [length] in *. lia.
Qed.

Lemma emitted_spaced :
  forall self t query, (spaced_len (emitted self t query) <= len t + 1)%Z.
Proof.
  intros self t query. unfold emitted, _split_sentences, Re.split.
  eapply Z.le_trans; [apply spaced_filter|].
  eapply Z.le_trans; [apply spaced_map_strip|].
  eapply Z.le_trans; [apply spaced_filter|].
  pose proof (re_split_spaced sentence_boundary t None 0 [] ltac:(lia)) as H.
  change (len []) with 0%Z in H. cbn in H. lia.
Qed.

Lemma filter_all :
  forall {A} (p : A -> bool) l,
    (forall x, In x l -> p x = true) -> filter p l = l.
Proof.
  intros A p l. induction l as [|x l IH]; intros H; [reflexivity|].
  cbn. rewrite (H x (or_introl eq_refl)). f_equal.
  apply IH. intros y Hy. apply H. right. exact Hy.
Qed.

Lemma int_of_float_inject : forall z, int_of_float (inject_Z z) = z.
Proof. intros z. unfold int_of_float. cbn. apply Z.quot_1_r. Qed.

(** A loop that adds [c] for every element that passes a test. *)
Lemma fold_bump :
  forall {A} (p : A -> bool) (c : Q) (l : list A) (s0 : Q),
    (0 <= c)%Q ->
    (s0 <= fold_left (fun s x => if p x then (s + c)%Q else s) l s0)%Q
    /\ (fold_left (fun s x => if p x then (s + c)%Q else s) l s0
        <= s0 + c * inject_Z (Z.of_nat (length l)))%Q.
Proof.
  intros A p c l. induction l as [|x l IH]; intros s0 Hc.
  - cbn. split; [apply Qle_refl|].
    setoid_replace (s0 + c * inject_Z 0)%Q with s0 by ring. apply Qle_refl.
  - cbn [fold_left length]. rewrite Nat2Z.inj_succ.
    assert (Hstep : (s0 <= (if p x then s0 + c else s0))%Q
                    /\ ((if p x then s0 + c else s0) <= s0 + c)%Q).
    { destruct (p x); split; try apply Qle_refl.
      - setoid_replace s0 with (s0 + 0)%Q at 1 by ring.
        apply Qplus_le_compat; [apply Qle_refl|exact Hc].
      - setoid_replace s0 with (s0 + 0)%Q at 1 by ring.
        apply Qplus_le_compat; [apply Qle_refl|exact Hc]. }
    destruct Hstep as [H1 H2].
    destruct (IH (if p x then (s0 + c)%Q else s0) Hc) as [H3 H4].
    split; [eapply Qle_trans; eassumption|].
    eapply Qle_trans; [exact H4|].
    unfold Z.succ. rewrite inject_Z_plus.
    setoid_replace (s0 + c * (inject_Z (Z.of_nat (length l)) + inject_Z 1))%Q
      with ((s0 + c) + c * inject_Z (Z.of_nat (length l)))%Q by ring.
    apply Qplus_le_compat; [exact H2|apply Qle_refl].
Qed.

End FallbackSizes.

(** X20.  Sentence scores: without a query the score lies between 0 and
    12 (ten legal terms and a citation); a query never lowers the score,
    and raises it by at most one half per whitespace-separated term of
    the query. *)
Theorem score_sentence_bounds :
  forall (sentence : text) (query : option text),
    (0 <= Fallback._score_sentence sentence None)%Q
    /\ (Fallback._score_sentence sentence None <= 12)%Q
    /\ (Fallback._score_sentence sentence None
        <= Fallback._score_sentence sentence query)%Q
    /\ (Fallback._score_sentence sentence query
        <= Fallback._score_sentence sentence None
           + (1 # 2) * inject_Z (Z.of_nat
                                   (length (FallbackInv.query_terms query))))%Q.
Proof.
  intros sentence query.
  assert (Hnone : (0 <= Fallback._score_sentence sentence None)%Q
                  /\ (Fallback._score_sentence sentence None <= 12)%Q).
  { unfold Fallback._score_sentence.
    destruct (fold_bump (fun term => contains (lower term) (lower sentence))
                1 Fallback.legal_terms 0 ltac:(discriminate)) as [H1 H2].
    change (inject_Z (Z.of_nat (length Fallback.legal_terms))) with 10%Q in H2.
    destruct (Re.search Fallback.citation_like sentence).
    - split.
      + eapply Qle_trans; [exact H1|].
        match goal with
        | |- (?x <= ?x + 2)%Q =>
            setoid_replace x with (x + 0)%Q at 1 by ring;
            apply Qplus_le_compat; [apply Qle_refl|discriminate]
        end.
      + setoid_replace 12%Q with (0 + 1 * 10 + 2)%Q by reflexivity.
        apply Qplus_le_compat; [exact H2|apply Qle_refl].
    - split; [exact H1|].
      eapply Qle_trans; [exact H2|]. discriminate. }
  split; [apply Hnone|]. split; [apply Hnone|].
  assert (Hq : forall s0 terms,
             (s0 <= fold_left (fun score term =>
                                 if contains term (lower sentence)
                                 then (score + (1 # 2))%Q else score)
                              terms s0)%Q
             /\ (fold_left (fun score term =>
                              if contains term (lower sentence)
                              then (score + (1 # 2))%Q else score)
                           terms s0
                 <= s0 + (1 # 2) * inject_Z (Z.of_nat (length terms)))%Q).
  { intros s0 terms.
    apply (fold_bump (fun term => contains term (lower sentence)) (1 # 2)
             terms s0). discriminate. }
  unfold Fallback._score_sentence at 2 4. unfold FallbackInv.query_terms.
  destruct query as [[|a q]|].
  - split; [apply Qle_refl|].
    setoid_replace (Fallback._score_sentence sentence None
                    + (1 # 2) * inject_Z (Z.of_nat (@length text [])))%Q
      with (Fallback._score_sentence sentence None)
      by (cbn [length Z.of_nat]; ring).
    apply Qle_refl.
  - apply Hq.
  - split; [apply Qle_refl|].
    setoid_replace (Fallback._score_sentence sentence None
                    + (1 # 2) * inject_Z (Z.of_nat (@length text [])))%Q
      with (Fallback._score_sentence sentence None)
      by (cbn [length Z.of_nat]; ring).
    apply Qle_refl.
Qed.

(** X21.  The extractive compressor never expands its input: the
    compressed text is at most as long as the text, the compressed token
    count is at most the original one, and the reported ratio is at most
    1. *)
Theorem fallback_never_expands :
  forall (self : Fallback.SimpleFallbackCompressor) (t : text)
         (query : option text),
    (len (compressed_text (Fallback.compress self t query)) <= len t)%Z
    /\ (compressed_tokens (Fallback.compress self t query)
        <= original_tokens (Fallback.compress self t query))%Z
    /\ (compression_ratio (Fallback.compress self t query) <= 1)%Q.
Proof.
  intros self t query.
  assert (H : (len (join (T " ") (Fallback.emitted self t query)) <= len t)%Z).
  { pose proof (join_spaced (Fallback.emitted self t query)) as H1.
    pose proof (emitted_spaced self t query) as H2.
    pose proof (len_nonneg t). lia. }
  cbn [Fallback.compress compressed_text compressed_tokens original_tokens
       compression_ratio].
  split; [exact H|]. split; [apply Z.div_le_mono; [lia|exact H]|].
  destruct t as [|a t]; cbn [truthy]; [apply Qle_refl|].
  apply Qle_shift_div_r.
  - change 0%Q with (inject_Z 0). rewrite <- Zlt_Qlt.
    unfold len. cbn [length]. lia.
  - rewrite Qmult_1_l. rewrite <- Zle_Qle. exact H.
Qed.

(** X22.  With a target ratio of 1 or more nothing is dropped: the
    sentences emitted are all the sentences of the text, in order, so the
    compressed text is the text with its sentences re-joined by single
    spaces. *)
Theorem fallback_keeps_all :
  forall (self : Fallback.SimpleFallbackCompressor) (t : text)
         (query : option text),
    (1 <= Fallback.target_ratio self)%Q ->
    Fallback.emitted self t query = Fallback._split_sentences t
    /\ compressed_text (Fallback.compress self t query)
       = join (T " ") (Fallback._split_sentences t).
Proof.
  intros self t query Hr.
  assert (E : Fallback.emitted self t query = Fallback._split_sentences t).
  { unfold Fallback.emitted, Fallback.selected.
    set (sentences := Fallback._split_sentences t).
    set (n := length sentences).
    assert (Hk : (Z.of_nat n <= Fallback.target_count self n)%Z).
    { unfold Fallback.target_count.
      rewrite <- (int_of_float_inject (Z.of_nat n)) at 1.
      eapply Z.le_trans; [|apply Z.le_max_r].
      apply int_of_float_mono.
      setoid_replace (inject_Z (Z.of_nat n))
        with (inject_Z (Z.of_nat n) * 1)%Q at 1 by ring.
      rewrite !(Qmult_comm (inject_Z (Z.of_nat n))).
      apply Qmult_le_compat_r; [exact Hr|].
      change 0%Q with (inject_Z 0). rewrite <- Zle_Qle. lia. }
    pose proof (sort_desc_perm (Fallback.scored sentences query)) as P.
    rewrite firstn_all2.
    2:{ rewrite (Permutation_length P). unfold Fallback.scored.
        rewrite length_map. fold n. lia. }
    apply filter_all. intros s Hs. apply mem_In.
    apply in_map_iff. exists (s, Fallback._score_sentence s query).
    split; [reflexivity|].
    apply (Permutation_in _ (Permutation_sym P)).
    unfold Fallback.scored. apply in_map_iff. exists s. auto. }
  split; [exact E|].
  cbn [Fallback.compress compressed_text]. rewrite E. reflexivity.
Qed.

Lemma fallback_keeps_all_witness :
  Fallback.emitted {| Fallback.target_ratio := 1 |} Texts.five None
  = Fallback._split_sentences Texts.five
  /\ compressed_text
       (Fallback.compress {| Fallback.target_ratio := 1 |} Texts.five None)
     = join (T " ") (Fallback._split_sentences Texts.five).
Proof.
  apply (fallback_keeps_all {| Fallback.target_ratio := 1 |} Texts.five None).
  cbn. discriminate.
Defined.

(** ** [_extract_sections] *)

Lemma extract_sections_sample :
  Processor._extract_sections ProcessorSamples.opinion
  = [ {| DocChunker.title := T "PREAMBLE";
         DocChunker.sec_content := T "Smith v. Jones" ++ NL;
         DocChunker.start_pos := 0 |};
      {| DocChunker.title := T "FACTS";
         DocChunker.sec_content := T "The parties agree." ++ NL;
         DocChunker.start_pos := 15 |};
      {| DocChunker.title := T "ORDER";
         DocChunker.sec_content := T "The motion is denied." ++ NL;
         DocChunker.start_pos := 40 |} ].
Proof. vm_compute. reflexivity. Qed.

Section ProcessorFacts.

Import DocChunker Processor ProcessorInv Shape.

(** [text.split("\n")] cuts the text at its newlines: the lines, each
    followed by a newline, give the text back. *)
Lemma split_lines_scan :
  forall s acc,
    flat_map (fun l => l ++ NL) (Py.split_scan NL 0 acc s)
    = rev acc ++ s ++ NL.
Proof.
  induction s as [|a s IH]; intros acc.
  - cbn. rewrite app_nil_r. reflexivity.
  - cbn [Py.split_scan].
    destruct (startswith NL (a :: s)) eqn:E.
    + change (startswith NL (a :: s))
        with (char_eqb (ascii_of_nat 10) a && true)%bool in E.
      rewrite andb_true_r in E. apply char_eqb_eq in E. subst a.
      change (length NL - 1)%nat with 0%nat.
      cbn [flat_map]. rewrite IH. cbn [rev app]. unfold NL.
      rewrite <- app_assoc. reflexivity.
    + rewrite IH. cbn [rev]. rewrite <- app_assoc. reflexivity.
Qed.

Lemma split_lines :
  forall t, flat_map (fun l => l ++ NL) (Py.split NL t) = t ++ NL.
Proof. intros t. unfold Py.split. rewrite split_lines_scan. reflexivity. Qed.

Lemma lines_tail :
  forall l : list text,
    flat_map (fun l => l ++ NL) l = []
    \/ exists y, flat_map (fun l => l ++ NL) l = y ++ NL.
Proof.
  induction l as [|x l IH]; [left; reflexivity|]. right. cbn [flat_map].
  destruct IH as [->|(y & ->)].
  - exists x. rewrite app_nil_r. reflexivity.
  - exists ((x ++ NL) ++ y). rewrite <- !app_assoc. reflexivity.
Qed.

(** A line of the text, with the lines before it. *)
Lemma line_position :
  forall t done line rest,
    Py.split NL t = done ++ line :: rest ->
    exists post, t = flat_map (fun l => l ++ NL) done ++ line ++ post.
Proof.
  intros t done line rest H.
  pose proof (split_lines t) as E. rewrite H in E.
  rewrite flat_map_app in E.
  change (flat_map (fun l => l ++ NL) (line :: rest))
    with ((line ++ NL) ++ flat_map (fun l => l ++ NL) rest) in E.
  destruct (lines_tail rest) as [R|(y & R)]; rewrite R in E.
  - exists []. rewrite !app_nil_r in *.
    rewrite app_assoc in E. apply app_inv_tail in E. symmetry. exact E.
  - exists (NL ++ y).
    rewrite !app_assoc in E. apply app_inv_tail in E. symmetry.
    rewrite <- !app_assoc in E. exact E.
Qed.

Lemma found_header_listed :
  forall line h, found_header line = Some h -> In h SECTION_HEADERS.
Proof.
  intros line h H. unfold found_header in H. apply find_some in H. apply H.
Qed.

Lemma add_line_reading :
  forall t done line rest st,
    Py.split NL t = done ++ line :: rest ->
    reading t done st ->
    reading t (done ++ [line]) (add_line st line).
Proof.
  intros t done line rest st Hsplit (Hpos & Hsec & Hcur).
  assert (Hpos' : (current_pos st + (len line + 1))%Z
                  = len (flat_map (fun l => l ++ NL) (done ++ [line]))).
  { rewrite flat_map_app. cbn [flat_map]. rewrite app_nil_r, !len_app, Hpos.
    reflexivity. }
  unfold add_line.
  destruct (found_header line) as [[|a h]|] eqn:E.
  - split; [exact Hpos'|]. split; [exact Hsec|exact Hcur].
  - split; [exact Hpos'|]. cbn [sections current_section]. split.
    + unfold save. destruct (truthy _) eqn:Et; [|exact Hsec].
      apply Forall_app. split; [exact Hsec|].
      constructor; [split; assumption|constructor].
    + right. destruct (line_position _ _ _ _ Hsplit) as (post & Ht).
      exists (flat_map (fun l => l ++ NL) done), line, post.
      cbn [title start_pos].
      split; [exact Ht|]. split; [exact Hpos|].
      split; [rewrite Hsplit; apply in_elt|].
      split; [exact E|eapply found_header_listed; exact E].
  - split; [exact Hpos'|]. split; [exact Hsec|exact Hcur].
Qed.

Lemma fold_reading :
  forall t rest done st,
    Py.split NL t = done ++ rest ->
    reading t done st ->
    reading t (done ++ rest) (fold_left add_line rest st).
Proof.
  intros t rest. induction rest as [|line rest IH]; intros done st Hs H.
  - rewrite app_nil_r. exact H.
  - cbn [fold_left].
    replace (done ++ line :: rest) with ((done ++ [line]) ++ rest)
      by (rewrite <- app_assoc; reflexivity).
    apply IH; [rewrite <- app_assoc; exact Hs|].
    eapply add_line_reading; eassumption.
Qed.

Lemma truthy_nonempty : forall s, truthy (strip s) = true -> s <> [].
Proof. intros [|a s] H; [discriminate|discriminate]. Qed.

Lemma add_line_ordered :
  forall st line, ordered st -> ordered (add_line st line).
Proof.
  intros st line (Hs & Hb & Hle & Hlt).
  pose proof (len_nonneg line) as Hl.
  unfold add_line.
  assert (Hkeep :
    ordered {| sections := sections st;
               current_section :=
                 {| title := title (current_section st);
                    sec_content := sec_content (current_section st)
                                   ++ line ++ NL;
                    start_pos := start_pos (current_section st) |};
               current_pos := (current_pos st + (len line + 1))%Z |}).
  { split; [exact Hs|]. split; [exact Hb|].
    cbn [current_section current_pos start_pos sec_content].
    split; [lia|]. intros _. lia. }
  destruct (found_header line) as [[|a h]|]; [exact Hkeep| |exact Hkeep].
  unfold ordered, save.
  cbn [sections current_section current_pos start_pos sec_content].
  destruct (truthy (strip (sec_content (current_section st)))) eqn:Et.
  - apply truthy_nonempty in Et. specialize (Hlt Et).
    split.
    { rewrite map_app. cbn [map].
      clear - Hs Hb. induction (sections st) as [|s l IH]; cbn.
      - constructor; constructor.
      - inversion Hs as [|? ? Hl Hx]; subst.
        inversion Hb as [|? ? Hs0 Hb0]; subst.
        constructor; [apply IH; assumption|].
        apply Forall_app. split; [exact Hx|]. constructor; [exact Hs0|constructor]. }
    split.
    { apply Forall_app. split.
      - eapply Forall_impl; [|exact Hb]. intros s Hlts. cbn beta in *. lia.
      - constructor; [exact Hlt|constructor]. }
    split; [lia|]. intros K. congruence.
  - split; [exact Hs|].
    split.
    { eapply Forall_impl; [|exact Hb]. intros s Hlts. cbn beta in *. lia. }
    split; [lia|]. intros K. congruence.
Qed.

Lemma fold_ordered :
  forall l st, ordered st -> ordered (fold_left add_line l st).
Proof.
  induction l as [|x l IH]; intros st H; [exact H|].
  cbn [fold_left]. apply IH, add_line_ordered, H.
Qed.

Lemma fold_plain :
  forall rest done st,
    Forall (fun line => found_header line = None) rest ->
    plain_so_far done st ->
    plain_so_far (done ++ rest) (fold_left add_line rest st).
Proof.
  induction rest as [|line rest IH]; intros done st Hr H.
  - rewrite app_nil_r. exact H.
  - cbn [fold_left].
    replace (done ++ line :: rest) with ((done ++ [line]) ++ rest)
      by (rewrite <- app_assoc; reflexivity).
    apply IH; [apply (Forall_inv_tail Hr)|].
    destruct H as [H1 H2]. unfold add_line. rewrite (Forall_inv Hr).
    split; [exact H1|]. cbn [current_section]. rewrite H2.
    cbn [title sec_content start_pos].
    rewrite flat_map_app. cbn [flat_map]. rewrite app_nil_r. reflexivity.
Qed.

End ProcessorFacts.

(** X23.  Every section that [_extract_sections] returns has non-blank
    content and is either the preamble, at offset 0, or a section titled
    with an entry of [SECTION_HEADERS] whose [start_pos] is the offset in
    the text of the header line that opened it. *)
Theorem extract_sections_sound :
  forall t : text,
    Forall (fun s => Processor.opened_in t s
                     /\ truthy (strip (DocChunker.sec_content s)) = true)
           (Processor._extract_sections t).
Proof.
  intros t. unfold Processor._extract_sections.
  assert (H : Processor.reading t ([] ++ Py.split NL t)
                (fold_left Processor.add_line (Py.split NL t)
                           Processor.initial)).
  { apply fold_reading; [reflexivity|].
    split; [reflexivity|]. split; [constructor|].
    left. split; reflexivity. }
  destruct H as (_ & Hsec & Hcur). unfold Processor.save.
  destruct (truthy _) eqn:Et; [|exact Hsec].
  apply Forall_app. split; [exact Hsec|].
  constructor; [split; assumption|constructor].
Qed.

(** X24.  The sections come out in document order: their [start_pos]
    values are strictly increasing, hence pairwise different, also when
    two sections have the same title. *)
Theorem extract_sections_ordered :
  forall t : text,
    StronglySorted Z.lt
      (map DocChunker.start_pos (Processor._extract_sections t)).
Proof.
  intros t. unfold Processor._extract_sections.
  assert (H : ProcessorInv.ordered
                (fold_left Processor.add_line (Py.split NL t)
                           Processor.initial)).
  { apply fold_ordered. split; [constructor|]. split; [constructor|].
    split; [cbn; lia|]. intros K. cbn in K. congruence. }
  destruct H as (Hs & Hb & _ & _). unfold Processor.save.
  destruct (truthy _); [|exact Hs].
  rewrite map_app. cbn [map].
  induction (Processor.sections _) as [|s l IH]; cbn.
  - constructor; constructor.
  - inversion Hs as [|? ? Hl Hx]; subst.
    inversion Hb as [|? ? Hs0 Hb0]; subst.
    constructor; [apply IH; assumption|].
    apply Forall_app. split; [exact Hx|]. constructor; [exact Hs0|constructor].
Qed.

(** X25.  A text without any header line comes back as one section: the
    preamble, holding the whole text and a final newline; a blank text
    gives no section at all. *)
Theorem extract_sections_plain :
  forall t : text,
    Forall (fun line => Processor.found_header line = None)
           (Py.split NL t) ->
    Processor._extract_sections t
    = if truthy (strip t)
      then [ {| DocChunker.title := T "PREAMBLE";
                DocChunker.sec_content := t ++ NL;
                DocChunker.start_pos := 0 |} ]
      else [].
Proof.
  intros t H. unfold Processor._extract_sections.
  destruct (fold_plain (Py.split NL t) [] Processor.initial H)
    as [H1 H2]; [split; reflexivity|].
  cbn [app] in H2. rewrite split_lines in H2.
  unfold Processor.save. rewrite H1, H2. cbn [DocChunker.sec_content].
  rewrite !truthy_strip, has_ink_app.
  change (Shape.has_ink NL) with false. rewrite orb_false_r.
  destruct (Shape.has_ink t); reflexivity.
Qed.

Lemma extract_sections_plain_witness :
  Forall (fun line => Processor.found_header line = None)
         (Py.split NL ProcessorSamples.letter)
  /\ Processor._extract_sections ProcessorSamples.letter
     = [ {| DocChunker.title := T "PREAMBLE";
            DocChunker.sec_content := ProcessorSamples.letter ++ NL;
            DocChunker.start_pos := 0 |} ].
Proof.
  assert (E : Py.split NL ProcessorSamples.letter
              = [T "Dear counsel,"; T "please find enclosed."])
    by (vm_compute; reflexivity).
  assert (H : Forall (fun line => Processor.found_header line = None)
                     (Py.split NL ProcessorSamples.letter)).
  { rewrite E. repeat (constructor; [vm_compute; reflexivity|]). constructor. }
  split; [exact H|].
  pose proof (extract_sections_plain ProcessorSamples.letter H) as K.
  vm_compute in K. vm_compute. exact K.
Defined.

(** ** No unit of text is lost by the segmenters *)

Section CoverFacts.

Import Shape Cover.

Lemma contains_sub : forall u s, contains u s = true <-> sub u s.
Proof.
  intros u s. split.
  - induction s as [|a s IH]; rewrite contains_unfold; intros H.
    + rewrite orb_false_r in H. apply startswith_split in H.
      destruct H as (rest & H). exists [], rest. exact H.
    + apply orb_prop in H. destruct H as [H|H].
      * apply startswith_split in H. destruct H as (rest & H).
        exists [], rest. exact H.
      * destruct (IH H) as (pre & post & ->). exists (a :: pre), post.
        reflexivity.
  - intros (pre & post & ->). apply contains_app.
Qed.

Lemma sub_app_l : forall u s x, sub u s -> sub u (s ++ x).
Proof.
  intros u s x (pre & post & ->). exists pre, (post ++ x).
  rewrite <- !app_assoc. reflexivity.
Qed.

Lemma sub_app_r : forall u s x, sub u s -> sub u (x ++ s).
Proof.
  intros u s x (pre & post & ->). exists (x ++ pre), post.
  rewrite <- !app_assoc. reflexivity.
Qed.

Lemma sub_refl : forall u, sub u u.
Proof. intros u. exists [], []. cbn. rewrite app_nil_r. reflexivity. Qed.

Lemma sub_join :
  forall sep u l, In u l -> sub u (join sep l).
Proof. intros sep u l H. apply join_member, H. Qed.

Lemma drop_while_app_edge :
  forall a x,
    edge x -> drop_while is_space (a ++ x) = drop_while is_space a ++ x.
Proof.
  intros a x Hx. induction a as [|c a IH]; cbn.
  - apply edge_drop_while, Hx.
  - destruct (is_space c); [exact IH|reflexivity].
Qed.

Lemma sub_strip :
  forall u s, trimmed u -> sub u s -> sub u (strip s).
Proof.
  intros u s [H1 H2] (pre & post & ->). unfold strip, lstrip, rstrip.
  rewrite !rev_app_distr, <- app_assoc.
  rewrite (drop_while_app_edge (rev post) (rev u ++ rev pre))
    by (apply edge_app, H2).
  rewrite !rev_app_distr, !rev_involutive, <- app_assoc.
  rewrite (drop_while_app_edge pre) by (apply edge_app, H1).
  exists (drop_while is_space pre), (rev (drop_while is_space (rev post))).
  reflexivity.
Qed.

Lemma sub_has_ink : forall u s, trimmed u -> sub u s -> has_ink s = true.
Proof.
  intros u s [H _] (pre & post & ->). rewrite !has_ink_app.
  rewrite (edge_has_ink _ H). destruct (has_ink pre); reflexivity.
Qed.

(** The pieces of [text.split(sep)] are made of characters of the text. *)
Lemma py_split_blank :
  forall sep s skip acc,
    (has_ink acc || has_ink s)%bool = false ->
    Forall (fun p => has_ink p = false) (Py.split_scan sep skip acc s).
Proof.
  intros sep. induction s as [|a s IH]; intros skip acc H.
  - cbn. constructor; [|constructor]. rewrite has_ink_rev.
    apply orb_false_elim in H. apply H.
  - apply orb_false_elim in H. destruct H as [Ha Hs].
    unfold has_ink in Hs. cbn in Hs. apply orb_false_elim in Hs.
    destruct Hs as [Hc Hs]. fold (has_ink s) in Hs.
    cbn [Py.split_scan]. destruct skip as [|k].
    + destruct (startswith sep (a :: s)).
      * constructor; [rewrite has_ink_rev; exact Ha|].
        apply IH. rewrite Hs. reflexivity.
      * apply IH. unfold has_ink in *. cbn. rewrite Hc, Ha, Hs. reflexivity.
    + apply IH. rewrite Ha, Hs. reflexivity.
Qed.

End CoverFacts.

Section ChunkerCover.

Import Chunker ChunkerInv Shape Cover.

Variable self : LegalChunker.
Variable document : Document.

Lemma held_flush :
  forall name sep u st st',
    chunks st'
    = chunks st ++ [_create_chunk (join sep (current_chunk st)) document
                                  name (chunk_index st)] ->
    held name u st ->
    held name u st'.
Proof.
  intros name sep u st st' E [H|(c & Hc & Hn & Hu)]; right; rewrite E.
  - eexists. split; [apply in_or_app; right; left; reflexivity|].
    split; [reflexivity|]. cbn [content _create_chunk].
    apply contains_sub, sub_join, H.
  - exists c. split; [apply in_or_app; left; exact Hc|]. split; assumption.
Qed.

Lemma add_sentence_held :
  forall name u st sentence,
    held name u st \/ u = sentence ->
    held name u (add_sentence self document name st sentence).
Proof.
  intros name u st sentence H. unfold add_sentence.
  destruct (_ && _)%bool eqn:E.
  - apply andb_prop in E. destruct E as [_ Hne].
    destruct H as [H| ->].
    + eapply (held_flush name (T " ") u st); [reflexivity|exact H].
    + left. cbn [current_chunk].
      destruct (truthy _); [right; left; reflexivity|left; reflexivity].
  - destruct H as [[H|H]| ->].
    + left. cbn [current_chunk]. apply in_or_app. left. exact H.
    + right. exact H.
    + left. cbn [current_chunk]. apply in_or_app. right. left. reflexivity.
Qed.

Lemma fold_sentences_held :
  forall name u l st,
    held name u st \/ In u l ->
    held name u (fold_left (add_sentence self document name) l st).
Proof.
  intros name u l. induction l as [|x l IH]; intros st H.
  - destruct H as [H|[]]. exact H.
  - cbn [fold_left]. apply IH.
    destruct H as [H|[<-|H]].
    + left. apply add_sentence_held. left. exact H.
    + left. apply add_sentence_held. right. reflexivity.
    + right. exact H.
Qed.

Lemma add_paragraph_held :
  forall name u st raw,
    held name u st \/ In u (units_of self raw) ->
    held name u (add_paragraph self document name st raw).
Proof.
  intros name u st raw H. unfold add_paragraph. unfold units_of in H.
  destruct (negb (truthy (strip raw))); [destruct H as [H|[]]; exact H|].
  destruct (_ >? _)%Z; [apply fold_sentences_held; exact H|].
  destruct (_ && _)%bool eqn:E.
  - apply andb_prop in E. destruct E as [_ Hne].
    destruct H as [H|[<-|[]]].
    + eapply (held_flush name (NL ++ NL) u st); [reflexivity|exact H].
    + left. cbn [current_chunk].
      destruct (truthy _); [right; left; reflexivity|left; reflexivity].
  - destruct H as [[H|H]|[<-|[]]].
    + left. cbn [current_chunk]. apply in_or_app. left. exact H.
    + right. exact H.
    + left. cbn [current_chunk]. apply in_or_app. right. left. reflexivity.
Qed.

Lemma fold_paragraphs_held :
  forall name u l st,
    held name u st \/ (exists raw, In raw l /\ In u (units_of self raw)) ->
    held name u (fold_left (add_paragraph self document name) l st).
Proof.
  intros name u l. induction l as [|x l IH]; intros st H.
  - destruct H as [H|(raw & [] & _)]. exact H.
  - cbn [fold_left]. apply IH.
    destruct H as [H|(raw & [<-|Hr] & Hu)].
    + left. apply add_paragraph_held. left. exact H.
    + left. apply add_paragraph_held. right. exact Hu.
    + right. exists raw. split; assumption.
Qed.

Lemma units_of_ink :
  forall raw u, In u (units_of self raw) -> has_ink raw = true.
Proof.
  intros raw u. unfold units_of. rewrite truthy_strip.
  destruct (has_ink raw); [reflexivity|intros []].
Qed.

Lemma add_section_keeps :
  forall acc sec raw u,
    In raw (Py.split (NL ++ NL) (text_of sec)) ->
    In u (units_of self raw) ->
    exists c,
      In c (fst (add_section self document acc sec))
      /\ section c = name_of sec
      /\ contains u (content c) = true.
Proof.
  intros acc sec raw u Hraw Hu. unfold add_section. fold (text_of sec).
  rewrite truthy_strip.
  destruct (has_ink (text_of sec)) eqn:Ht; cbn [negb].
  - match goal with
    | |- context [fold_left ?f ?l ?s0] =>
        assert (H : held (name_of sec) u (fold_left f l s0));
        [apply fold_paragraphs_held; right; exists raw; split; assumption|];
        set (st := fold_left f l s0) in *
    end.
    destruct H as [H|(c & Hc & Hn & Hs)].
    + destruct (current_chunk st) as [|x l] eqn:Ec; [destruct H|].
      cbn [nonempty fst]. eexists.
      split; [apply in_or_app; right; left; reflexivity|].
      split; [reflexivity|]. cbn [content _create_chunk].
      apply contains_sub, sub_join, H.
    + exists c. split; [|split; assumption].
      destruct (nonempty (current_chunk st)); cbn [fst];
        [apply in_or_app; left; exact Hc|exact Hc].
  - exfalso. apply units_of_ink in Hu.
    pose proof (py_split_blank (NL ++ NL) (text_of sec) 0 []) as Hb.
    rewrite Ht in Hb. specialize (Hb eq_refl).
    rewrite Forall_forall in Hb. apply Hb in Hraw. congruence.
Qed.

Lemma sections_keep :
  forall l acc sec raw u,
    In sec l ->
    In raw (Py.split (NL ++ NL) (text_of sec)) ->
    In u (units_of self raw) ->
    exists c,
      In c (fst (fold_left (add_section self document) l acc))
      /\ section c = name_of sec
      /\ contains u (content c) = true.
Proof.
  induction l as [|s l IH]; intros acc sec raw u Hsec Hraw Hu; [destruct Hsec|].
  cbn [fold_left]. destruct Hsec as [->|Hsec].
  - destruct (add_section_keeps acc sec raw u Hraw Hu) as (c & Hc & Hn & Hs).
    exists c. split; [|split; assumption].
    destruct (sections_grouped self document l
                (add_section self document acc sec)) as (groups & E & _).
    rewrite E. apply in_or_app. left. exact Hc.
  - apply (IH _ sec raw u); assumption.
Qed.

End ChunkerCover.

(** X26.  [chunk_document] of [legal_rag/core/chunker.py] loses no text:
    every non-blank paragraph of a section that fits [chunk_size] occurs,
    stripped, in the content of a chunk of that section, and so does every
    sentence of a paragraph that is longer than [chunk_size]. *)
Theorem chunk_document_keeps_units :
  forall (self : Chunker.LegalChunker) (document : Chunker.Document),
    Forall
      (fun sec =>
         Forall
           (fun raw =>
              Forall
                (fun u =>
                   exists c,
                     In c (Chunker.chunk_document self document)
                     /\ Chunker.section c = Chunker.name_of sec
                     /\ contains u (Chunker.content c) = true)
                (Cover.units_of self raw))
           (Py.split (NL ++ NL) (ChunkerInv.text_of sec)))
      (Chunker.sections_of document).
Proof.
  intros self document.
  apply Forall_forall. intros sec Hsec.
  apply Forall_forall. intros raw Hraw.
  apply Forall_forall. intros u Hu.
  apply (sections_keep self document _ ([], 0%nat) sec raw u); assumption.
Qed.

Section DocChunkerCover.

Import DocChunker Shape Cover.

Variable self : LegalChunker.

Lemma split_into_sentences_trimmed :
  forall t, Forall trimmed (_split_into_sentences t).
Proof.
  intros t. unfold _split_into_sentences.
  destruct (fold_left protect_pattern (enumerate CITATION_PATTERNS) (t, []))
    as [protected_text protections].
  apply Forall_flat_map. apply Forall_forall. intros sentence _.
  destruct (truthy (strip _)) eqn:E; [|constructor].
  constructor; [apply truthy_strip_trimmed, E|constructor].
Qed.

Lemma split_into_paragraphs_trimmed :
  forall t, Forall trimmed (_split_into_paragraphs self t).
Proof.
  intros t. unfold _split_into_paragraphs.
  apply Forall_flat_map. apply Forall_forall. intros raw _.
  destruct (truthy (strip raw)) eqn:E; cbn [negb]; [|constructor].
  destruct (_ >? _)%Z; [apply split_into_sentences_trimmed|].
  constructor; [apply truthy_strip_trimmed, E|constructor].
Qed.

Lemma kept_flush :
  forall doc_id section u st,
    trimmed u -> sub u (current_chunk st) ->
    truthy (strip (current_chunk st)) = true
    /\ contains u (content (make_chunk (current_chunk st) doc_id section
                                       (chunk_idx st))) = true.
Proof.
  intros doc_id section u st Hu Hs. split.
  - rewrite truthy_strip. eapply sub_has_ink; eassumption.
  - cbn [make_chunk content]. apply contains_sub, sub_strip; assumption.
Qed.

Lemma add_para_kept :
  forall doc_id section u st para,
    trimmed u ->
    kept u st \/ u = para ->
    kept u (add_para self doc_id section st para).
Proof.
  intros doc_id section u st para Hu H. unfold add_para.
  destruct (_ >? _)%Z.
  - destruct H as [[H|(c & Hc & Hs)]| ->].
    + right. cbn [chunks].
      destruct (kept_flush doc_id section u st Hu H) as [-> Hc].
      eexists. split; [apply in_or_app; right; left; reflexivity|exact Hc].
    + right. cbn [chunks]. exists c. split; [|exact Hs].
      destruct (truthy _); [apply in_or_app; left; exact Hc|exact Hc].
    + left. cbn [current_chunk].
      destruct (_ && _)%bool; [|apply sub_refl].
      rewrite !app_assoc. apply sub_app_r, sub_refl.
  - destruct H as [[H|H]| ->].
    + left. cbn [current_chunk].
      destruct (truthy _); apply sub_app_l, H.
    + right. exact H.
    + left. cbn [current_chunk].
      destruct (truthy _); [rewrite !app_assoc|]; apply sub_app_r, sub_refl.
Qed.

Lemma fold_kept :
  forall doc_id section u l st,
    trimmed u ->
    kept u st \/ In u l ->
    kept u (fold_left (add_para self doc_id section) l st).
Proof.
  intros doc_id section u l. induction l as [|x l IH]; intros st Hu H.
  - destruct H as [H|[]]. exact H.
  - cbn [fold_left]. apply IH; [exact Hu|].
    destruct H as [H|[<-|H]].
    + left. apply add_para_kept; [exact Hu|left; exact H].
    + left. apply add_para_kept; [exact Hu|right; reflexivity].
    + right. exact H.
Qed.

End DocChunkerCover.

(** X27.  [_chunk_text] of [src/document_processor] loses no text: every
    unit that [_split_into_paragraphs] returns (a paragraph, or a sentence
    of a paragraph longer than [chunk_size]) occurs in the content of one
    of the chunks. *)
Theorem chunk_text_keeps_units :
  forall (self : DocChunker.LegalChunker) (t doc_id : text)
         (section : option text),
    Forall (fun u =>
              exists c,
                In c (DocChunker._chunk_text self t doc_id section)
                /\ contains u (DocChunker.content c) = true)
           (DocChunker._split_into_paragraphs self t).
Proof.
  intros self t doc_id section.
  pose proof (split_into_paragraphs_trimmed self t) as Ht.
  rewrite Forall_forall in *. intros u Hu.
  specialize (Ht u Hu). unfold DocChunker._chunk_text.
  match goal with
  | |- context [fold_left ?f ?l ?s0] =>
      assert (H : Cover.kept u (fold_left f l s0));
      [apply fold_kept; [exact Ht|right; exact Hu]|];
      set (st := fold_left f l s0) in *
  end.
  destruct H as [H|(c & Hc & Hs)].
  - destruct (kept_flush doc_id section u st Ht H) as [-> Hc].
    eexists. split; [apply in_or_app; right; left; reflexivity|exact Hc].
  - exists c. split; [|exact Hs].
    destruct (truthy _); [apply in_or_app; left; exact Hc|exact Hc].
Qed.

(** X28.  The flag [preserve_citations] of [LLMLinguaCompressor.compress]
    only decides what is reported: with either value the citations are
    protected and restored, the same request is sent, the object ends in
    the same state, and the results agree in text, token counts and ratio;
    the flag selects between the extracted citations and the empty list in
    [preserved_citations]. *)
Theorem compress_flag_only_reports :
  forall (env : Lingua.Env) (t : text) (query : option text)
         (st : Lingua.cstate),
    snd (Lingua.compress env t query true st)
    = snd (Lingua.compress env t query false st)
    /\ match fst (Lingua.compress env t query true st),
             fst (Lingua.compress env t query false st) with
       | Ret a, Ret b =>
           compressed_text a = compressed_text b
           /\ original_tokens a = original_tokens b
           /\ compressed_tokens a = compressed_tokens b
           /\ compression_ratio a = compression_ratio b
           /\ preserved_citations a = CitationGuard._extract_citations t
           /\ preserved_citations b = []
       | Raise e1, Raise e2 => e1 = e2
       | _, _ => False
       end.
Proof.
  intros env t query st. unfold Lingua.compress, bind, get_state, ret.
  destruct (Lingua._ensure_initialized env st) as [[[]|e] st1];
    [|split; reflexivity].
  destruct (CitationGuard._protect_citations t) as [pt cm].
  match goal with
  | |- context [Lingua.call_compress_prompt ?r ?s] =>
      destruct (Lingua.call_compress_prompt r s) as [[d|e] st2]
  end.
  - cbn [fst snd compressed_text original_tokens compressed_tokens
         compression_ratio preserved_citations].
    repeat split; reflexivity.
  - split; reflexivity.
Qed.

(** ** The vector store: lazy start and batches *)

Section StoreFacts.

Import Store.

Lemma firstn_plus :
  forall {A} (l : list A) a b,
    firstn (a + b) l = firstn a l ++ firstn b (skipn a l).
Proof.
  intros A l a. revert l. induction a as [|a IH]; intros l b; [reflexivity|].
  destruct l as [|x l]; [cbn; rewrite firstn_nil; reflexivity|].
  cbn. rewrite IH. reflexivity.
Qed.

(** The slices taken at [0, k, 2k, ...] are the consecutive pieces of the
    list. *)
Lemma slices_concat :
  forall {A} (l : list A) k m,
    concat (map (fun i => firstn k (skipn i l))
                (map (fun j => j * k) (seq 0 m)))
    = firstn (m * k) l.
Proof.
  intros A l k m. induction m as [|m IH]; [reflexivity|].
  rewrite seq_S, !map_app, concat_app, IH. cbn [map concat Nat.add].
  rewrite app_nil_r. rewrite <- firstn_plus. f_equal. lia.
Qed.

Lemma batches_cover :
  forall n k, 0 < k -> n <= ((n + k - 1) / k) * k.
Proof.
  intros n k Hk.
  pose proof (Nat.div_mod_eq (n + k - 1) k) as E.
  pose proof (Nat.mod_upper_bound (n + k - 1) k ltac:(lia)) as Hm.
  nia.
Qed.

Lemma batches_start :
  forall n k j, 0 < k -> j < (n + k - 1) / k -> j * k < n.
Proof.
  intros n k j Hk Hj.
  pose proof (Nat.div_mod_eq (n + k - 1) k) as E.
  pose proof (Nat.mod_upper_bound (n + k - 1) k ltac:(lia)) as Hm.
  nia.
Qed.

(** The loop of [add_chunks] on a started store. *)
Lemma add_loop :
  forall env coll batches acc st,
    _collection (self st) = Some coll ->
    fold_left (add_batch env) batches (acc, st)
    = ((acc + accepted coll (map (call_of env) batches))%Z,
       {| self := self st;
          calls := calls st ++ map (call_of env) batches |}).
Proof.
  intros env coll batches. induction batches as [|b l IH]; intros acc st Hc.
  - cbn. rewrite Z.add_0_r, app_nil_r. destruct st; reflexivity.
  - cbn [fold_left map accepted]. unfold add_batch at 2. rewrite Hc.
    destruct (coll_add coll (call_of env b)) eqn:E.
    + rewrite IH by exact Hc. cbn [self calls].
      rewrite <- app_assoc. cbn [call_of add_documents].
      rewrite length_map. f_equal. lia.
    + rewrite IH by exact Hc. cbn [self calls].
      rewrite <- app_assoc. reflexivity.
Qed.

Lemma add_loop_none :
  forall env batches acc st,
    _collection (self st) = None ->
    fold_left (add_batch env) batches (acc, st) = (acc, st).
Proof.
  intros env batches. induction batches as [|b bs IH]; intros acc st Hc;
    [reflexivity|].
  cbn [fold_left]. unfold add_batch at 2. rewrite Hc. apply IH, Hc.
Qed.

Lemma accepted_bounds :
  forall coll l,
    (0 <= accepted coll l
     <= Z.of_nat (length (concat (map add_documents l))))%Z.
Proof.
  intros coll l. induction l as [|c l IH]; cbn [accepted map concat]; [cbn; lia|].
  rewrite length_app. destruct (coll_add coll c); lia.
Qed.

Lemma accepted_all :
  forall coll l,
    (forall c, exists u, coll_add coll c = Ret u) ->
    accepted coll l = Z.of_nat (length (concat (map add_documents l))).
Proof.
  intros coll l H. induction l as [|c l IH]; cbn [accepted map concat]; [reflexivity|].
  rewrite length_app. destruct (H c) as [u ->]. lia.
Qed.

End StoreFacts.

(** X29.  A failed start of the vector store is not retried.  When the
    client can be created but [OPENAI_API_KEY] is unset or empty, the first
    [search] raises [ValueError] and leaves the client assigned; from then
    on, in every environment (also with the key set), [search] raises
    [AttributeError] on the missing collection, and [add_chunks] with a
    positive batch size returns 0 without adding anything. *)
Theorem store_start_not_retried :
  forall (env : Store.Env) (st : Store.sstate)
         (PersistentClient : text -> res Store.Client) (client : Store.Client)
         (ctor : text -> text -> res Store.EmbeddingFunction)
         (query : text) (top_k : Z) (filter_metadata : option dict)
         (include_distances : bool),
    Store._client (Store.self st) = None ->
    Store._collection (Store.self st) = None ->
    Store.chromadb env = Some PersistentClient ->
    Store.mkdir env (Store.persist_directory (Store.self st)) = Ret tt ->
    PersistentClient (Store.persist_directory (Store.self st)) = Ret client ->
    Store.embedding_functions env = Some ctor ->
    Store.OPENAI_API_KEY env = None \/ Store.OPENAI_API_KEY env = Some [] ->
    exists st' : Store.sstate,
      Store.search env query top_k filter_metadata include_distances st
      = (Store.Failed
           (Store.Exn
              (ValueError "OPENAI_API_KEY environment variable is required")),
         st')
      /\ Store._client (Store.self st') = Some client
      /\ (forall env' query' top_k' filter' include',
            Store.search env' query' top_k' filter' include' st'
            = (Store.Failed
                 (Store.Exn
                    (AttributeError
                       "'NoneType' object has no attribute 'query'")),
               st'))
      /\ (forall env' chunks batch_size,
            (0 < batch_size)%Z ->
            Store.add_chunks env' chunks batch_size st'
            = (Store.Done 0%Z, st')).
Proof.
  intros env st PC client ctor query top_k fm inc Hcl Hcoll Hch Hmk Hpc Hef
         Hkey.
  exists (Store.set_client client st).
  assert (Hinit : Store._ensure_initialized env st
                  = (Store.Failed
                       (Store.Exn
                          (ValueError
                             "OPENAI_API_KEY environment variable is required")),
                     Store.set_client client st)).
  { unfold Store._ensure_initialized. rewrite Hcl, Hch, Hmk, Hpc.
    unfold Store._create_embedding_function. rewrite Hef.
    destruct Hkey as [-> | ->]; reflexivity. }
  assert (Hagain : forall env',
             Store._ensure_initialized env' (Store.set_client client st)
             = (Store.Done tt, Store.set_client client st))
    by reflexivity.
  split; [unfold Store.search; rewrite Hinit; reflexivity|].
  split; [reflexivity|]. split.
  - intros env' q' k' f' i'. unfold Store.search. rewrite Hagain.
    cbn [Store.set_client Store.self Store._collection]. rewrite Hcoll.
    reflexivity.
  - intros env' chunks batch_size Hb. unfold Store.add_chunks.
    rewrite Hagain. unfold Store.range0.
    replace (batch_size =? 0)%Z with false by (symmetry; apply Z.eqb_neq; lia).
    replace (batch_size <? 0)%Z with false by (symmetry; apply Z.ltb_ge; lia).
    rewrite add_loop_none by exact Hcoll. reflexivity.
Qed.

Lemma store_start_not_retried_witness :
  exists st' : Store.sstate,
    Store.search (StoreRuns.env None) (T "holding") 10 None true
                 StoreRuns.fresh
    = (Store.Failed
         (Store.Exn
            (ValueError "OPENAI_API_KEY environment variable is required")),
       st')
    /\ Store._client (Store.self st') = Some StoreRuns.client
    /\ (forall env' query' top_k' filter' include',
          Store.search env' query' top_k' filter' include' st'
          = (Store.Failed
               (Store.Exn
                  (AttributeError
                     "'NoneType' object has no attribute 'query'")),
             st'))
    /\ (forall env' chunks batch_size,
          (0 < batch_size)%Z ->
          Store.add_chunks env' chunks batch_size st'
          = (Store.Done 0%Z, st')).
Proof.
  apply (store_start_not_retried (StoreRuns.env None) StoreRuns.fresh
           (fun _ => Ret StoreRuns.client) StoreRuns.client
           (fun k m => Ret {| Store.ef_api_key := k;
                              Store.ef_model_name := m |})
           (T "holding") 10 None true);
    try reflexivity.
  left. reflexivity.
Defined.

(** X30.  [add_chunks] on a started store with a positive [batch_size]
    never raises; it offers every chunk to the collection exactly once, in
    order, in calls of at most [batch_size] documents each, and returns the
    number of documents in the calls that the collection accepted: a
    rejected batch is skipped, not retried, and the result is between 0 and
    [len(chunks)]. *)
Theorem add_chunks_accounting :
  forall (env : Store.Env) (st : Store.sstate) (client : Store.Client)
         (coll : Store.Collection) (chunks : list DocChunker.DocumentChunk)
         (batch_size : Z),
    Store._client (Store.self st) = Some client ->
    Store._collection (Store.self st) = Some coll ->
    (0 < batch_size)%Z ->
    exists new : list Store.AddCall,
      Store.add_chunks env chunks batch_size st
      = (Store.Done (Store.accepted coll new),
         {| Store.self := Store.self st;
            Store.calls := Store.calls st ++ new |})
      /\ concat (map Store.add_documents new) = map DocChunker.content chunks
      /\ Forall (fun c =>
                   (0 < Z.of_nat (length (Store.add_documents c))
                    <= batch_size)%Z
                   /\ length (Store.add_ids c)
                      = length (Store.add_documents c)
                   /\ length (Store.add_metadatas c)
                      = length (Store.add_documents c))
                new
      /\ (0 <= Store.accepted coll new <= Z.of_nat (length chunks))%Z.
Proof.
  intros env st client coll chunks batch_size Hcl Hcoll Hb.
  set (k := Z.to_nat batch_size).
  set (m := ((length chunks + k - 1) / k)%nat).
  assert (Hk : (0 < k)%nat) by (unfold k; lia).
  set (batches := map (fun i => Store.slice chunks i batch_size)
                      (map (fun j => (j * k)%nat) (seq 0 m))).
  assert (Hcat : concat batches = chunks).
  { unfold batches, Store.slice. fold k. rewrite slices_concat.
    apply firstn_all2. apply batches_cover, Hk. }
  exists (map (Store.call_of env) batches).
  assert (Hdocs : concat (map Store.add_documents
                            (map (Store.call_of env) batches))
                  = map DocChunker.content chunks).
  { rewrite map_map. cbn [Store.call_of Store.add_documents].
    rewrite <- concat_map, Hcat. reflexivity. }
  split.
  - unfold Store.add_chunks, Store._ensure_initialized. rewrite Hcl.
    unfold Store.range0.
    replace (batch_size =? 0)%Z with false by (symmetry; apply Z.eqb_neq; lia).
    replace (batch_size <? 0)%Z with false by (symmetry; apply Z.ltb_ge; lia).
    fold k m batches.
    rewrite (add_loop env coll batches 0%Z st Hcoll). reflexivity.
  - split; [exact Hdocs|]. split.
    + apply Forall_map. unfold batches. apply Forall_map, Forall_map.
      apply Forall_forall. intros j Hj. apply in_seq in Hj.
      cbn [Store.call_of Store.add_documents Store.add_ids
           Store.add_metadatas].
      rewrite !length_map. split; [|split; reflexivity].
      unfold Store.slice. fold k. rewrite length_firstn, length_skipn.
      pose proof (batches_start (length chunks) k j Hk ltac:(fold m; lia)).
      unfold k in *. lia.
    + pose proof (accepted_bounds coll (map (Store.call_of env) batches)) as H.
      rewrite Hdocs, length_map in H. exact H.
Qed.

(** Five chunks in batches of two: three calls, of 2, 2 and 1 documents. *)
Lemma add_chunks_accounting_witness :
  exists new : list Store.AddCall,
    Store.add_chunks (StoreRuns.env (Some (T "sk-test"))) StoreRuns.five 2
                     StoreRuns.started
    = (Store.Done (Store.accepted StoreRuns.collection new),
       {| Store.self := Store.self StoreRuns.started;
          Store.calls := Store.calls StoreRuns.started ++ new |})
    /\ concat (map Store.add_documents new)
       = map DocChunker.content StoreRuns.five
    /\ Forall (fun c =>
                 (0 < Z.of_nat (length (Store.add_documents c)) <= 2)%Z
                 /\ length (Store.add_ids c) = length (Store.add_documents c)
                 /\ length (Store.add_metadatas c)
                    = length (Store.add_documents c))
              new
    /\ (0 <= Store.accepted StoreRuns.collection new
        <= Z.of_nat (length StoreRuns.five))%Z.
Proof.
  apply (add_chunks_accounting (StoreRuns.env (Some (T "sk-test")))
           StoreRuns.started StoreRuns.client StoreRuns.collection
           StoreRuns.five 2).
  - reflexivity.
  - reflexivity.
  - lia.
Defined.

Lemma add_chunks_sample :
  map (fun c => length (Store.add_documents c))
      (Store.calls
         (snd (Store.add_chunks (StoreRuns.env (Some (T "sk-test")))
                                StoreRuns.five 2 StoreRuns.started)))
  = [2; 2; 1]%nat
  /\ fst (Store.add_chunks (StoreRuns.env (Some (T "sk-test")))
                           StoreRuns.five 2 StoreRuns.started)
     = Store.Done 5%Z.
Proof. split; vm_compute; reflexivity. Qed.
